(** * Vaani: streaming speech segmentation and transcription dispatch

    A shallow embedding of
      - [src/pipeline/vad/vad_silero.py]   ([SileroVAD.is_speech],
        [StreamingVAD.process_chunk]) and
      - [src/pipeline/asr/streaming_asr.py] ([StreamingASR._audio_callback],
        [_process_audio], [start], [stop]),
    with the properties of the design document stated against it.

    Conventions.  A Python [self] object is a record; a method is a function
    from the record, its arguments and what the environment answers during
    the call (the neural model, the transcriber, the audio device) to the
    updated record and what the call produced.  Python integers are [Z].
    A float is the rational it denotes, an infinity or [nan] ([Float.t]).
    An audio sample is a rational, read as the nearest 32-bit float when
    numpy computes on it; the two amplitude tests ([energy_above],
    [level_above]) follow numpy's 32-bit arithmetic operation by operation:
    every sum and product is rounded, sums are taken in numpy's pairwise
    order, and the mean divides in double precision before it is stored. *)

From Stdlib Require Import String Ascii.
From Stdlib Require Import List ZArith QArith Qabs Qround Qpower Bool Lia.
From Stdlib Require Import Lqa.
Import ListNotations.
Local Open Scope Z_scope.

(** A one-dimensional array of samples (a frame, or a finished utterance). *)
Definition Audio : Type := list Q.

(** [a > b] on rationals, as a boolean. *)
Definition Qgtb (a b : Q) : bool := negb (Qle_bool a b).

(** The mean of the samples as a rational number, without any rounding;
    an empty array has none. *)
Definition mean (xs : list Q) : option Q :=
match xs with
| [] => None
| _ => Some (fold_right Qplus 0%Q xs / inject_Z (Z.of_nat (length xs)))%Q
end.

(** [len(l)] *)
Definition len {A : Type} (l : list A) : Z := Z.of_nat (length l).

Arguments len : simpl never.

(* ================================================================== *)
(** * Binary floating point                                            *)
(* ================================================================== *)

Module Float.

(** An IEEE 754 value: a finite one is the rational it denotes (the sign
    of zero is not kept: no operation below depends on it). *)
Inductive t : Type :=
| Finite (q : Q)
| PosInf
| NegInf
| NaN.

(** A binary format: [prec] significant bits, exponents of normal numbers
    from [emin] to [emax]. *)
Record format : Type := mk_format {
  prec : Z;
  emin : Z;
  emax : Z
}.

Definition binary32 : format := mk_format 24 (-126) 127.

Definition binary64 : format := mk_format 53 (-1022) 1023.

Definition pow2 (z : Z) : Q := (2 ^ z)%Q.

(** The exponent [e] with [2^e <= a < 2^(e+1)], for [0 < a]. *)
Definition ilog2 (a : Q) : Z :=
let e0 := Z.log2 (Qnum a) - Z.log2 (Zpos (Qden a)) in
if Qle_bool (pow2 e0) a then e0 else e0 - 1.

(** The integer nearest to [s], the even one of two that are as near. *)
Definition nearest_even (s : Q) : Z :=
let f := Qfloor s in
match (s - inject_Z f ?= 1 # 2)%Q with
| Lt => f
| Gt => f + 1
| Eq => if Z.even f then f else f + 1
end.

(** Rounding to nearest, ties to even: the spacing of the format's values
    around [q] is [2^(e - (prec - 1))], with [e] the exponent of [q] and
    not below [emin] (subnormal numbers); what rounds to [2^(emax+1)]
    overflows to an infinity. *)
Definition round (fmt : format) (q : Q) : t :=
if Qeq_bool q 0 then Finite 0
else
  let a := Qabs q in
  let e := Z.max (ilog2 a) (emin fmt) in
  let quantum := pow2 (e - (prec fmt - 1)) in
  let r := Qred (inject_Z (nearest_even (a / quantum)) * quantum) in
  if Qle_bool (pow2 (emax fmt + 1)) r
  then (if Qle_bool 0 q then PosInf else NegInf)
  else Finite (if Qle_bool 0 q then r else Qred (- r)).

Definition add (fmt : format) (x y : t) : t :=
match x, y with
| Finite a, Finite b => round fmt (a + b)
| NaN, _ | _, NaN => NaN
| PosInf, NegInf | NegInf, PosInf => NaN
| PosInf, _ | _, PosInf => PosInf
| NegInf, _ | _, NegInf => NegInf
end.

(** [x * x] *)
Definition square (fmt : format) (x : t) : t :=
match x with
| Finite a => round fmt (a * a)
| PosInf | NegInf => PosInf
| NaN => NaN
end.

Definition abs (x : t) : t :=
match x with
| Finite a => Finite (Qabs a)
| PosInf | NegInf => PosInf
| NaN => NaN
end.

(** Conversion to another format. *)
Definition cast (fmt : format) (x : t) : t :=
match x with
| Finite a => round fmt a
| _ => x
end.

(** Division by a count [n >= 0]. *)
Definition div_count (fmt : format) (x : t) (n : Z) : t :=
match x with
| Finite a =>
    if n =? 0
    then (if Qeq_bool a 0 then NaN
          else if Qle_bool 0 a then PosInf else NegInf)
    else round fmt (a / inject_Z n)
| _ => x
end.

(** The correctly rounded square root: with [s] the argument in units of
    the square of the result's spacing, the result is [m0 = floor (sqrt s)]
    or [m0 + 1], as [s] lies below or above [(m0 + 1/2)^2]. *)
Definition sqrt (fmt : format) (x : t) : t :=
match x with
| Finite a =>
    if Qeq_bool a 0 then Finite 0
    else if Qle_bool a 0 then NaN
    else
      let e := Z.max (ilog2 a / 2) (emin fmt) in
      let qe := e - (prec fmt - 1) in
      let s := (a / pow2 (2 * qe))%Q in
      let m0 := Z.sqrt (Qfloor s) in
      let half := (inject_Z m0 + (1 # 2))%Q in
      let m := match (s ?= half * half)%Q with
               | Lt => m0
               | Gt => m0 + 1
               | Eq => if Z.even m0 then m0 else m0 + 1
               end in
      Finite (Qred (inject_Z m * pow2 qe))
| PosInf => PosInf
| NegInf | NaN => NaN
end.

(** [x > y]; every comparison with [nan] is false. *)
Definition gtb (x y : t) : bool :=
match x, y with
| Finite a, Finite b => negb (Qle_bool a b)
| PosInf, Finite _ | PosInf, NegInf => true
| Finite _, NegInf => true
| _, _ => false
end.

(** [x] is at least [lo]: a finite value not below [lo], or the positive
    infinity. *)
Definition at_least (lo : Q) (x : t) : Prop :=
match x with
| Finite r => (lo <= r)%Q
| PosInf => True
| _ => False
end.

(** [x] is finite and between 0 and [hi]. *)
Definition at_most (hi : Q) (x : t) : Prop :=
match x with
| Finite r => (0 <= r)%Q /\ (r <= hi)%Q
| _ => False
end.

(** A value of magnitude at least [lo], or an infinity. *)
Definition magnitude_at_least (lo : Q) (x : t) : Prop :=
match x with
| Finite r => (lo <= Qabs r)%Q
| PosInf | NegInf => True
| NaN => False
end.

End Float.

(** A Python [float] literal: the double nearest to the decimal. *)
Definition py_float (q : Q) : Float.t := Float.round Float.binary64 q.

(* ================================================================== *)
(** * numpy on one-dimensional [float32] arrays                        *)
(* ================================================================== *)

Module np.

(** A sample as a 32-bit float. *)
Definition float32 (q : Q) : Float.t := Float.round Float.binary32 q.

(** The samples as a [float32] array. *)
Definition array (a : Audio) : list Float.t := map float32 a.

Definition add32 : Float.t -> Float.t -> Float.t := Float.add Float.binary32.

(** [a ** 2]: numpy squares each element. *)
Definition square (a : list Float.t) : list Float.t :=
map (Float.square Float.binary32) a.

(** [np.abs(a)] *)
Definition abs (a : list Float.t) : list Float.t := map Float.abs a.

(** [np.sqrt] of a [float32] scalar. *)
Definition sqrt (x : Float.t) : Float.t := Float.sqrt Float.binary32 x.

(** Summation from left to right, into [acc]. *)
Fixpoint sum_from (acc : Float.t) (l : list Float.t) : Float.t :=
match l with
| [] => acc
| x :: rest => sum_from (add32 acc x) rest
end.

(** [r[j] += a[i + j]] for the eight accumulators. *)
Fixpoint add_lanes (r l : list Float.t) : list Float.t :=
match r, l with
| x :: r', y :: l' => add32 x y :: add_lanes r' l'
| _, _ => r
end.

(** The unrolled loop of the pairwise sum: [groups] times, the next
    eight elements are added to the accumulators. *)
Fixpoint lanes (groups : nat) (r l : list Float.t)
  : list Float.t * list Float.t :=
match groups with
| O => (r, l)
| S g => lanes g (add_lanes r (firstn 8 l)) (skipn 8 l)
end.

(** A block of 8 to 128 elements: eight accumulators over the groups of
    eight, combined as a tree, then the up to seven elements left. *)
Definition block_sum (l : list Float.t) : Float.t :=
let n := length l in
let '(r, rest) := lanes (n / 8 - 1) (firstn 8 l) (skipn 8 l) in
match r with
| [r0; r1; r2; r3; r4; r5; r6; r7] =>
    sum_from (add32 (add32 (add32 r0 r1) (add32 r2 r3))
                    (add32 (add32 r4 r5) (add32 r6 r7))) rest
| _ => Float.NaN
end.

(** numpy's pairwise summation of a contiguous array: fewer than 8
    elements are added from left to right, up to 128 as a block, more are
    split at half the length rounded down to a multiple of 8.  [fuel]
    bounds the depth of the splitting; the length of the array is
    enough ([pairwise_sum_fuel]). *)
Fixpoint pairwise_sum (fuel : nat) (l : list Float.t) : Float.t :=
let n := length l in
if (n <? 8)%nat then sum_from (Float.Finite 0) l
else if (n <=? 128)%nat then block_sum l
else
  match fuel with
  | O => Float.NaN
  | S k =>
      let n2 := (n / 2 - (n / 2) mod 8)%nat in
      add32 (pairwise_sum k (firstn n2 l)) (pairwise_sum k (skipn n2 l))
  end.

(** [a.sum()] *)
Definition sum (a : list Float.t) : Float.t := pairwise_sum (length a) a.

(** [np.mean(a)], [a.mean()]: the [float32] sum is divided by the
    number of elements in double precision and stored as a [float32];
    the mean of an empty array is [nan]. *)
Definition mean (a : list Float.t) : Float.t :=
Float.cast Float.binary32
  (Float.div_count Float.binary64 (sum a) (Z.of_nat (length a))).

End np.

(* ================================================================== *)
(** * The classifier adapter: [SileroVAD]                              *)
(* ================================================================== *)

Module SileroVAD.

(** [model] records whether [_load_model] left a model in [self.model]
    ([None] after a failed load). *)
Record t : Type := mk {
  threshold   : Q;
  sample_rate : Z;
  model       : bool
}.

(** What [self.model(audio_chunk, self.sample_rate).item()] does on
    line 60: it raises, or it yields a speech probability. *)
Inductive model_call : Type :=
| Raises
| Prob (p : Q).

(** [energy = np.sqrt(np.mean(audio_chunk ** 2))] (lines 46, 68), on
    the frame as an array of 32-bit floats: the capture stream delivers
    [float32] (line 161 of [streaming_asr.py]), and the handler of line 64
    finds the [float32] tensor of line 51, turned back into an array on
    lines 66-67. *)
Definition energy (audio_chunk : Audio) : Float.t :=
np.sqrt (np.mean (np.square (np.array audio_chunk))).

(** [energy > 0.01] (lines 47, 69): the 32-bit energy against the double
    [0.01]; [nan > 0.01] is [False]. *)
Definition energy_above (audio_chunk : Audio) : bool :=
Float.gtb (energy audio_chunk) (py_float (1 # 100)).

(** [audio_chunk.abs().max() > 1.0] on a non-empty tensor. *)
Definition exceeds_unit (audio_chunk : Audio) : bool :=
existsb (fun x => Qgtb (Qabs x) 1) audio_chunk.

(** Lines 56-57: 16-bit integer samples are scaled into [-1, 1]. *)
Definition rescale (audio_chunk : Audio) : Audio :=
if exceeds_unit audio_chunk
then map (fun x => x / 32768)%Q audio_chunk
else audio_chunk.

(** [is_speech], lines 42-69.  The frame is one-dimensional, so the
    [squeeze] of line 54 changes nothing.  [.max()] of an empty tensor
    raises inside the [try]; the handler then finds the empty frame.  When
    the model call raises, the handler finds the frame as lines 56-57 left
    it, rescaled or not, and computes its energy as line 46 does. *)
Definition is_speech (self : t) (call : model_call) (audio_chunk : Audio)
  : bool :=
if negb (model self) then energy_above audio_chunk
else
  match audio_chunk with
  | [] => energy_above audio_chunk
  | _ =>
      let audio_chunk' := rescale audio_chunk in
      match call with
      | Prob speech_prob => Qgtb speech_prob (threshold self)
      | Raises => energy_above audio_chunk'
      end
  end.

(** One entry of what [get_speech_timestamps] returns: a dictionary with
    the sample indices ['start'] and ['end']. *)
Record timestamp : Type := mk_timestamp {
  ts_start : Z;
  ts_end   : Z
}.

(** What [self.get_speech_timestamps(...)] does on lines 87-94. *)
Inductive timestamps_call : Type :=
| StampsRaise
| Stamps (speech_timestamps : list timestamp).

(** [detect_speech_segments], lines 71-101.  As in [is_speech], [.max()]
    of an empty tensor raises inside the [try]. *)
Definition detect_speech_segments (self : t) (call : timestamps_call)
           (audio_data : Audio) : list (Z * Z) :=
if negb (model self) then [(0, len audio_data)]
else
  match audio_data with
  | [] => [(0, len audio_data)]
  | _ =>
      match call with
      | Stamps speech_timestamps =>
          map (fun ts => (ts_start ts, ts_end ts)) speech_timestamps
      | StampsRaise => [(0, len audio_data)]
      end
  end.

(** [has_speech], lines 103-105. *)
Definition has_speech (self : t) (call : timestamps_call)
           (audio_data : Audio) : bool :=
let segments := detect_speech_segments self call audio_data in
len segments >? 0.

End SileroVAD.

(* ================================================================== *)
(** * The segmenter: [StreamingVAD]                                    *)
(* ================================================================== *)

Module StreamingVAD.

(** The first component of what [process_chunk] returns. *)
Inductive label : Type :=
| speaking   (* 'speaking' *)
| silence    (* 'silence'  *)
| ended.     (* 'ended'    *)

(** The attributes [__init__] sets; [chunk_size] is stored and never read
    by [process_chunk]. *)
Record t : Type := mk {
  vad                 : SileroVAD.t;
  chunk_size          : Z;
  is_speaking         : bool;
  speech_buffer       : list Audio;
  silence_chunks      : Z;
  max_silence_chunks  : Z;
  min_speech_chunks   : Z;
  speech_chunks_count : Z
}.

(** [__init__(threshold, sample_rate, chunk_size)], lines 108-116;
    [model_loaded] tells whether the classifier's model could be loaded. *)
Definition init (threshold : Q) (sample_rate chunk_size : Z)
           (model_loaded : bool) : t :=
{| vad := SileroVAD.mk threshold sample_rate model_loaded;
   chunk_size := chunk_size;
   is_speaking := false;
   speech_buffer := [];
   silence_chunks := 0;
   max_silence_chunks := 13;
   min_speech_chunks := 22;
   speech_chunks_count := 0 |}.

(** [np.concatenate(self.speech_buffer)] (or [torch.cat]): the frames
    laid end to end. *)
Definition concatenate (buf : list Audio) : Audio := List.concat buf.

(** Lines 121-162, after line 119 has put the classifier's answer in
    [is_speech]. *)
Definition on_verdict (self : t) (is_speech : bool) (audio_chunk : Audio)
  : t * (label * option Audio) :=
if is_speech then
  let self1 :=
    if negb (is_speaking self) then
      {| vad := vad self; chunk_size := chunk_size self;
         is_speaking := true;
         speech_buffer := speech_buffer self;
         silence_chunks := silence_chunks self;
         max_silence_chunks := max_silence_chunks self;
         min_speech_chunks := min_speech_chunks self;
         speech_chunks_count := 0 |}
    else self in
  ({| vad := vad self1; chunk_size := chunk_size self1;
      is_speaking := is_speaking self1;
      speech_buffer := speech_buffer self1 ++ [audio_chunk];
      silence_chunks := 0;
      max_silence_chunks := max_silence_chunks self1;
      min_speech_chunks := min_speech_chunks self1;
      speech_chunks_count := speech_chunks_count self1 + 1 |},
   (speaking, None))
else if is_speaking self then
  let self1 :=
    {| vad := vad self; chunk_size := chunk_size self;
       is_speaking := true;
       speech_buffer := speech_buffer self ++ [audio_chunk];
       silence_chunks := silence_chunks self + 1;
       max_silence_chunks := max_silence_chunks self;
       min_speech_chunks := min_speech_chunks self;
       speech_chunks_count := speech_chunks_count self |} in
  if silence_chunks self1 >=? max_silence_chunks self1 then
    let cleared :=
      {| vad := vad self1; chunk_size := chunk_size self1;
         is_speaking := false;
         speech_buffer := [];
         silence_chunks := 0;
         max_silence_chunks := max_silence_chunks self1;
         min_speech_chunks := min_speech_chunks self1;
         speech_chunks_count := 0 |} in
    if speech_chunks_count self1 <? min_speech_chunks self1 then
      (cleared, (silence, None))
    else
      (cleared, (ended, Some (concatenate (speech_buffer self1))))
  else (self1, (speaking, None))
else (self, (silence, None)).

(** [process_chunk], lines 118-162. *)
Definition process_chunk (self : t) (call : SileroVAD.model_call)
           (audio_chunk : Audio) : t * (label * option Audio) :=
let is_speech := SileroVAD.is_speech (vad self) call audio_chunk in
on_verdict self is_speech audio_chunk.

(** One delivered frame with what the model does when asked about it. *)
Definition Input : Type := (SileroVAD.model_call * Audio)%type.

Definition frame_of (i : Input) : Audio := snd i.

(** Feeding a stream of frames in arrival order, collecting the returns. *)
Fixpoint run (self : t) (inputs : list Input)
  : t * list (label * option Audio) :=
match inputs with
| [] => (self, [])
| i :: rest =>
    let '(self', r) := process_chunk self (fst i) (snd i) in
    let '(final, rs) := run self' rest in
    (final, r :: rs)
end.

(** The utterances among a list of returns: the non-null buffers that
    come with 'ended'. *)
Fixpoint utterances (rs : list (label * option Audio)) : list Audio :=
match rs with
| [] => []
| (ended, Some a) :: rest => a :: utterances rest
| _ :: rest => utterances rest
end.

(** ** Measures on a stretch of the input, used in the statements *)

(** How classifier [c] classifies an input. *)
Definition verdict (c : SileroVAD.t) (i : Input) : bool :=
SileroVAD.is_speech c (fst i) (snd i).

(** Frames of a stretch classified as speech. *)
Definition speech_count (c : SileroVAD.t) (seg : list Input) : nat :=
length (filter (verdict c) seg).

(** Length of the silence run in front of a list. *)
Fixpoint leading_silence (c : SileroVAD.t) (l : list Input) : nat :=
match l with
| i :: rest => if verdict c i then O else S (leading_silence c rest)
| [] => O
end.

(** Length of the silence run that ends a stretch. *)
Definition trailing_silence (c : SileroVAD.t) (seg : list Input) : nat :=
leading_silence c (rev seg).

Definition frames_of (seg : list Input) : list Audio := map frame_of seg.

(** The segmenter after the frames of [h] were fed to [self]. *)
Definition after (self : t) (h : list Input) : t := fst (run self h).

(** [seg] is the stretch of [h] since speech onset: [h] is [pre] followed
    by [seg]; the segmenter, started as [self], was Idle when [seg] began;
    [seg] opens with a frame classified as speech (the Idle-to-Speaking
    transition); and the segmenter was in Speaking after every frame of
    [seg] but the last one. *)
Definition since_onset (self : t) (h pre seg : list Input) : Prop :=
h = pre ++ seg /\
is_speaking (after self pre) = false /\
(exists i rest, seg = i :: rest /\ verdict (vad self) i = true) /\
(forall seg1 seg2, seg = seg1 ++ seg2 -> seg1 <> [] -> seg2 <> [] ->
   is_speaking (after self (pre ++ seg1)) = true).

(** The reachable-state invariant: Idle means an empty buffer and zero
    counters; Speaking means the silence run is still short of the limit
    and the speech counter does not exceed the buffer length. *)
Definition tidy (s : t) : Prop :=
(is_speaking s = false ->
 speech_buffer s = [] /\ speech_chunks_count s = 0 /\
 silence_chunks s = 0) /\
(is_speaking s = true ->
 silence_chunks s < max_silence_chunks s /\
 speech_chunks_count s <= len (speech_buffer s)).

(** ** A concrete session

    The segmenter as the engine builds it (threshold 0.6, 16 kHz, frames
    of 512 samples, model loaded), a frame the model calls speech and a
    frame it calls silence. *)
Definition session : t := init (6 # 10) 16000 512 true.

Definition loud_frame : Input := (SileroVAD.Prob 1, repeat (1 # 2)%Q 512).

Definition quiet_frame : Input := (SileroVAD.Prob 0, repeat 0%Q 512).

(** The same two with two samples each. *)
Definition loud_pair : Input := (SileroVAD.Prob 1, [1 # 2; 1 # 2]%Q).

Definition quiet_pair : Input := (SileroVAD.Prob 0, [0; 0]%Q).

(** A stretch of frames that are all classified the same way. *)
Definition all_classified (c : SileroVAD.t) (b : bool) (l : list Input)
  : Prop :=
Forall (fun i => verdict c i = b) l.

(** Frames the segmenter is holding: the buffer while in Speaking. *)
Definition backlog (s : t) : Z :=
if is_speaking s then len (speech_buffer s) else 0.

(** What the counters promise about the buffer, for the thresholds of
    [init]: an Idle segmenter holds nothing, and in Speaking the speech
    counter and the silence run count different buffered frames. *)
Definition accounted (s : t) : Prop :=
max_silence_chunks s = 13 /\ min_speech_chunks s = 22 /\
(is_speaking s = false -> speech_buffer s = []) /\
(is_speaking s = true ->
 0 <= silence_chunks s /\
 speech_chunks_count s + silence_chunks s <= len (speech_buffer s)).

End StreamingVAD.

(* ================================================================== *)
(** * Python text                                                      *)
(* ================================================================== *)

(** A [str] is a sequence of Unicode code points. *)
Definition pystr : Type := list N.

Definition pystr_of (s : String.string) : pystr :=
map Ascii.N_of_ascii (String.list_ascii_of_string s).

(** The code points [str.isspace] accepts, which [str.strip()] removes. *)
Definition isspace (c : N) : bool :=
(((9 <=? c) && (c <=? 13)) || ((28 <=? c) && (c <=? 32))
 || (c =? 133) || (c =? 160) || (c =? 5760)
 || ((8192 <=? c) && (c <=? 8202))
 || (c =? 8232) || (c =? 8233) || (c =? 8239) || (c =? 8287)
 || (c =? 12288))%N.

Fixpoint lstrip (s : pystr) : pystr :=
match s with
| c :: rest => if isspace c then lstrip rest else s
| [] => []
end.

Definition rstrip (s : pystr) : pystr := rev (lstrip (rev s)).

(** [s.strip()] *)
Definition strip (s : pystr) : pystr := rstrip (lstrip s).


(* ================================================================== *)
(** * The stream engine: [StreamingASR]                                *)
(* ================================================================== *)

Module StreamingASR.

(** The dictionary [WhisperASR.transcribe_audio] returns, with the keys
    the engine reads and the latency it passes on. *)
Record result : Type := mk_result {
  text    : pystr;
  success : bool;
  latency : Q
}.

(** What [self.asr.transcribe_audio(...)] does on line 130. *)
Inductive transcription : Type :=
| Throws
| Returns (r : result).

(** Second argument of [self.callback(event, data)]. *)
Inductive data : Type :=
| NoData
| Chunk (c : Audio)
| Result (r : result).

(** What a method does to the outside, in order. *)
Inductive effect : Type :=
| Callback (event : String.string) (d : data)
| Spawn (audio_data : Audio)   (* Thread(target=self._process_audio,
                                  args=(audio_data,)).start() *)
| Log (level msg : String.string).

(** How a call ends. *)
Inductive completion : Type :=
| Returned
| Raised.

(** The [status] argument of the capture callback: no flag set, or flags
    whose printed form mentions 'overflow' or not. *)
Inductive status : Type :=
| Clear
| Flags (mentions_overflow : bool).

(** [self.stream]: an [sd.InputStream], created and perhaps started. *)
Inductive input_stream : Type :=
| Created
| Started.

(** What the audio device does when [start] opens a stream
    (lines 158-166). *)
Inductive device : Type :=
| OpenFails        (* sd.InputStream(...) raises *)
| StartFails       (* the stream is created, stream.start() raises *)
| Opens.

(** The attributes [__init__] sets.  [callback] and [asr] record whether
    a callback was given and whether Whisper was loaded. *)
Record t : Type := mk {
  sample_rate     : Z;
  chunk_size      : Z;
  vad_enabled     : bool;
  callback        : bool;
  is_running      : bool;
  stream          : option input_stream;
  audio_buffer    : list Audio;
  buffer_duration : Q;
  vad             : option StreamingVAD.t;
  asr             : bool
}.

(** [__init__], lines 32-69; [has_vad] and [has_whisper] are the module
    flags [HAS_VAD] and [HAS_WHISPER], [model_loaded] as in
    [StreamingVAD.init]. *)
Definition init (sample_rate : Z) (vad_enabled callback : bool)
           (has_vad has_whisper model_loaded : bool) : t :=
let chunk_size := if sample_rate =? 16000 then 512 else 256 in
{| sample_rate := sample_rate;
   chunk_size := chunk_size;
   vad_enabled := vad_enabled;
   callback := callback;
   is_running := false;
   stream := None;
   audio_buffer := [];
   buffer_duration := 3;
   vad := if vad_enabled && has_vad
          then Some (StreamingVAD.init (6 # 10) sample_rate chunk_size
                                       model_loaded)
          else None;
   asr := has_whisper |}.

Definition set_vad (self : t) (v : option StreamingVAD.t) : t :=
{| sample_rate := sample_rate self; chunk_size := chunk_size self;
   vad_enabled := vad_enabled self; callback := callback self;
   is_running := is_running self; stream := stream self;
   audio_buffer := audio_buffer self;
   buffer_duration := buffer_duration self;
   vad := v; asr := asr self |}.

Definition set_audio_buffer (self : t) (b : list Audio) : t :=
{| sample_rate := sample_rate self; chunk_size := chunk_size self;
   vad_enabled := vad_enabled self; callback := callback self;
   is_running := is_running self; stream := stream self;
   audio_buffer := b;
   buffer_duration := buffer_duration self;
   vad := vad self; asr := asr self |}.

Definition set_running (self : t) (b : bool) : t :=
{| sample_rate := sample_rate self; chunk_size := chunk_size self;
   vad_enabled := vad_enabled self; callback := callback self;
   is_running := b; stream := stream self;
   audio_buffer := audio_buffer self;
   buffer_duration := buffer_duration self;
   vad := vad self; asr := asr self |}.

Definition set_stream (self : t) (s : option input_stream) : t :=
{| sample_rate := sample_rate self; chunk_size := chunk_size self;
   vad_enabled := vad_enabled self; callback := callback self;
   is_running := is_running self; stream := s;
   audio_buffer := audio_buffer self;
   buffer_duration := buffer_duration self;
   vad := vad self; asr := asr self |}.

(** [if self.callback: self.callback(event, d)] *)
Definition notify (self : t) (event : String.string) (d : data)
  : list effect :=
if callback self then [Callback event d] else [].

(** [audio_level = np.abs(complete_audio).mean()], line 106, on the
    window as an array of 32-bit floats. *)
Definition audio_level (complete_audio : Audio) : Float.t :=
np.mean (np.abs (np.array complete_audio)).

(** [audio_level > 0.01], line 107: the 32-bit level against the double
    [0.01]. *)
Definition level_above (complete_audio : Audio) : bool :=
Float.gtb (audio_level complete_audio) (py_float (1 # 100)).

(** [_audio_callback], lines 71-120.  [audio_chunk] is [indata[:, 0]];
    [call] is what the classifier's model does if it is asked.  The
    division of line 97 raises for a zero sample rate, inside the [try],
    after the frame was appended. *)
Definition _audio_callback (self : t) (audio_chunk : Audio) (st : status)
           (call : SileroVAD.model_call) : t * list effect :=
match st with
| Flags true =>
    (self, [Log "warning" "Audio buffer overflow - skipping frame"])
| _ =>
    let warned :=
      match st with
      | Flags _ => [Log "warning" "Audio status"]
      | Clear => []
      end in
    match vad self with
    | Some v =>
        let '(v', (state, complete_audio)) :=
          StreamingVAD.process_chunk v call audio_chunk in
        (set_vad self (Some v'),
         warned ++
         match state, complete_audio with
         | StreamingVAD.ended, Some a => [Spawn a]
         | _, _ => []
         end)
    | None =>
        let buffered := audio_buffer self ++ [audio_chunk] in
        if sample_rate self =? 0 then
          (set_audio_buffer self buffered,
           warned ++ [Log "error" "Audio callback error"])
        else
          let buffer_duration' :=
            (inject_Z (len buffered * len audio_chunk)
             / inject_Z (sample_rate self))%Q in
          if Qle_bool (buffer_duration self) buffer_duration' then
            let complete_audio := StreamingVAD.concatenate buffered in
            (set_audio_buffer self [],
             warned ++
             (if level_above complete_audio
              then [Log "info" "Audio detected, processing";
                    Spawn complete_audio]
              else [Log "debug" "Silence detected, skipping"])
             ++ notify self "chunk" (Chunk audio_chunk))
          else
            (set_audio_buffer self buffered,
             warned ++ notify self "chunk" (Chunk audio_chunk))
    end
end.

(** [_process_audio], lines 122-144: the body of a transcription worker.
    [answer] is what the transcriber does if it is called.  The division
    of line 126 raises for a zero sample rate. *)
Definition _process_audio (self : t) (audio_data : Audio)
           (answer : transcription) : t * list effect * completion :=
let started := notify self "processing" NoData in
if sample_rate self =? 0 then (self, started, Raised)
else
  let started := started ++ [Log "info" "Processing speech"] in
  if asr self then
    match answer with
    | Throws => (self, started, Raised)
    | Returns r =>
        if success r && negb (len (text r) =? 0) then
          if len (strip (text r)) <? 2 then
            (self,
             started ++
             [Log "info" "Ignoring very short transcription (noise)"],
             Returned)
          else
            (self,
             started ++ notify self "result" (Result r)
             ++ [Log "info" "Transcription"],
             Returned)
        else
          (self,
           started ++ [Log "warning" "Transcription failed or empty"],
           Returned)
    end
  else
    (self, started ++ [Log "warning" "No ASR engine available"], Returned).

(** [start], lines 146-175.  [subscriptions] counts the started capture
    streams that deliver frames to this engine. *)
Definition start (self : t) (subscriptions : nat) (dev : device)
  : t * nat * list effect * completion :=
if is_running self then
  (self, subscriptions, [Log "warning" "Already running"], Returned)
else
  let self1 := set_running self true in
  let begun := [Log "info" "Starting streaming ASR..."] in
  match dev with
  | OpenFails =>
      (set_running self1 false, subscriptions,
       begun ++ [Log "error" "Failed to start stream"], Raised)
  | StartFails =>
      (set_running (set_stream self1 (Some Created)) false, subscriptions,
       begun ++ [Log "error" "Failed to start stream"], Raised)
  | Opens =>
      let self2 := set_stream self1 (Some Started) in
      (self2, S subscriptions,
       begun ++ [Log "info" "Streaming ASR started"]
       ++ notify self2 "started" NoData,
       Returned)
  end.

(** [stop], lines 177-192. *)
Definition stop (self : t) (subscriptions : nat)
  : t * nat * list effect * completion :=
if negb (is_running self) then (self, subscriptions, [], Returned)
else
  let self1 := set_running self false in
  let stopping := [Log "info" "Stopping streaming ASR..."] in
  let '(self2, subscriptions') :=
    match stream self1 with
    | Some Started => (set_stream self1 None, pred subscriptions)
    | Some Created => (set_stream self1 None, subscriptions)
    | None => (self1, subscriptions)
    end in
  (self2, subscriptions',
   stopping ++ [Log "info" "Streaming ASR stopped"]
   ++ notify self2 "stopped" NoData,
   Returned).

(** [is_active], lines 194-195. *)
Definition is_active (self : t) : bool := is_running self.

(** How often an event was raised through the callback. *)
Fixpoint raised (event : String.string) (es : list effect) : nat :=
match es with
| Callback e _ :: rest =>
    if String.eqb e event then S (raised event rest) else raised event rest
| _ :: rest => raised event rest
| [] => O
end.

(** The utterances handed to transcription workers. *)
Fixpoint dispatched (es : list effect) : list Audio :=
match es with
| Spawn a :: rest => a :: dispatched rest
| _ :: rest => dispatched rest
| [] => []
end.

(** The mean of the magnitudes of the samples of a window, as a rational
    number without rounding, is [m]. *)
Definition mean_abs_is (w : Audio) (m : Q) : Prop :=
exists m', mean (map Qabs w) = Some m' /\ (m' == m)%Q.

(** ** Concrete engines

    A running engine with a callback and a transcriber, in classifier
    mode; and an engine without classifier (fallback mode) at 8 samples
    per second, so that three frames of 8 samples fill the 3 s window. *)
Definition listening : t :=
set_stream (set_running (init 16000 true true true true true) true)
           (Some Started).

Definition fallback8 : t := init 8 false true true true true.

(** ** Streams of calls *)

(** One invocation of the capture callback by the audio device. *)
Record capture_event : Type := mk_capture_event {
  indata     : Audio;
  flags      : status;
  model_does : SileroVAD.model_call
}.

(** The device invoking [_audio_callback] once per event, in order. *)
Fixpoint capture (self : t) (events : list capture_event)
  : t * list effect :=
match events with
| [] => (self, [])
| e :: rest =>
    let '(self', es) :=
      _audio_callback self (indata e) (flags e) (model_does e) in
    let '(final, es') := capture self' rest in
    (final, es ++ es')
end.

(** An event whose status mentions 'overflow'. *)
Definition overflowed (e : capture_event) : bool :=
match flags e with
| Flags true => true
| _ => false
end.

(** The frames of a stream that were not dropped, as segmenter inputs. *)
Definition delivered (events : list capture_event)
  : list StreamingVAD.Input :=
map (fun e => (model_does e, indata e))
    (filter (fun e => negb (overflowed e)) events).

(** A caller's use of the lifecycle methods. *)
Inductive lifecycle_call : Type :=
| CallStart (dev : device)
| CallStop.

(** A sequence of [start] and [stop] calls; a call that raises leaves
    the caller free to go on. *)
Fixpoint lifecycle (self : t) (subscriptions : nat)
         (calls : list lifecycle_call) : t * nat * list effect :=
match calls with
| [] => (self, subscriptions, [])
| c :: rest =>
    let '(self', n, es, _) :=
      match c with
      | CallStart dev => start self subscriptions dev
      | CallStop => stop self subscriptions
      end in
    let '(final, n', es') := lifecycle self' n rest in
    (final, n', es ++ es')
end.

(** The bookkeeping of a session: the engine holds a subscription
    exactly when it is running, and then its stream is the started
    one. *)
Definition in_step (self : t) (subscriptions : nat) : Prop :=
subscriptions = (if is_running self then 1%nat else 0%nat) /\
(is_running self = true <-> stream self = Some Started).

(** The events raised through the callback, by name, in order. *)
Fixpoint event_names (es : list effect) : list String.string :=
match es with
| Callback e _ :: rest => e :: event_names rest
| _ :: rest => event_names rest
| [] => []
end.

End StreamingASR.

(* ================================================================== *)
(** * The transcriber: [WhisperASR]                                    *)
(* ================================================================== *)

Module WhisperASR.

(** [model] records whether [self.model] holds a loaded model. *)
Record t : Type := mk {
  model : bool
}.

(** What the work inside the [try] of [transcribe_audio] and
    [transcribe_file] does (the conversions, the resampling and
    [self.model.transcribe]): it raises, or Whisper yields a text. *)
Inductive whisper_call : Type :=
| Fails
| Transcribes (raw : pystr).

(** The dictionary returned from the [except] clauses, lines 120-127 and
    59-66. *)
Definition failure : StreamingASR.result :=
{| StreamingASR.text := [];
   StreamingASR.success := false;
   StreamingASR.latency := 0 |}.

(** [transcribe_audio], lines 68-127.  [elapsed] is the time the clock
    measured.  The check of lines 69-70 is outside the [try]; the
    division of line 88, inside it, raises for a zero sample rate. *)
Definition transcribe_audio (self : t) (audio_data : Audio)
           (sample_rate : Z) (call : whisper_call) (elapsed : Q)
  : StreamingASR.transcription :=
if negb (model self) then StreamingASR.Throws
else if sample_rate =? 0 then StreamingASR.Returns failure
else
  match call with
  | Fails => StreamingASR.Returns failure
  | Transcribes raw =>
      StreamingASR.Returns
        {| StreamingASR.text := strip raw;
           StreamingASR.success := true;
           StreamingASR.latency := elapsed |}
  end.

(** [transcribe_file], lines 33-66. *)
Definition transcribe_file (self : t) (call : whisper_call) (elapsed : Q)
  : StreamingASR.transcription :=
if negb (model self) then StreamingASR.Throws
else
  match call with
  | Fails => StreamingASR.Returns failure
  | Transcribes raw =>
      StreamingASR.Returns
        {| StreamingASR.text := strip raw;
           StreamingASR.success := true;
           StreamingASR.latency := elapsed |}
  end.

(** [transcribe_with_whisper], lines 129-143.  [loads] tells whether
    [WhisperASR(model_name=...)] could be constructed; [None] is Python's
    [None]. *)
Definition transcribe_with_whisper (loads : bool) (call : whisper_call)
           (elapsed : Q) : option pystr :=
if negb loads then None
else
  match transcribe_file (mk true) call elapsed with
  | StreamingASR.Throws => None
  | StreamingASR.Returns result =>
      if StreamingASR.success result
      then Some (StreamingASR.text result)
      else None
  end.

(** A transcription worker of an engine whose transcriber is [w]:
    [_process_audio] with line 130 calling [w.transcribe_audio]. *)
Definition worker (self : StreamingASR.t) (w : t) (audio_data : Audio)
           (call : whisper_call) (elapsed : Q)
  : StreamingASR.t * list StreamingASR.effect * StreamingASR.completion :=
StreamingASR._process_audio
  self audio_data
  (transcribe_audio w audio_data (StreamingASR.sample_rate self) call
                    elapsed).

End WhisperASR.

(* ================================================================== *)
(** * Properties of the segmenter                                      *)
(* ================================================================== *)

Ltac fields :=
  cbn [StreamingVAD.vad StreamingVAD.chunk_size StreamingVAD.is_speaking
       StreamingVAD.speech_buffer StreamingVAD.silence_chunks
       StreamingVAD.max_silence_chunks StreamingVAD.min_speech_chunks
       StreamingVAD.speech_chunks_count fst snd].

Ltac field_eq :=
  first [ reflexivity
        | unfold len; rewrite ?length_app; simpl length; lia
        | unfold StreamingVAD.frames_of, StreamingVAD.frame_of;
          rewrite ?map_app; simpl; rewrite <- ?app_assoc; reflexivity ].

Ltac state_eq := f_equal; try reflexivity; f_equal; field_eq.

Section SegmenterFacts.

Import StreamingVAD.

(** ** Runs *)

Lemma run_app (s : t) (h1 h2 : list Input) :
  run s (h1 ++ h2) =
  (fst (run (fst (run s h1)) h2),
   snd (run s h1) ++ snd (run (fst (run s h1)) h2)).
Proof.
  revert s. induction h1 as [|i h1 IH]; intros s; simpl.
  - destruct (run s h2); reflexivity.
  - destruct (process_chunk s (fst i) (snd i)) as [s' r].
    rewrite IH. destruct (run s' h1) as [s1 r1]. simpl.
    destruct (run s1 h2); reflexivity.
Qed.

Lemma after_app (s : t) (h1 h2 : list Input) :
  after s (h1 ++ h2) = after (after s h1) h2.
Proof. unfold after. rewrite run_app. reflexivity. Qed.

Lemma after_snoc (s : t) (h : list Input) (i : Input) :
  after s (h ++ [i]) = fst (process_chunk (after s h) (fst i) (snd i)).
Proof.
  rewrite after_app. unfold after at 1. simpl.
  destruct (process_chunk (after s h) (fst i) (snd i)); reflexivity.
Qed.

Lemma utterances_app (r1 r2 : list (label * option Audio)) :
  utterances (r1 ++ r2) = utterances r1 ++ utterances r2.
Proof.
  induction r1 as [|[l [a|]] r1 IH]; simpl; auto; destruct l; simpl;
    rewrite ?IH; reflexivity.
Qed.

(** ** What one call leaves alone *)

Lemma on_verdict_config (s : t) (v : bool) (f : Audio) :
  let s' := fst (on_verdict s v f) in
  vad s' = vad s /\ chunk_size s' = chunk_size s /\
  max_silence_chunks s' = max_silence_chunks s /\
  min_speech_chunks s' = min_speech_chunks s.
Proof.
  unfold on_verdict.
  destruct v, (is_speaking s); simpl; auto;
    destruct (_ >=? _); simpl; auto; destruct (_ <? _); simpl; auto.
Qed.

Lemma after_config (s : t) (h : list Input) :
  vad (after s h) = vad s /\ chunk_size (after s h) = chunk_size s /\
  max_silence_chunks (after s h) = max_silence_chunks s /\
  min_speech_chunks (after s h) = min_speech_chunks s.
Proof.
  induction h as [|i h IH] using rev_ind.
  - unfold after; simpl; auto.
  - rewrite after_snoc. unfold process_chunk.
    destruct (on_verdict_config (after s h)
                (SileroVAD.is_speech (vad (after s h)) (fst i) (snd i))
                (snd i)) as (H1 & H2 & H3 & H4).
    destruct IH as (I1 & I2 & I3 & I4).
    repeat split; congruence.
Qed.

(** ** The state invariant *)

Lemma len_snoc {A : Type} (l : list A) (x : A) : len (l ++ [x]) = len l + 1.
Proof. unfold len. rewrite length_app. simpl. lia. Qed.

Lemma len_nonneg {A : Type} (l : list A) : 0 <= len l.
Proof. unfold len. lia. Qed.

Lemma on_verdict_tidy (s : t) (v : bool) (f : Audio) :
  0 < max_silence_chunks s -> tidy s -> tidy (fst (on_verdict s v f)).
Proof.
  intros Hmax [Hidle Hspk]. unfold on_verdict, tidy.
  destruct v.
  - destruct (is_speaking s) eqn:E; simpl; rewrite ?E; split; intros H;
      try discriminate; rewrite len_snoc.
    + destruct (Hspk eq_refl). lia.
    + pose proof (len_nonneg (speech_buffer s)). lia.
  - destruct (is_speaking s) eqn:E; simpl.
    + destruct (Z.geb_spec (silence_chunks s + 1) (max_silence_chunks s)).
      * destruct (_ <? _); simpl; split; intros K; try discriminate; auto.
      * simpl; split; intros K; try discriminate.
        rewrite len_snoc. destruct (Hspk eq_refl). lia.
    + rewrite E. split; intros K; try discriminate. auto.
Qed.

Lemma init_tidy (th : Q) (sr cs : Z) (ml : bool) : tidy (init th sr cs ml).
Proof. split; simpl; intros H; [auto | discriminate]. Qed.

Lemma after_init_tidy (th : Q) (sr cs : Z) (ml : bool) (h : list Input) :
  tidy (after (init th sr cs ml) h).
Proof.
  induction h as [|i h IH] using rev_ind.
  - apply init_tidy.
  - rewrite after_snoc. unfold process_chunk. apply on_verdict_tidy; auto.
    destruct (after_config (init th sr cs ml) h) as (_ & _ & -> & _).
    simpl. lia.
Qed.

(** ** Measures of a stretch that grows by one frame *)

Lemma speech_count_snoc (c : SileroVAD.t) (seg : list Input) (i : Input) :
  speech_count c (seg ++ [i]) =
  (speech_count c seg + (if verdict c i then 1 else 0))%nat.
Proof.
  unfold speech_count. rewrite filter_app, length_app. simpl.
  destruct (verdict c i); reflexivity.
Qed.

Lemma trailing_silence_snoc (c : SileroVAD.t) (seg : list Input) (i : Input) :
  trailing_silence c (seg ++ [i]) =
  if verdict c i then O else S (trailing_silence c seg).
Proof. unfold trailing_silence. rewrite rev_unit. reflexivity. Qed.

Lemma frames_of_snoc (seg : list Input) (i : Input) :
  frames_of (seg ++ [i]) = frames_of seg ++ [snd i].
Proof. unfold frames_of. rewrite map_app. reflexivity. Qed.

(** The silence run that ends a stretch, cut off. *)
Lemma trailing_silence_split (c : SileroVAD.t) (seg : list Input) :
  exists body tail,
    seg = body ++ tail /\ length tail = trailing_silence c seg /\
    all_classified c false tail.
Proof.
  induction seg as [|i seg IH] using rev_ind.
  - exists [], []. repeat split. constructor.
  - rewrite trailing_silence_snoc. destruct (verdict c i) eqn:V.
    + exists (seg ++ [i]), []. rewrite app_nil_r. repeat split. constructor.
    + destruct IH as (body & tail & -> & Hlen & Hall).
      exists body, (tail ++ [i]). rewrite app_assoc. repeat split.
      * rewrite length_app. simpl. lia.
      * apply Forall_app. split; [exact Hall | constructor; auto].
Qed.

(** ** The stretch since onset *)

Lemma snoc_split {A : Type} (l l1 l2 : list A) (x : A) :
  l ++ [x] = l1 ++ l2 -> l2 <> [] ->
  exists l2', l2 = l2' ++ [x] /\ l = l1 ++ l2'.
Proof.
  intros E Hne. destruct (exists_last Hne) as (l2' & y & ->).
  rewrite app_assoc in E. apply app_inj_tail in E. destruct E as [-> ->].
  exists l2'. split; reflexivity.
Qed.

Lemma since_onset_start (s0 : t) (h : list Input) (i : Input) :
  is_speaking (after s0 h) = false -> verdict (vad s0) i = true ->
  since_onset s0 (h ++ [i]) h [i].
Proof.
  intros Hidle V. repeat split; auto.
  - exists i, []. auto.
  - intros seg1 seg2 E H1 H2. destruct seg1 as [|x seg1]; [congruence|].
    destruct seg1; destruct seg2; simpl in E; congruence.
Qed.

Lemma since_onset_snoc (s0 : t) (h pre seg : list Input) (i : Input) :
  since_onset s0 h pre seg -> is_speaking (after s0 h) = true ->
  since_onset s0 (h ++ [i]) pre (seg ++ [i]).
Proof.
  intros (-> & Hidle & (i0 & rest & -> & V) & Hin) Hspk. repeat split; auto.
  - rewrite app_assoc. reflexivity.
  - exists i0, (rest ++ [i]). auto.
  - intros seg1 seg2 E H1 H2.
    destruct (snoc_split _ _ _ _ E H2) as (seg2' & -> & E').
    destruct seg2' as [|y seg2'].
    + rewrite app_nil_r in E'. rewrite <- E'. exact Hspk.
    + apply (Hin seg1 (y :: seg2')); auto. discriminate.
Qed.

(** While the segmenter is in Speaking, its buffer and counters describe
    the stretch of input since onset. *)
Lemma speaking_stretch (th : Q) (sr cs : Z) (ml : bool) (h : list Input) :
  let s0 := init th sr cs ml in
  is_speaking (after s0 h) = true ->
  exists pre seg,
    since_onset s0 h pre seg /\
    speech_buffer (after s0 h) = frames_of seg /\
    speech_chunks_count (after s0 h) = Z.of_nat (speech_count (vad s0) seg) /\
    silence_chunks (after s0 h) = Z.of_nat (trailing_silence (vad s0) seg).
Proof.
  intros s0.
  assert (I0 : is_speaking s0 = false) by reflexivity.
  assert (T : forall h, tidy (after s0 h)) by apply after_init_tidy.
  clearbody s0. induction h as [|i h IH] using rev_ind.
  - unfold after; simpl. congruence.
  - rewrite after_snoc. unfold process_chunk.
    destruct (T h) as [Tidle Tspk].
    destruct (after_config s0 h) as (Hvad & _ & _ & _).
    rewrite Hvad. fold (verdict (vad s0) i).
    destruct (verdict (vad s0) i) eqn:V; unfold on_verdict;
      destruct (is_speaking (after s0 h)) eqn:E; simpl.
    + intros _. destruct (IH eq_refl) as (pre & seg & Hso & Hb & Hc & Hs).
      exists pre, (seg ++ [i]). split; [|split; [|split]].
      * apply since_onset_snoc; auto.
      * rewrite frames_of_snoc, Hb. reflexivity.
      * rewrite speech_count_snoc, V, Hc. lia.
      * rewrite trailing_silence_snoc, V. reflexivity.
    + intros _. destruct (Tidle eq_refl) as (Hb & _ & _).
      exists h, [i]. split; [|split; [|split]].
      * apply since_onset_start; auto.
      * rewrite Hb. reflexivity.
      * unfold speech_count. simpl. rewrite V. reflexivity.
      * unfold trailing_silence. simpl. rewrite V. reflexivity.
    + destruct (_ >=? _).
      * destruct (_ <? _); simpl; discriminate.
      * simpl. intros _.
        destruct (IH eq_refl) as (pre & seg & Hso & Hb & Hc & Hs).
        exists pre, (seg ++ [i]). split; [|split; [|split]].
        -- apply since_onset_snoc; auto.
        -- rewrite frames_of_snoc, Hb. reflexivity.
        -- rewrite speech_count_snoc, V, Hc. f_equal. lia.
        -- rewrite trailing_silence_snoc, V, Hs. lia.
    + rewrite E. discriminate.
Qed.

(** Whenever a call hands back a buffer, the label is 'ended', the
    buffer is the whole stretch since onset, that stretch has at least 22
    frames classified as speech, and it ends in a silence run of 13. *)
Lemma emitted_stretch (th : Q) (sr cs : Z) (ml : bool) (h : list Input)
      (call : SileroVAD.model_call) (f a : Audio) (lab : label) :
  let s0 := init th sr cs ml in
  snd (process_chunk (after s0 h) call f) = (lab, Some a) ->
  lab = ended /\
  exists pre seg,
    since_onset s0 (h ++ [(call, f)]) pre seg /\
    a = concatenate (frames_of seg) /\
    (22 <= speech_count (vad s0) seg)%nat /\
    trailing_silence (vad s0) seg = 13%nat /\
    speech_chunks_count (after s0 h) = Z.of_nat (speech_count (vad s0) seg) /\
    silence_chunks (after s0 h) + 1 =
    Z.of_nat (trailing_silence (vad s0) seg).
Proof.
  intros s0. unfold process_chunk.
  pose proof (after_init_tidy th sr cs ml h) as [_ Tspk]. fold s0 in Tspk.
  pose proof (speaking_stretch th sr cs ml h) as Hstretch. fold s0 in Hstretch.
  destruct (after_config s0 h) as (Hvad & _ & Hmax & Hmin).
  change (max_silence_chunks s0) with 13 in Hmax.
  change (min_speech_chunks s0) with 22 in Hmin.
  clearbody s0. rewrite Hvad. change (SileroVAD.is_speech (vad s0) call f)
    with (verdict (vad s0) (call, f)).
  destruct (verdict (vad s0) (call, f)) eqn:V; unfold on_verdict;
    [simpl; discriminate|].
  destruct (is_speaking (after s0 h)) eqn:E; [|simpl; discriminate].
  destruct (Hstretch E) as (pre & seg & Hso & Hb & Hc & Hs).
  destruct (Tspk eq_refl) as [Hlt _].
  simpl. rewrite Hmax, Hmin.
  destruct (Z.geb_spec (silence_chunks (after s0 h) + 1) 13) as [Hge|];
    [|simpl; discriminate].
  destruct (Z.ltb_spec (speech_chunks_count (after s0 h)) 22) as [|Hcnt];
    simpl; [discriminate|].
  intros K. injection K as <- <-. split; [reflexivity|].
  exists pre, (seg ++ [(call, f)]).
  rewrite speech_count_snoc, trailing_silence_snoc, V.
  rewrite Hmax in Hlt.
  split; [apply since_onset_snoc; auto|].
  split; [rewrite frames_of_snoc, Hb; reflexivity|].
  repeat split; lia.
Qed.

(** ** Runs of frames that are classified alike *)

Lemma run_idle_silence (s : t) (si : list Input) :
  is_speaking s = false -> all_classified (vad s) false si ->
  run s si = (s, map (fun _ => (silence, None)) si).
Proof.
  intros Hidle Hall. induction Hall as [|i si V _ IH]; [reflexivity|].
  simpl. unfold process_chunk. unfold verdict in V. rewrite V.
  unfold on_verdict. rewrite Hidle, IH. reflexivity.
Qed.

Lemma run_speech_on (s : t) (sp : list Input) :
  is_speaking s = true -> silence_chunks s = 0 ->
  all_classified (vad s) true sp ->
  run s sp =
  (mk (vad s) (chunk_size s) true (speech_buffer s ++ frames_of sp) 0
      (max_silence_chunks s) (min_speech_chunks s)
      (speech_chunks_count s + len sp),
   map (fun _ => (speaking, None)) sp).
Proof.
  intros Hspk Hsil Hall. revert s Hspk Hsil Hall.
  induction sp as [|i sp IH]; intros s Hspk Hsil Hall.
  - destruct s; cbn in *. subst. rewrite app_nil_r.
    unfold len; simpl. rewrite Z.add_0_r. reflexivity.
  - pose proof (Forall_inv Hall) as V. cbn in V. unfold verdict in V.
    pose proof (Forall_inv_tail Hall) as Hall'.
    cbn [run]. unfold process_chunk. rewrite V.
    unfold on_verdict. rewrite Hspk. cbn [negb]. rewrite Hspk.
    rewrite IH; auto. fields. state_eq.
Qed.

Lemma run_silence_on (s : t) (si : list Input) :
  is_speaking s = true ->
  silence_chunks s + len si < max_silence_chunks s ->
  all_classified (vad s) false si ->
  run s si =
  (mk (vad s) (chunk_size s) true (speech_buffer s ++ frames_of si)
      (silence_chunks s + len si)
      (max_silence_chunks s) (min_speech_chunks s) (speech_chunks_count s),
   map (fun _ => (speaking, None)) si).
Proof.
  intros Hspk Hlt Hall. revert s Hspk Hlt Hall.
  induction si as [|i si IH]; intros s Hspk Hlt Hall.
  - destruct s; cbn in *. subst. rewrite app_nil_r.
    unfold len; simpl. rewrite Z.add_0_r. reflexivity.
  - pose proof (Forall_inv Hall) as V. cbn in V. unfold verdict in V.
    pose proof (Forall_inv_tail Hall) as Hall'.
    unfold len in Hlt. simpl length in Hlt. rewrite Nat2Z.inj_succ in Hlt.
    cbn [run]. unfold process_chunk. rewrite V.
    unfold on_verdict. rewrite Hspk. fields.
    destruct (Z.geb_spec (silence_chunks s + 1) (max_silence_chunks s));
      [lia|].
    rewrite IH; auto; fields; [|unfold len; lia]. state_eq.
Qed.

Lemma run_from_idle_speech (s : t) (sp : list Input) :
  is_speaking s = false -> speech_buffer s = [] -> sp <> [] ->
  all_classified (vad s) true sp ->
  run s sp =
  (mk (vad s) (chunk_size s) true (frames_of sp) 0
      (max_silence_chunks s) (min_speech_chunks s) (len sp),
   map (fun _ => (speaking, None)) sp).
Proof.
  intros Hidle Hbuf Hne Hall. destruct sp as [|i sp]; [congruence|].
  pose proof (Forall_inv Hall) as V. cbn in V. unfold verdict in V.
  pose proof (Forall_inv_tail Hall) as Hall'.
  cbn [run]. unfold process_chunk. rewrite V. unfold on_verdict.
  rewrite Hidle, Hbuf. cbn [negb]. fields.
  rewrite run_speech_on by auto. fields. state_eq.
Qed.

(** A burst of speech closed by a long enough silence: [n >= 22] frames
    of speech and then at least 13 of silence give one utterance, made of
    the speech frames and the first 13 silence frames; the segmenter is
    back in its initial state. *)
Lemma speech_then_silence (th : Q) (sr cs : Z) (ml : bool)
      (sp si : list Input) :
  let s0 := init th sr cs ml in
  (22 <= length sp)%nat -> (13 <= length si)%nat ->
  all_classified (vad s0) true sp -> all_classified (vad s0) false si ->
  run s0 (sp ++ si) =
  (s0,
   map (fun _ => (speaking, None)) (sp ++ firstn 12 si)
   ++ [(ended, Some (concatenate (frames_of (sp ++ firstn 13 si))))]
   ++ map (fun _ => (silence, None)) (skipn 13 si)).
Proof.
  intros s0 Hsp Hsi Asp Asi.
  destruct sp as [|i0 sp]; [simpl in Hsp; lia|].
  pose proof (Forall_inv Asp) as V0. cbv beta in V0.
  pose proof (Forall_inv_tail Asp) as Asp'.
  rewrite <- (firstn_skipn 12 si) at 1.
  assert (L12 : length (firstn 12 si) = 12%nat) by (rewrite length_firstn; lia).
  destruct (skipn 12 si) as [|x tl] eqn:Etl.
  { pose proof (length_skipn 12 si) as K. rewrite Etl in K. simpl in K. lia. }
  assert (E13 : firstn 13 si = firstn 12 si ++ [x]).
  { rewrite <- (firstn_skipn 12 si) at 1. rewrite Etl.
    rewrite firstn_app, L12. rewrite firstn_all2 by lia. reflexivity. }
  assert (S13 : skipn 13 si = tl).
  { rewrite <- (firstn_skipn 12 si) at 1. rewrite Etl.
    rewrite skipn_app, L12. rewrite skipn_all2 by lia. reflexivity. }
  assert (A12 : all_classified (vad s0) false (firstn 12 si)).
  { unfold all_classified. rewrite <- (firstn_skipn 12 si) in Asi.
    apply Forall_app in Asi. tauto. }
  assert (Atl : all_classified (vad s0) false (x :: tl)).
  { unfold all_classified. rewrite <- (firstn_skipn 12 si), Etl in Asi.
    apply Forall_app in Asi. tauto. }
  pose proof (Forall_inv Atl) as Vx. cbv beta in Vx.
  pose proof (Forall_inv_tail Atl) as Atl'.
  rewrite E13, S13.
  assert (Hmax : max_silence_chunks s0 = 13) by reflexivity.
  assert (Hmin : min_speech_chunks s0 = 22) by reflexivity.
  assert (R1 := run_from_idle_speech s0 (i0 :: sp) eq_refl eq_refl
                  ltac:(discriminate) Asp).
  assert (R4 := run_idle_silence s0 tl eq_refl Atl').
  assert (Es0 : mk (vad s0) (chunk_size s0) false [] 0
                   (max_silence_chunks s0) (min_speech_chunks s0) 0 = s0)
    by reflexivity.
  clearbody s0.
  pose (st := fun spk buf sil cnt =>
          mk (vad s0) (chunk_size s0) spk buf sil
             (max_silence_chunks s0) (min_speech_chunks s0) cnt).
  change (run s0 (i0 :: sp) =
          (st true (frames_of (i0 :: sp)) 0 (len (i0 :: sp)),
           map (fun _ => (speaking, None)) (i0 :: sp))) in R1.
  change (st false [] 0 0 = s0) in Es0.
  assert (R2 : run (st true (frames_of (i0 :: sp)) 0 (len (i0 :: sp)))
                   (firstn 12 si) =
               (st true (frames_of ((i0 :: sp) ++ firstn 12 si)) 12
                   (len (i0 :: sp)),
                map (fun _ => (speaking, None)) (firstn 12 si))).
  { rewrite run_silence_on; unfold st; fields; auto;
      [|unfold len; rewrite L12; lia].
    f_equal. f_equal; [|unfold len; rewrite L12; lia].
    unfold frames_of. rewrite map_app. reflexivity. }
  assert (R3 : run (st true (frames_of ((i0 :: sp) ++ firstn 12 si)) 12
                       (len (i0 :: sp))) [x] =
               (st false [] 0 0,
                [(ended,
                  Some (concatenate
                          (frames_of ((i0 :: sp) ++ firstn 12 si ++ [x]))))])).
  { cbn [run]. unfold process_chunk, st. fields.
    unfold verdict in Vx. rewrite Vx. unfold on_verdict. fields.
    rewrite Hmax, Hmin.
    destruct (Z.geb_spec (12 + 1) 13); [|lia].
    destruct (Z.ltb_spec (len (i0 :: sp)) 22);
      [unfold len in *; lia|].
    do 4 f_equal. unfold frames_of. rewrite !map_app.
    rewrite <- !app_assoc. reflexivity. }
  change (x :: tl) with ([x] ++ tl).
  rewrite run_app, R1. cbn [fst snd].
  rewrite run_app, R2. cbn [fst snd].
  rewrite run_app, R3. cbn [fst snd].
  rewrite Es0, R4. cbn [fst snd].
  f_equal. rewrite map_app, <- !app_assoc. reflexivity.
Qed.

End SegmenterFacts.

(* ================================================================== *)
(** * The segmenter's claims                                           *)
(* ================================================================== *)

Section SegmenterClaims.

Import StreamingVAD.

Lemma utterances_none (l : label) {A : Type} (xs : list A) :
  utterances (map (fun _ => (l, None)) xs) = [].
Proof. induction xs; simpl; auto. destruct l; auto. Qed.

Lemma utterances_one (a : Audio) : utterances [(ended, Some a)] = [a].
Proof. reflexivity. Qed.

Lemma singleton_inj {A : Type} (x y : A) : [x] = [y] -> x = y.
Proof. intros E. injection E as E. exact E. Qed.

Lemma len_concatenate_uniform (n : nat) (l : list Audio) :
  Forall (fun f => length f = n) l ->
  len (concatenate l) = Z.of_nat (length l) * Z.of_nat n.
Proof.
  unfold len, concatenate. induction 1 as [|f l Hf _ IH]; [reflexivity|].
  cbn [List.concat length]. rewrite length_app, Hf. lia.
Qed.

Lemma all_classified_repeat (c : SileroVAD.t) (b : bool) (i : Input)
      (n : nat) :
  verdict c i = b -> all_classified c b (repeat i n).
Proof.
  intros V. apply Forall_forall. intros x Hx.
  apply repeat_spec in Hx. rewrite Hx. exact V.
Qed.

(** A noise burst: 5 frames of speech and 14 of silence give no
    utterance and leave the segmenter as it started. *)
Example noise_burst_discarded :
  utterances (snd (run session (repeat loud_pair 5 ++ repeat quiet_pair 14)))
  = [] /\
  after session (repeat loud_pair 5 ++ repeat quiet_pair 14) = session.
Proof. split; vm_compute; reflexivity. Qed.

(** Two bursts in one stream give two utterances, in order. *)
Example two_utterances :
  map (@length Q)
      (utterances
         (snd (run session
                   (repeat loud_pair 22 ++ repeat quiet_pair 13 ++
                    repeat quiet_pair 3 ++
                    repeat loud_pair 30 ++ repeat quiet_pair 5 ++
                    repeat loud_pair 1 ++ repeat quiet_pair 13))))
  = [70%nat; 98%nat].
Proof. vm_compute. reflexivity. Qed.

(** In classifier mode the engine starts a transcription worker only on
    a buffer that the segmenter handed back with 'ended'. *)
Lemma vad_mode_dispatch (eng : StreamingASR.t) (v : t) (f a : Audio)
      (st : StreamingASR.status) (call : SileroVAD.model_call) :
  StreamingASR.vad eng = Some v ->
  In a (StreamingASR.dispatched
          (snd (StreamingASR._audio_callback eng f st call))) ->
  snd (process_chunk v call f) = (ended, Some a).
Proof.
  intros Hv. unfold StreamingASR._audio_callback. rewrite Hv.
  destruct (process_chunk v call f) as [v' [lab [a'|]]];
    destruct st as [|[|]]; destruct lab; simpl; intros K;
    try contradiction; destruct K as [<-|[]]; reflexivity.
Qed.

(** C1.  An utterance is emitted only after enough speech and a full
    silence run.  Whenever [process_chunk] hands back a buffer, or the
    engine running this segmenter starts a transcription worker on one,
    the call returned 'ended'; the stretch of input since the
    Idle-to-Speaking transition holds at least [min_speech_chunks] (22)
    frames classified as speech, which is what the speech counter held;
    and the stretch ends in a run of silence-classified frames that has
    reached [max_silence_chunks] (13). *)
Theorem C1_emitted_only_after_speech_and_silence :
  forall (th : Q) (sr cs : Z) (ml : bool) (h : list Input)
         (call : SileroVAD.model_call) (f a : Audio),
    let s0 := init th sr cs ml in
    (snd (snd (process_chunk (after s0 h) call f)) = Some a \/
     exists eng st,
       StreamingASR.vad eng = Some (after s0 h) /\
       In a (StreamingASR.dispatched
               (snd (StreamingASR._audio_callback eng f st call)))) ->
    snd (process_chunk (after s0 h) call f) = (ended, Some a) /\
    min_speech_chunks s0 <= speech_chunks_count (after s0 h) /\
    exists pre seg,
      since_onset s0 (h ++ [(call, f)]) pre seg /\
      speech_chunks_count (after s0 h) =
      Z.of_nat (speech_count (vad s0) seg) /\
      min_speech_chunks s0 <= Z.of_nat (speech_count (vad s0) seg) /\
      max_silence_chunks s0 <= Z.of_nat (trailing_silence (vad s0) seg).
Proof.
  intros th sr cs ml h call f a s0 H.
  assert (E : exists lab, snd (process_chunk (after s0 h) call f)
                          = (lab, Some a)).
  { destruct H as [H | (eng & st & Hv & Hin)].
    - destruct (snd (process_chunk (after s0 h) call f)) as [lab o].
      simpl in H. subst. eauto.
    - exists ended. eapply vad_mode_dispatch; eauto. }
  destruct E as [lab E].
  destruct (emitted_stretch th sr cs ml h call f a lab E)
    as (-> & pre & seg & Hso & _ & Hcnt & Hsil & Hc & _).
  fold s0 in Hso, Hcnt, Hsil, Hc.
  split; [exact E|]. change (min_speech_chunks s0) with 22.
  change (max_silence_chunks s0) with 13.
  split; [lia|]. exists pre, seg. repeat split; try lia; apply Hso.
Qed.

(** C1 at 25 frames of speech and 12 of silence, on the 13th silent
    frame. *)
Lemma C1_witness :
  let h := repeat loud_pair 25 ++ repeat quiet_pair 12 in
  let a := concatenate (frames_of (h ++ [quiet_pair])) in
  (snd (snd (process_chunk (after session h) (fst quiet_pair)
                           (snd quiet_pair))) = Some a \/
   exists eng st,
     StreamingASR.vad eng = Some (after session h) /\
     In a (StreamingASR.dispatched
             (snd (StreamingASR._audio_callback eng (snd quiet_pair) st
                                                (fst quiet_pair))))) /\
  snd (process_chunk (after session h) (fst quiet_pair) (snd quiet_pair))
  = (ended, Some a).
Proof.
  intros h a.
  assert (H : snd (snd (process_chunk (after session h) (fst quiet_pair)
                                      (snd quiet_pair))) = Some a)
    by (vm_compute; reflexivity).
  split; [left; exact H|].
  exact (proj1 (C1_emitted_only_after_speech_and_silence
                  (6 # 10) 16000 512 true h (fst quiet_pair)
                  (snd quiet_pair) a (or_introl H))).
Defined.

(** C2, as the code has it.  From the initial state, 25 frames
    classified as speech followed by 14 classified as silence give
    exactly one utterance; it is made of 38 frames, the 25 speech frames
    and the first 13 silence frames, since the 13th silent frame closes
    it; the 14th is dropped in Idle, and the segmenter ends in its
    initial (Idle, empty) state. *)
Theorem C2_25_speech_14_silence_one_utterance_of_38 :
  forall (th : Q) (sr cs : Z) (ml : bool) (sp si : list Input),
    let s0 := init th sr cs ml in
    length sp = 25%nat -> length si = 14%nat ->
    all_classified (vad s0) true sp -> all_classified (vad s0) false si ->
    utterances (snd (run s0 (sp ++ si))) =
    [concatenate (frames_of sp ++ frames_of (firstn 13 si))] /\
    length (frames_of sp ++ frames_of (firstn 13 si)) = 38%nat /\
    after s0 (sp ++ si) = s0 /\
    is_speaking (after s0 (sp ++ si)) = false /\
    speech_buffer (after s0 (sp ++ si)) = [].
Proof.
  intros th sr cs ml sp si s0 Lsp Lsi Asp Asi.
  pose proof (speech_then_silence th sr cs ml sp si) as R.
  fold s0 in R. cbv zeta in R.
  specialize (R ltac:(lia) ltac:(lia) Asp Asi).
  unfold after. rewrite R. cbn [fst snd].
  rewrite !utterances_app, !utterances_none, utterances_one.
  rewrite app_nil_r. change ([] ++ ?x) with x.
  unfold frames_of. rewrite map_app, length_app, !length_map.
  rewrite length_firstn, Lsp, Lsi. repeat split.
Qed.

(** C2's theorem at 25 loud and 14 quiet frames of 512 samples. *)
Lemma C2_witness :
  let sp := repeat loud_frame 25 in
  let si := repeat quiet_frame 14 in
  (length sp = 25%nat /\ length si = 14%nat /\
   all_classified (vad session) true sp /\
   all_classified (vad session) false si) /\
  utterances (snd (run session (sp ++ si))) =
  [concatenate (frames_of sp ++ frames_of (firstn 13 si))].
Proof.
  intros sp si.
  assert (Asp : all_classified (vad session) true sp)
    by (apply all_classified_repeat; reflexivity).
  assert (Asi : all_classified (vad session) false si)
    by (apply all_classified_repeat; reflexivity).
  split; [repeat split; assumption|].
  exact (proj1 (C2_25_speech_14_silence_one_utterance_of_38
                  (6 # 10) 16000 512 true sp si eq_refl eq_refl Asp Asi)).
Defined.

(** C2 as stated fails: on 25 loud and 14 quiet frames of 512 samples
    there is no single utterance of 39 frames (39 * 512 samples); the one
    utterance has 38 * 512 samples. *)
Lemma C2_counterexample :
  ~ (exists u,
       utterances
         (snd (run session (repeat loud_frame 25 ++ repeat quiet_frame 14)))
       = [u] /\
       len u = 39 * 512).
Proof.
  intros (u & E & L).
  pose proof (speech_then_silence (6 # 10) 16000 512 true
                (repeat loud_frame 25) (repeat quiet_frame 14)) as R.
  cbv zeta in R. fold session in R.
  assert (F1 : Forall (fun i => length (frame_of i) = 512%nat)
                      (repeat loud_frame 25)).
  { apply Forall_forall. intros x Hx. apply repeat_spec in Hx.
    rewrite Hx. apply repeat_length. }
  assert (F2 : Forall (fun i => length (frame_of i) = 512%nat)
                      (repeat quiet_frame 14)).
  { apply Forall_forall. intros x Hx. apply repeat_spec in Hx.
    rewrite Hx. apply repeat_length. }
  assert (L1 : length (repeat loud_frame 25) = 25%nat)
    by apply repeat_length.
  assert (L2 : length (repeat quiet_frame 14) = 14%nat)
    by apply repeat_length.
  assert (A1 : all_classified (vad session) true (repeat loud_frame 25))
    by (apply all_classified_repeat; reflexivity).
  assert (A2 : all_classified (vad session) false (repeat quiet_frame 14))
    by (apply all_classified_repeat; reflexivity).
  revert E R F1 F2 L1 L2 A1 A2.
  generalize (repeat loud_frame 25) as sp.
  generalize (repeat quiet_frame 14) as si.
  intros si sp E R F1 F2 L1 L2 A1 A2.
  rewrite R in E by (auto; lia). cbn [fst snd] in E.
  rewrite !utterances_app, !utterances_none, utterances_one in E.
  rewrite app_nil_r in E. apply singleton_inj in E.
  rewrite <- E in L.
  rewrite (len_concatenate_uniform 512) in L.
  - unfold frames_of in L.
    rewrite length_map, length_app, length_firstn, L1, L2 in L.
    simpl Nat.min in L. lia.
  - unfold frames_of. apply Forall_map, Forall_app. split; [exact F1|].
    rewrite <- (firstn_skipn 13 si) in F2. apply Forall_app in F2. tauto.
Qed.

(** C3.  An emitted utterance is the concatenation, in order, of every
    frame since the Idle-to-Speaking transition that started it; the
    stretch ends in [max_silence_chunks] (13) frames classified as
    silence, and they are part of the utterance. *)
Theorem C3_utterance_is_whole_stretch_since_onset :
  forall (th : Q) (sr cs : Z) (ml : bool) (h : list Input)
         (call : SileroVAD.model_call) (f a : Audio),
    let s0 := init th sr cs ml in
    snd (process_chunk (after s0 h) call f) = (ended, Some a) ->
    exists pre seg body tail,
      since_onset s0 (h ++ [(call, f)]) pre seg /\
      a = concatenate (frames_of seg) /\
      seg = body ++ tail /\
      len tail = max_silence_chunks s0 /\
      all_classified (vad s0) false tail /\
      a = concatenate (frames_of body) ++ concatenate (frames_of tail).
Proof.
  intros th sr cs ml h call f a s0 E.
  destruct (emitted_stretch th sr cs ml h call f a ended E)
    as (_ & pre & seg & Hso & Ha & _ & Hsil & _).
  fold s0 in Hso, Hsil.
  destruct (trailing_silence_split (vad s0) seg)
    as (body & tail & Hseg & Hlen & Hall).
  exists pre, seg, body, tail. repeat split; auto; try apply Hso.
  - unfold len. rewrite Hlen, Hsil. reflexivity.
  - rewrite Ha, Hseg. unfold concatenate, frames_of.
    rewrite map_app, concat_app. reflexivity.
Qed.

(** C3 at 25 frames of speech and 12 of silence, on the 13th silent
    frame. *)
Lemma C3_witness :
  let h := repeat loud_pair 25 ++ repeat quiet_pair 12 in
  let a := concatenate (frames_of (h ++ [quiet_pair])) in
  snd (process_chunk (after session h) (fst quiet_pair) (snd quiet_pair))
  = (ended, Some a) /\
  exists pre seg body tail,
    since_onset session (h ++ [quiet_pair]) pre seg /\
    a = concatenate (frames_of seg) /\
    seg = body ++ tail /\
    len tail = 13 /\
    all_classified (vad session) false tail /\
    a = concatenate (frames_of body) ++ concatenate (frames_of tail).
Proof.
  intros h a.
  assert (H : snd (process_chunk (after session h) (fst quiet_pair)
                                 (snd quiet_pair)) = (ended, Some a))
    by (vm_compute; reflexivity).
  split; [exact H|].
  exact (C3_utterance_is_whole_stretch_since_onset
           (6 # 10) 16000 512 true h (fst quiet_pair) (snd quiet_pair)
           a H).
Defined.

(** C6.  After a call that emits an utterance, or that discards the
    buffer as a noise burst (the segmenter was in Speaking and the call
    returned 'silence'), the segmenter is Idle with an empty buffer and
    both counters at zero.  This holds from any state. *)
Theorem C6_reset_after_emission_or_discard :
  forall (s : t) (call : SileroVAD.model_call) (f : Audio),
    let r := process_chunk s call f in
    ((exists a, snd r = (ended, Some a)) \/
     (is_speaking s = true /\ snd r = (silence, None))) ->
    is_speaking (fst r) = false /\
    speech_buffer (fst r) = [] /\
    speech_chunks_count (fst r) = 0 /\
    silence_chunks (fst r) = 0.
Proof.
  intros s call f r. subst r. unfold process_chunk, on_verdict.
  destruct (SileroVAD.is_speech (vad s) call f);
    [fields; intros [[a K]|[_ K]]; discriminate|].
  destruct (is_speaking s) eqn:E; fields.
  - destruct (_ >=? _); [destruct (_ <? _)|]; fields;
      intros [[a K]|[_ K]]; try discriminate; auto.
  - intros [[a K]|[K _]]; discriminate.
Qed.

(** C6 on a noise burst: 5 frames of speech, then the 13th silent
    frame. *)
Lemma C6_witness :
  let s := after session (repeat loud_pair 5 ++ repeat quiet_pair 12) in
  let r := process_chunk s (fst quiet_pair) (snd quiet_pair) in
  ((exists a, snd r = (ended, Some a)) \/
   (is_speaking s = true /\ snd r = (silence, None))) /\
  is_speaking (fst r) = false /\
  speech_buffer (fst r) = [] /\
  speech_chunks_count (fst r) = 0 /\
  silence_chunks (fst r) = 0.
Proof.
  intros s r.
  assert (H : (exists a, snd r = (ended, Some a)) \/
              (is_speaking s = true /\ snd r = (silence, None)))
    by (right; split; reflexivity).
  split; [exact H|].
  exact (C6_reset_after_emission_or_discard
           s (fst quiet_pair) (snd quiet_pair) H).
Defined.

(** C10.  After every sequence of [process_chunk] calls from the initial
    state: (1) when [is_speaking] is false the buffer is empty and both
    counters are zero; (2) when it is true, [silence_chunks] is below
    [max_silence_chunks] and [speech_chunks_count] does not exceed the
    buffer length; so (3) the call that completes a silence run of
    [max_silence_chunks] leaves the segmenter Idle: the run is resolved
    in that call. *)
Theorem C10_reachable_state_invariant :
  forall (th : Q) (sr cs : Z) (ml : bool) (h : list Input),
    let s := after (init th sr cs ml) h in
    (is_speaking s = false ->
     speech_buffer s = [] /\ speech_chunks_count s = 0 /\
     silence_chunks s = 0) /\
    (is_speaking s = true ->
     silence_chunks s < max_silence_chunks s /\
     speech_chunks_count s <= len (speech_buffer s)) /\
    (forall call f,
       is_speaking s = true ->
       SileroVAD.is_speech (vad s) call f = false ->
       silence_chunks s + 1 = max_silence_chunks s ->
       is_speaking (fst (process_chunk s call f)) = false).
Proof.
  intros th sr cs ml h s.
  destruct (after_init_tidy th sr cs ml h) as [Hidle Hspk]. fold s in Hidle, Hspk.
  split; [exact Hidle|]. split; [exact Hspk|].
  intros call f E V Hrun. unfold process_chunk, on_verdict.
  rewrite V, E. fields.
  destruct (Z.geb_spec (silence_chunks s + 1) (max_silence_chunks s));
    [|lia].
  destruct (_ <? _); reflexivity.
Qed.

End SegmenterClaims.

(* ================================================================== *)
(** * The classifier adapter's claim                                   *)
(* ================================================================== *)

Section ClassifierClaims.

Import SileroVAD.

(** C5, as the code has it.  When the model call raises, [is_speech]
    does not propagate the exception and does not answer [false]
    outright: it answers [energy > 0.01], where [energy] is
    [np.sqrt(np.mean(x ** 2))] in 32-bit floats and [x] is the frame as
    the handler finds it: divided by 32768 (lines 56-57) if a sample
    exceeded 1.0 in magnitude, unchanged if none did.  Without a model the
    same test is made on the frame as it was passed.  With a model that
    answers, the probability decides. *)
Theorem C5_model_failure_falls_back_to_energy :
  forall (self : t) (audio_chunk : Audio),
    (model self = true -> exceeds_unit audio_chunk = true ->
     is_speech self Raises audio_chunk
     = Float.gtb (energy (map (fun x => x / 32768)%Q audio_chunk))
                 (py_float (1 # 100)))
    /\
    (model self = true -> exceeds_unit audio_chunk = false ->
     is_speech self Raises audio_chunk
     = Float.gtb (energy audio_chunk) (py_float (1 # 100)))
    /\
    (model self = false ->
     forall call,
       is_speech self call audio_chunk
       = Float.gtb (energy audio_chunk) (py_float (1 # 100)))
    /\
    (model self = true -> audio_chunk <> [] ->
     forall p, is_speech self (Prob p) audio_chunk = Qgtb p (threshold self)).
Proof.
  intros self audio_chunk. unfold is_speech, energy_above, rescale.
  repeat split.
  - intros -> H. destruct audio_chunk; [discriminate H|].
    rewrite H. reflexivity.
  - intros -> H. destruct audio_chunk; [reflexivity|].
    rewrite H. reflexivity.
  - intros ->. reflexivity.
  - intros -> Hne p. destruct audio_chunk; [congruence | reflexivity].
Qed.

(** C5's theorem with the model raising, on a frame at amplitude 0.5,
    which is speech, and on the frame [200, -200]: its energy is 200 as
    passed, but the handler finds it divided by 32768, at energy 0.0061,
    and answers silence. *)
Lemma C5_witness :
  let self := mk (1 # 2) 16000 true in
  (model self = true /\
   exceeds_unit [1 # 2; 1 # 2]%Q = false /\
   exceeds_unit [200; -200]%Q = true) /\
  is_speech self Raises [1 # 2; 1 # 2]%Q = true /\
  is_speech self Raises [200; -200]%Q = false /\
  energy_above [200; -200]%Q = true /\
  energy (map (fun x => x / 32768)%Q [200; -200]%Q)
  = Float.Finite (25 # 4096).
Proof.
  intros self. split; [repeat split|]. split; [|split].
  - rewrite (proj1 (proj2 (C5_model_failure_falls_back_to_energy
                             self [1 # 2; 1 # 2]%Q)) eq_refl eq_refl).
    reflexivity.
  - rewrite (proj1 (C5_model_failure_falls_back_to_energy
                      self [200; -200]%Q) eq_refl eq_refl).
    reflexivity.
  - split; reflexivity.
Defined.

(** C5 as stated fails: with a model loaded and the model call raising,
    a loud frame is not treated as silence. *)
Lemma C5_counterexample :
  ~ (forall (self : t) (audio_chunk : Audio),
       model self = true -> is_speech self Raises audio_chunk = false).
Proof.
  intros H.
  specialize (H (mk (1 # 2) 16000 true) (repeat (1 # 2)%Q 512) eq_refl).
  vm_compute in H. discriminate.
Qed.

End ClassifierClaims.

(* ================================================================== *)
(** * The engine's claims                                              *)
(* ================================================================== *)

Section EngineClaims.

Import StreamingASR.

Lemma raised_app (e : string) (l1 l2 : list effect) :
  raised e (l1 ++ l2) = (raised e l1 + raised e l2)%nat.
Proof.
  induction l1 as [|x l1 IH]; [reflexivity|].
  destruct x; simpl; auto. destruct (String.eqb event e); simpl; auto.
Qed.

Lemma dispatched_app (l1 l2 : list effect) :
  dispatched (l1 ++ l2) = dispatched l1 ++ dispatched l2.
Proof.
  induction l1 as [|x l1 IH]; [reflexivity|].
  destruct x; simpl; rewrite ?IH; reflexivity.
Qed.

Lemma raised_notify (self : t) (e e' : string) (d : data) :
  raised e (notify self e' d) =
  if callback self && String.eqb e' e then 1%nat else 0%nat.
Proof.
  unfold notify. destruct (callback self); simpl; auto.
Qed.

Lemma dispatched_notify (self : t) (e : string) (d : data) :
  dispatched (notify self e d) = [].
Proof. unfold notify. destruct (callback self); reflexivity. Qed.

(** The capture callback never changes the lifecycle flag. *)
Lemma audio_callback_keeps_running (self : t) (audio_chunk : Audio)
      (st : status) (call : SileroVAD.model_call) :
  is_running (fst (_audio_callback self audio_chunk st call))
  = is_running self.
Proof.
  unfold _audio_callback.
  destruct st as [|[|]]; [|reflexivity|];
    (destruct (vad self) as [v|];
     [ destruct (StreamingVAD.process_chunk v call audio_chunk)
         as [v' [lab o]]; reflexivity
     | destruct (sample_rate self =? 0); [reflexivity|];
       destruct (Qle_bool _ _); reflexivity ]).
Qed.

(** C4, as the code has it.  When the transcribe call throws or returns
    an unsuccessful result, the worker raises no 'failure' event (the
    engine has none) and no 'result' event; it raises 'processing' if a
    callback is registered, and nothing else.  The engine's attributes,
    [is_running] among them, are unchanged.  An unsuccessful result ends
    the worker normally; an exception ends the worker, which runs in a
    thread of its own: the capture callback only starts it, and whatever
    frame the callback handles next, the engine is still running. *)
Theorem C4_failed_transcription_raises_no_failure_event :
  forall (self : t) (audio_data : Audio) (answer : transcription),
    (answer = Throws \/ exists r, answer = Returns r /\ success r = false) ->
    let '(self', es, c) := _process_audio self audio_data answer in
    self' = self /\
    is_running self' = is_running self /\
    raised "failure" es = 0%nat /\
    raised "result" es = 0%nat /\
    raised "processing" es = (if callback self then 1%nat else 0%nat) /\
    dispatched es = [] /\
    (sample_rate self <> 0 -> asr self = true ->
     c = match answer with Throws => Raised | Returns _ => Returned end) /\
    (forall audio_chunk st call,
       is_running (fst (_audio_callback self' audio_chunk st call))
       = is_running self).
Proof.
  intros self audio_data answer H. unfold _process_audio.
  pose proof (audio_callback_keeps_running self) as K.
  destruct (Z.eqb_spec (sample_rate self) 0) as [E|E].
  - unfold notify. destruct (callback self); simpl; repeat split; auto;
      intros; contradiction.
  - destruct (asr self);
      [destruct H as [->|(r & -> & Hr)]; [|rewrite Hr; cbn [andb]]|];
      rewrite ?raised_app, ?dispatched_app, ?raised_notify,
        ?dispatched_notify; destruct (callback self); simpl;
      repeat split; auto; intros; discriminate.
Qed.

(** C4's theorem on a running engine whose transcriber throws. *)
Lemma C4_witness :
  (Throws = Throws \/ exists r, Throws = Returns r /\ success r = false) /\
  let '(self', es, c) := _process_audio listening [1 # 2; 1 # 2]%Q Throws in
  self' = listening /\
  is_running self' = is_running listening /\
  raised "failure" es = 0%nat /\
  raised "result" es = 0%nat /\
  raised "processing" es = (if callback listening then 1%nat else 0%nat) /\
  dispatched es = [] /\
  (sample_rate listening <> 0 -> asr listening = true -> c = Raised) /\
  (forall audio_chunk st call,
     is_running (fst (_audio_callback self' audio_chunk st call))
     = is_running listening).
Proof.
  split; [left; reflexivity|].
  exact (C4_failed_transcription_raises_no_failure_event
           listening [1 # 2; 1 # 2]%Q Throws (or_introl eq_refl)).
Defined.

(** C4 as stated fails: a transcribe call that throws does not produce
    exactly one 'failure' event, it produces none. *)
Lemma C4_counterexample :
  raised "failure"
         (snd (fst (_process_audio listening [1 # 2; 1 # 2]%Q Throws)))
  <> 1%nat.
Proof. vm_compute. discriminate. Qed.

(** A text whose stripped form has two code points or more is not
    empty. *)
Lemma lstrip_length (s : pystr) : (length (lstrip s) <= length s)%nat.
Proof.
  induction s as [|c s IH]; simpl; [lia|].
  destruct (isspace c); simpl; lia.
Qed.

Lemma strip_len (s : pystr) : len (strip s) <= len s.
Proof.
  unfold len, strip, rstrip. rewrite length_rev.
  pose proof (lstrip_length (rev (lstrip s))) as H1.
  rewrite length_rev in H1. pose proof (lstrip_length s). lia.
Qed.

(** C7.  With a callback registered, a transcriber present and a
    successful result, the worker raises 'result' (once, carrying the
    result) exactly when the stripped text has at least 2 code points;
    for a shorter text no 'result' event is raised. *)
Theorem C7_result_event_iff_text_long_enough :
  forall (self : t) (audio_data : Audio) (r : result),
    callback self = true -> asr self = true -> sample_rate self <> 0 ->
    success r = true ->
    let es := snd (fst (_process_audio self audio_data (Returns r))) in
    (2 <= len (strip (text r)) ->
     raised "result" es = 1%nat /\ In (Callback "result" (Result r)) es) /\
    (len (strip (text r)) < 2 -> raised "result" es = 0%nat) /\
    (raised "result" es = 1%nat <-> 2 <= len (strip (text r))).
Proof.
  intros self audio_data r Hcb Hasr Hsr Hok es. subst es.
  unfold _process_audio.
  destruct (Z.eqb_spec (sample_rate self) 0) as [|_]; [contradiction|].
  rewrite Hasr, Hok. cbn [andb]. unfold notify. rewrite Hcb.
  pose proof (strip_len (text r)) as Hle.
  destruct (Z.ltb_spec (len (strip (text r))) 2) as [Hlt|Hge].
  - destruct (negb (len (text r) =? 0)); cbn; repeat split;
      intros; try lia; try discriminate.
  - destruct (Z.eqb_spec (len (text r)) 0) as [E0|_]; [lia|].
    cbn. repeat split; intros; try lia; auto.
Qed.

(** C7's theorem on the texts "ok" and "a": the first raises 'result',
    the second does not. *)
Lemma C7_witness :
  let ok := mk_result (pystr_of "ok") true 1 in
  let a := mk_result (pystr_of "a") true 1 in
  (callback listening = true /\ asr listening = true /\
   sample_rate listening <> 0 /\ success ok = true /\ success a = true /\
   2 <= len (strip (text ok)) /\ len (strip (text a)) < 2) /\
  raised "result"
         (snd (fst (_process_audio listening [1 # 2]%Q (Returns ok))))
  = 1%nat /\
  raised "result"
         (snd (fst (_process_audio listening [1 # 2]%Q (Returns a))))
  = 0%nat.
Proof.
  intros ok a.
  assert (Hsr : sample_rate listening <> 0) by (vm_compute; discriminate).
  assert (Hok : 2 <= len (strip (text ok))) by (vm_compute; discriminate).
  assert (Ha : len (strip (text a)) < 2) by reflexivity.
  split; [repeat split; auto|]. split.
  - exact (proj1 (proj1 (C7_result_event_iff_text_long_enough
                           listening [1 # 2]%Q ok
                           eq_refl eq_refl Hsr eq_refl) Hok)).
  - exact (proj1 (proj2 (C7_result_event_iff_text_long_enough
                           listening [1 # 2]%Q a
                           eq_refl eq_refl Hsr eq_refl)) Ha).
Defined.

(** With frames of one size, the duration the callback computes on
    line 97 is the duration of the buffered audio. *)
Lemma duration_of_uniform_buffer (buf : list Audio) (audio_chunk : Audio) :
  Forall (fun f => length f = length audio_chunk) buf ->
  len (buf ++ [audio_chunk]) * len audio_chunk =
  len (StreamingVAD.concatenate (buf ++ [audio_chunk])).
Proof.
  intros H. rewrite (len_concatenate_uniform (length audio_chunk)).
  - reflexivity.
  - apply Forall_app. split; [exact H | constructor; auto].
Qed.

(** C8 as stated fails where rounding decides.  A window of 3 s at 8
    samples per second, three frames of the float next above [float32(0.01)]
    followed by seven times [float32(0.01)]: every sample is a 32-bit
    float, the mean of their magnitudes is below 0.01, the level numpy
    computes is above, and the window is handed to a worker. *)
Lemma C8_counterexample :
  let frame := ((10737419 # 1073741824) :: repeat (5368709 # 536870912) 7)%Q in
  let self := set_audio_buffer fallback8 [frame; frame] in
  let window := StreamingVAD.concatenate [frame; frame; frame] in
  np.array window = map Float.Finite window /\
  (buffer_duration self
   <= inject_Z (len window) / inject_Z (sample_rate self))%Q /\
  (exists m, mean_abs_is window m /\ (m <= 1 # 100)%Q) /\
  audio_level window = Float.Finite (10737419 # 1073741824) /\
  dispatched (snd (_audio_callback self frame Clear SileroVAD.Raises))
  = [window].
Proof.
  intros frame self window. split; [vm_compute; reflexivity|].
  split; [vm_compute; discriminate|]. split; [|split].
  - eexists. split.
    + eexists. split; [reflexivity | apply Qeq_refl].
    + vm_compute. discriminate.
  - vm_compute. reflexivity.
  - vm_compute. reflexivity.
Qed.

(** C8, as the code has it.  In fallback mode (no classifier), on the
    frame that brings the buffered audio to the window duration (3 s),
    the buffer is reset to empty, and the whole window is handed to one
    transcription worker if and only if [np.abs(window).mean()], as numpy
    computes it in 32-bit floats, exceeds the double [0.01], which is
    5764607523034235 / 2^59; otherwise to none.  (Frames have one size;
    the overflow status drops a frame before it is buffered.) *)
Theorem C8_fallback_window_dispatched_iff_loud :
  forall (self : t) (audio_chunk : Audio) (st : status)
         (call : SileroVAD.model_call),
    vad self = None -> st <> Flags true -> sample_rate self <> 0 ->
    Forall (fun f => length f = length audio_chunk) (audio_buffer self) ->
    let window :=
      StreamingVAD.concatenate (audio_buffer self ++ [audio_chunk]) in
    (buffer_duration self
     <= inject_Z (len window) / inject_Z (sample_rate self))%Q ->
    let r := _audio_callback self audio_chunk st call in
    audio_buffer (fst r) = [] /\
    (dispatched (snd r) = [window] <->
     Float.gtb (audio_level window) (py_float (1 # 100)) = true) /\
    (dispatched (snd r) = [] <->
     Float.gtb (audio_level window) (py_float (1 # 100)) = false) /\
    (forall m : Q,
       audio_level window = Float.Finite m ->
       ((5764607523034235 # 576460752303423488 < m)%Q ->
        dispatched (snd r) = [window]) /\
       ((m <= 5764607523034235 # 576460752303423488)%Q ->
        dispatched (snd r) = [])).
Proof.
  intros self audio_chunk st call Hvad Hst Hsr Hsize window Hfull r.
  assert (R : r = (set_audio_buffer self [],
                   match st with
                   | Flags _ => [Log "warning" "Audio status"]
                   | Clear => []
                   end ++
                   (if level_above window
                    then [Log "info" "Audio detected, processing";
                          Spawn window]
                    else [Log "debug" "Silence detected, skipping"])
                   ++ notify self "chunk" (Chunk audio_chunk))).
  { subst r. unfold _audio_callback. rewrite Hvad.
    destruct (Z.eqb_spec (sample_rate self) 0) as [|_]; [contradiction|].
    rewrite duration_of_uniform_buffer by exact Hsize. fold window.
    apply Qle_bool_iff in Hfull. rewrite Hfull.
    destruct st as [|[|]]; [reflexivity | congruence | reflexivity]. }
  rewrite R. cbn [fst snd set_audio_buffer audio_buffer].
  rewrite !dispatched_app, dispatched_notify, app_nil_r.
  assert (W : dispatched match st with
                         | Flags _ => [Log "warning" "Audio status"]
                         | Clear => []
                         end = []) by (destruct st; reflexivity).
  rewrite W. cbn [app]. unfold level_above.
  assert (T : forall m : Q,
             audio_level window = Float.Finite m ->
             Float.gtb (audio_level window) (py_float (1 # 100)) = true <->
             (5764607523034235 # 576460752303423488 < m)%Q).
  { intros m ->.
    change (py_float (1 # 100))
      with (Float.Finite (5764607523034235 # 576460752303423488)).
    cbn [Float.gtb].
    rewrite negb_true_iff, <- not_true_iff_false, Qle_bool_iff.
    split; [apply Qnot_le_lt | apply Qlt_not_le]. }
  destruct (Float.gtb (audio_level window) (py_float (1 # 100))) eqn:G;
    cbn [dispatched].
  - split; [reflexivity|]. split; [tauto|]. split.
    + split; discriminate.
    + intros m Hm. split; [reflexivity|]. intros Hle.
      exfalso. apply (Qlt_not_le _ _ (proj1 (T m Hm) eq_refl) Hle).
  - split; [reflexivity|]. split; [split; discriminate|]. split; [tauto|].
    intros m Hm. split; [|reflexivity]. intros Hlt.
    apply (T m Hm) in Hlt. discriminate.
Qed.

(** C8's theorem on two windows of 3 s at 8 samples per second: one at
    [float32(0.001)] everywhere, whose level is that value and which
    starts no worker, one at [-float32(0.05)], whose level is
    [float32(0.05)] and which starts exactly one on the whole window. *)
Lemma C8_witness :
  let quiet := repeat (8589935 # 8589934592)%Q 8 in
  let loud := repeat (-13421773 # 268435456)%Q 8 in
  let with_quiet := set_audio_buffer fallback8 [quiet; quiet] in
  let with_loud := set_audio_buffer fallback8 [loud; loud] in
  (vad fallback8 = None /\
   np.float32 (1 # 1000) = Float.Finite (8589935 # 8589934592) /\
   np.float32 (5 # 100) = Float.Finite (13421773 # 268435456) /\
   audio_level (StreamingVAD.concatenate [quiet; quiet; quiet])
   = Float.Finite (8589935 # 8589934592) /\
   audio_level (StreamingVAD.concatenate [loud; loud; loud])
   = Float.Finite (13421773 # 268435456)) /\
  dispatched (snd (_audio_callback with_quiet quiet Clear SileroVAD.Raises))
  = [] /\
  dispatched (snd (_audio_callback with_loud loud Clear SileroVAD.Raises))
  = [StreamingVAD.concatenate [loud; loud; loud]].
Proof.
  intros quiet loud with_quiet with_loud.
  assert (Hq : audio_level (StreamingVAD.concatenate [quiet; quiet; quiet])
               = Float.Finite (8589935 # 8589934592))
    by (vm_compute; reflexivity).
  assert (Hl : audio_level (StreamingVAD.concatenate [loud; loud; loud])
               = Float.Finite (13421773 # 268435456))
    by (vm_compute; reflexivity).
  assert (Hst : Clear <> Flags true) by discriminate.
  assert (Hsr : 8 <> 0) by discriminate.
  split; [repeat split; solve [assumption | vm_compute; reflexivity]|].
  split.
  - refine (proj2 (proj2 (proj2 (proj2
      (C8_fallback_window_dispatched_iff_loud
         with_quiet quiet Clear SileroVAD.Raises
         eq_refl Hst Hsr _ _))) _ Hq) _).
    + repeat constructor.
    + vm_compute. discriminate.
    + vm_compute. discriminate.
  - refine (proj1 (proj2 (proj2 (proj2
      (C8_fallback_window_dispatched_iff_loud
         with_loud loud Clear SileroVAD.Raises
         eq_refl Hst Hsr _ _))) _ Hl) _).
    + repeat constructor.
    + vm_compute. discriminate.
    + vm_compute. reflexivity.
Defined.

(** C9.  [start] on a running engine changes nothing, opens no stream
    and returns with a warning; [stop] on a stopped engine changes
    nothing, does nothing and returns.  Started twice, an engine holds
    exactly one capture subscription; stopped twice, the second call is
    silent.  Neither redundant call raises. *)
Theorem C9_redundant_start_stop_are_noops :
  forall (self : t) (subscriptions : nat) (dev : device),
    (is_running self = true ->
     start self subscriptions dev =
     (self, subscriptions, [Log "warning" "Already running"], Returned)) /\
    (is_running self = false ->
     stop self subscriptions = (self, subscriptions, [], Returned)) /\
    (is_running self = false ->
     let '(self1, n1, _, _) := start self 0 Opens in
     let '(self2, n2, _, c2) := start self1 n1 dev in
     n1 = 1%nat /\ n2 = 1%nat /\ self2 = self1 /\
     is_running self2 = true /\ c2 = Returned) /\
    (let '(self1, n1, _, _) := stop self subscriptions in
     is_running self1 = false /\
     stop self1 n1 = (self1, n1, [], Returned)).
Proof.
  intros self subscriptions dev. repeat split.
  - intros H. unfold start. rewrite H. reflexivity.
  - intros H. unfold stop. rewrite H. reflexivity.
  - intros H. unfold start. rewrite H. cbn. repeat split.
  - unfold stop.
    destruct (is_running self) eqn:E; cbn [negb].
    + destruct (stream (set_running self false)) as [[|]|];
        cbn; split; reflexivity.
    + rewrite E. cbn. split; reflexivity.
Qed.

(** C9's theorem on a running engine and on a stopped one. *)
Lemma C9_witness :
  let idle := init 16000 true true true true true in
  (is_running listening = true /\ is_running idle = false) /\
  start listening 1 Opens =
  (listening, 1%nat, [Log "warning" "Already running"], Returned) /\
  stop idle 0 = (idle, 0%nat, [], Returned).
Proof.
  intros idle. split; [split; reflexivity|]. split.
  - exact (proj1 (C9_redundant_start_stop_are_noops listening 1 Opens)
                 eq_refl).
  - exact (proj1 (proj2 (C9_redundant_start_stop_are_noops idle 0 Opens))
                 eq_refl).
Defined.

End EngineClaims.

(* ================================================================== *)
(** * Further properties of the segmenter                              *)
(* ================================================================== *)

Tactic Notation "fields_in" hyp(H) :=
  cbn [StreamingVAD.vad StreamingVAD.chunk_size StreamingVAD.is_speaking
       StreamingVAD.speech_buffer StreamingVAD.silence_chunks
       StreamingVAD.max_silence_chunks StreamingVAD.min_speech_chunks
       StreamingVAD.speech_chunks_count fst snd] in H.

Ltac tally :=
  unfold len in *; simpl length in *;
  repeat split; auto; intros; try discriminate; lia.

Ltac scan H :=
  cbn in H; repeat (destruct H as [H|H]; [discriminate|]); contradiction.

Ltac no_buffer :=
  match goal with
  | H : exists _, None = Some _ |- _ => destruct H as [? H]; discriminate
  end.

Section SegmenterMore.

Import StreamingVAD.

(** X1.  What [process_chunk] returns reports the state it leaves: the
    label is 'speaking' exactly when the segmenter is in Speaking
    afterwards, and a buffer comes back exactly with 'ended'.  This holds
    from any state. *)
Theorem X1_label_reports_state :
  forall (s : t) (call : SileroVAD.model_call) (f : Audio),
    let r := process_chunk s call f in
    (fst (snd r) = speaking <-> is_speaking (fst r) = true) /\
    (fst (snd r) = ended <-> exists a, snd (snd r) = Some a) /\
    (fst (snd r) = ended -> snd (snd r)
                            = Some (concatenate (speech_buffer s ++ [f]))).
Proof.
  intros s call f r. subst r. unfold process_chunk, on_verdict.
  destruct (SileroVAD.is_speech (vad s) call f).
  - destruct (is_speaking s) eqn:E; fields; cbn [negb is_speaking];
      rewrite ?E; repeat split; intros; try discriminate; auto;
      no_buffer.
  - destruct (is_speaking s) eqn:E; fields.
    + destruct (_ >=? _); [destruct (_ <? _)|]; fields;
        repeat split; intros; try discriminate; eauto; no_buffer.
    + rewrite E. repeat split; intros; try discriminate; no_buffer.
Qed.

(** X2.  No sequence of calls changes the classifier, the frame size or
    the two thresholds. *)
Theorem X2_configuration_is_never_changed :
  forall (s : t) (h : list Input),
    vad (after s h) = vad s /\
    chunk_size (after s h) = chunk_size s /\
    max_silence_chunks (after s h) = max_silence_chunks s /\
    min_speech_chunks (after s h) = min_speech_chunks s.
Proof.
  intros s h. destruct (after_config s h) as (Hv & Hc & Hmax & Hmin).
  repeat split; assumption.
Qed.

(** Speech frames and the closing silence run are different frames of
    a stretch. *)
Lemma speech_and_silence_fit (c : SileroVAD.t) (seg : list Input) :
  (speech_count c seg + trailing_silence c seg <= length seg)%nat.
Proof.
  assert (H : (speech_count c seg <= length seg)%nat
              /\ (speech_count c seg + trailing_silence c seg
                  <= length seg)%nat).
  { induction seg as [|i seg [IH1 IH2]] using rev_ind.
    - split; reflexivity.
    - rewrite speech_count_snoc, trailing_silence_snoc, length_app.
      simpl length. destruct (verdict c i); lia. }
  apply H.
Qed.

(** X3.  An utterance is never short: whatever [process_chunk] hands
    back from a reachable state is the concatenation of the last frames
    it was fed, those since the onset of speech, frame by frame, and
    these are at least 35 (22 of speech and a silence run of 13); if all
    frames fed have [L] samples, it has at least [35 * L] samples. *)
Theorem X3_utterance_has_at_least_35_frames :
  forall (th : Q) (sr cs : Z) (ml : bool) (h : list Input)
         (call : SileroVAD.model_call) (f a : Audio),
    let s0 := init th sr cs ml in
    snd (snd (process_chunk (after s0 h) call f)) = Some a ->
    (exists pre seg,
       since_onset s0 (h ++ [(call, f)]) pre seg /\
       h ++ [(call, f)] = pre ++ seg /\
       a = concatenate (frames_of seg) /\ (35 <= length seg)%nat) /\
    (forall L : nat,
       Forall (fun i => length (frame_of i) = L) (h ++ [(call, f)]) ->
       35 * Z.of_nat L <= len a).
Proof.
  intros th sr cs ml h call f a s0 E.
  assert (E' : exists lab, snd (process_chunk (after s0 h) call f)
                           = (lab, Some a)).
  { destruct (snd (process_chunk (after s0 h) call f)) as [lab o].
    simpl in E. subst. eauto. }
  destruct E' as [lab E'].
  destruct (emitted_stretch th sr cs ml h call f a lab E')
    as (_ & pre & seg & Hso & Ha & Hcnt & Hsil & _).
  fold s0 in Hso, Hcnt, Hsil.
  pose proof (speech_and_silence_fit (vad s0) seg) as Hfit.
  assert (Hlen : (35 <= length seg)%nat) by lia.
  split.
  - exists pre, seg. split; [exact Hso|]. split; [apply Hso|].
    split; assumption.
  - intros L HL. destruct Hso as (Hh & _). rewrite Hh in HL.
    apply Forall_app in HL. destruct HL as [_ HL].
    rewrite Ha, (len_concatenate_uniform L).
    + unfold frames_of. rewrite length_map. nia.
    + unfold frames_of. apply Forall_map. exact HL.
Qed.

(** X3 on 25 frames of speech and 13 of silence, two samples each. *)
Lemma X3_witness :
  let h := repeat loud_pair 25 ++ repeat quiet_pair 12 in
  let a := concatenate (frames_of (h ++ [quiet_pair])) in
  (snd (snd (process_chunk (after session h) (fst quiet_pair)
                           (snd quiet_pair))) = Some a /\
   Forall (fun i => length (frame_of i) = 2%nat) (h ++ [quiet_pair])) /\
  35 * 2 <= len a.
Proof.
  intros h a.
  assert (H : snd (snd (process_chunk (after session h) (fst quiet_pair)
                                      (snd quiet_pair))) = Some a)
    by (vm_compute; reflexivity).
  assert (HL : Forall (fun i => length (frame_of i) = 2%nat)
                      (h ++ [quiet_pair])).
  { apply Forall_app. split; [apply Forall_app; split|].
    - apply Forall_forall. intros x Hx. apply repeat_spec in Hx.
      rewrite Hx. reflexivity.
    - apply Forall_forall. intros x Hx. apply repeat_spec in Hx.
      rewrite Hx. reflexivity.
    - repeat constructor. }
  split; [split; assumption|].
  exact (proj2 (X3_utterance_has_at_least_35_frames
                  (6 # 10) 16000 512 true h (fst quiet_pair)
                  (snd quiet_pair) a H) 2%nat HL).
Defined.

(** ** Bursts, pauses and the closing silence *)

Lemma run_speech_resume (s : t) (sp : list Input) :
  is_speaking s = true -> sp <> [] ->
  all_classified (vad s) true sp ->
  run s sp =
  (mk (vad s) (chunk_size s) true (speech_buffer s ++ frames_of sp) 0
      (max_silence_chunks s) (min_speech_chunks s)
      (speech_chunks_count s + len sp),
   map (fun _ => (speaking, None)) sp).
Proof.
  intros Hspk Hne Hall. destruct sp as [|i sp]; [congruence|].
  pose proof (Forall_inv Hall) as V. cbv beta in V. unfold verdict in V.
  pose proof (Forall_inv_tail Hall) as Hall'.
  cbn [run]. unfold process_chunk. rewrite V. unfold on_verdict.
  rewrite Hspk. cbn [negb]. rewrite Hspk.
  rewrite run_speech_on by auto. fields. state_eq.
Qed.

Lemma split_at_13 (c : SileroVAD.t) (si : list Input) :
  (13 <= length si)%nat -> all_classified c false si ->
  exists x,
    si = firstn 12 si ++ [x] ++ skipn 13 si /\
    firstn 13 si = firstn 12 si ++ [x] /\
    length (firstn 12 si) = 12%nat /\
    verdict c x = false /\
    all_classified c false (firstn 12 si) /\
    all_classified c false (skipn 13 si).
Proof.
  intros Hlen Hall.
  assert (L12 : length (firstn 12 si) = 12%nat)
    by (rewrite length_firstn; lia).
  destruct (skipn 12 si) as [|x tl] eqn:Etl.
  { pose proof (length_skipn 12 si) as K. rewrite Etl in K. simpl in K. lia. }
  assert (E13 : firstn 13 si = firstn 12 si ++ [x]).
  { rewrite <- (firstn_skipn 12 si) at 1. rewrite Etl.
    rewrite firstn_app, L12. rewrite firstn_all2 by lia. reflexivity. }
  assert (S13 : skipn 13 si = tl).
  { rewrite <- (firstn_skipn 12 si) at 1. rewrite Etl.
    rewrite skipn_app, L12. rewrite skipn_all2 by lia. reflexivity. }
  unfold all_classified in *.
  rewrite <- (firstn_skipn 12 si), Etl in Hall.
  apply Forall_app in Hall. destruct Hall as [H12 Htl].
  exists x. rewrite S13. repeat split; auto.
  - change ([x] ++ tl) with (x :: tl). rewrite <- Etl.
    symmetry. apply firstn_skipn.
  - exact (Forall_inv Htl).
  - exact (Forall_inv_tail Htl).
Qed.

(** From Speaking with no silence counted yet, 13 or more frames of
    silence close the stretch on the 13th: as an utterance if the speech
    counter has reached the minimum, as a noise burst otherwise. *)
Lemma run_closing (s : t) (si : list Input) :
  is_speaking s = true -> silence_chunks s = 0 ->
  max_silence_chunks s = 13 ->
  (13 <= length si)%nat -> all_classified (vad s) false si ->
  run s si =
  (mk (vad s) (chunk_size s) false [] 0 13 (min_speech_chunks s) 0,
   map (fun _ => (speaking, None)) (firstn 12 si)
   ++ [if speech_chunks_count s <? min_speech_chunks s
       then (silence, None)
       else (ended,
             Some (concatenate
                     (speech_buffer s ++ frames_of (firstn 13 si))))]
   ++ map (fun _ => (silence, None)) (skipn 13 si)).
Proof.
  intros Hspk Hsil Hmax Hlen Hall.
  destruct (split_at_13 (vad s) si Hlen Hall)
    as (x & Hsi & E13 & L12 & Vx & A12 & Atl).
  rewrite E13. rewrite Hsi at 1.
  assert (R2 := run_silence_on s (firstn 12 si) Hspk).
  rewrite Hsil, Hmax in R2.
  specialize (R2 ltac:(unfold len; rewrite L12; lia) A12).
  unfold len in R2. rewrite L12 in R2.
  rewrite run_app, R2. cbn [fst snd].
  rewrite run_app. cbn [run]. unfold process_chunk. fields.
  unfold verdict in Vx. rewrite Vx. unfold on_verdict. fields.
  destruct (Z.geb_spec (0 + Z.of_nat 12 + 1) 13); [|lia].
  destruct (speech_chunks_count s <? min_speech_chunks s); cbn [fst snd];
    rewrite run_idle_silence by (fields; auto); cbn [fst snd];
    unfold frames_of; rewrite ?map_app, <- ?app_assoc; reflexivity.
Qed.

(** X4.  A noise burst leaves no trace.  From the initial state, fewer
    than 22 frames of speech (at least one) followed by 13 or more of
    silence give no utterance, and the segmenter is in its initial
    state again. *)
Theorem X4_noise_burst_is_discarded :
  forall (th : Q) (sr cs : Z) (ml : bool) (sp si : list Input),
    let s0 := init th sr cs ml in
    sp <> [] -> (length sp < 22)%nat -> (13 <= length si)%nat ->
    all_classified (vad s0) true sp -> all_classified (vad s0) false si ->
    utterances (snd (run s0 (sp ++ si))) = [] /\
    after s0 (sp ++ si) = s0.
Proof.
  intros th sr cs ml sp si s0 Hne Hsp Hsi Asp Asi.
  assert (R1 := run_from_idle_speech s0 sp eq_refl eq_refl Hne Asp).
  unfold after. rewrite run_app, R1. cbn [fst snd].
  rewrite run_closing; fields; auto.
  destruct (Z.ltb_spec (len sp) (min_speech_chunks s0)) as [_|K];
    [|unfold len in K; change (min_speech_chunks s0) with 22 in K; lia].
  rewrite !utterances_app, !utterances_none. split; reflexivity.
Qed.

(** X4 on 5 frames of speech and 14 of silence. *)
Lemma X4_witness :
  let sp := repeat loud_pair 5 in
  let si := repeat quiet_pair 14 in
  (sp <> [] /\ (length sp < 22)%nat /\ (13 <= length si)%nat /\
   all_classified (vad session) true sp /\
   all_classified (vad session) false si) /\
  utterances (snd (run session (sp ++ si))) = [] /\
  after session (sp ++ si) = session.
Proof.
  intros sp si.
  assert (Hne : sp <> []) by discriminate.
  assert (Hsp : (length sp < 22)%nat) by (vm_compute; lia).
  assert (Hsi : (13 <= length si)%nat) by (vm_compute; lia).
  assert (Asp : all_classified (vad session) true sp)
    by (apply all_classified_repeat; reflexivity).
  assert (Asi : all_classified (vad session) false si)
    by (apply all_classified_repeat; reflexivity).
  split; [repeat split; assumption|].
  exact (X4_noise_burst_is_discarded (6 # 10) 16000 512 true sp si
                                     Hne Hsp Hsi Asp Asi).
Defined.

(** X5.  A pause shorter than 13 frames does not split an utterance.
    Speech, a silence of fewer than 13 frames, speech again (22 frames of
    speech or more in all) and then 13 or more frames of silence give
    exactly one utterance: both bursts, the pause between them and the
    first 13 frames of the closing silence. *)
Theorem X5_short_pause_does_not_split :
  forall (th : Q) (sr cs : Z) (ml : bool) (sp1 gap sp2 si : list Input),
    let s0 := init th sr cs ml in
    sp1 <> [] -> sp2 <> [] -> (length gap < 13)%nat ->
    (22 <= length sp1 + length sp2)%nat -> (13 <= length si)%nat ->
    all_classified (vad s0) true sp1 -> all_classified (vad s0) false gap ->
    all_classified (vad s0) true sp2 -> all_classified (vad s0) false si ->
    utterances (snd (run s0 (sp1 ++ gap ++ sp2 ++ si))) =
    [concatenate (frames_of (sp1 ++ gap ++ sp2 ++ firstn 13 si))] /\
    after s0 (sp1 ++ gap ++ sp2 ++ si) = s0.
Proof.
  intros th sr cs ml sp1 gap sp2 si s0 H1 H2 Hgap Hsp Hsi A1 Ag A2 Asi.
  assert (R1 := run_from_idle_speech s0 sp1 eq_refl eq_refl H1 A1).
  match type of R1 with
  | _ = (?A, _) => pose proof (run_silence_on A gap eq_refl) as R2
  end.
  fields_in R2.
  specialize (R2 ltac:(unfold len; change (max_silence_chunks s0) with 13;
                       lia) Ag).
  match type of R2 with
  | _ = (?B, _) => pose proof (run_speech_resume B sp2 eq_refl H2) as R3
  end.
  fields_in R3. specialize (R3 A2).
  match type of R3 with
  | _ = (?C, _) =>
      pose proof (run_closing C si eq_refl eq_refl eq_refl Hsi) as R4
  end.
  fields_in R4. specialize (R4 Asi).
  unfold after.
  rewrite run_app, R1. cbn [fst snd].
  rewrite run_app, R2. cbn [fst snd].
  rewrite run_app, R3. cbn [fst snd].
  rewrite R4. cbn [fst snd].
  destruct (Z.ltb_spec (len sp1 + len sp2) (min_speech_chunks s0)) as [K|_];
    [unfold len in K; change (min_speech_chunks s0) with 22 in K; lia|].
  rewrite !utterances_app, !utterances_none, utterances_one.
  split; [|reflexivity].
  cbn [app]. unfold frames_of. rewrite !map_app, <- !app_assoc.
  reflexivity.
Qed.

(** X5 on 10 frames of speech, a pause of 12, 12 frames of speech and
    13 of silence. *)
Lemma X5_witness :
  let sp1 := repeat loud_pair 10 in
  let gap := repeat quiet_pair 12 in
  let sp2 := repeat loud_pair 12 in
  let si := repeat quiet_pair 13 in
  (sp1 <> [] /\ sp2 <> [] /\ (length gap < 13)%nat /\
   (22 <= length sp1 + length sp2)%nat /\ (13 <= length si)%nat) /\
  utterances (snd (run session (sp1 ++ gap ++ sp2 ++ si))) =
  [concatenate (frames_of (sp1 ++ gap ++ sp2 ++ firstn 13 si))].
Proof.
  intros sp1 gap sp2 si.
  assert (H1 : sp1 <> []) by discriminate.
  assert (H2 : sp2 <> []) by discriminate.
  assert (Hgap : (length gap < 13)%nat) by (vm_compute; lia).
  assert (Hsp : (22 <= length sp1 + length sp2)%nat) by (vm_compute; lia).
  assert (Hsi : (13 <= length si)%nat) by (vm_compute; lia).
  split; [repeat split; assumption|].
  refine (proj1 (X5_short_pause_does_not_split
                   (6 # 10) 16000 512 true sp1 gap sp2 si
                   H1 H2 Hgap Hsp Hsi _ _ _ _));
    apply all_classified_repeat; reflexivity.
Defined.

(** ** How often an utterance can be emitted *)

Lemma process_chunk_accounted (s : t) (call : SileroVAD.model_call)
      (f : Audio) :
  accounted s ->
  accounted (fst (process_chunk s call f)) /\
  35 * len (utterances [snd (process_chunk s call f)])
  + backlog (fst (process_chunk s call f)) <= backlog s + 1.
Proof.
  intros (Hmax & Hmin & Hidle & Hspk).
  unfold process_chunk, on_verdict, accounted, backlog.
  pose proof (len_nonneg (speech_buffer s)) as Hlen.
  destruct (SileroVAD.is_speech (vad s) call f).
  - destruct (is_speaking s) eqn:E; cbn [negb]; fields; rewrite ?E;
      cbn [utterances]; rewrite len_snoc.
    + destruct (Hspk eq_refl). tally.
    + rewrite (Hidle eq_refl) in *. tally.
  - destruct (is_speaking s) eqn:E; fields.
    + destruct (Hspk eq_refl) as [H0 Hfit]. rewrite Hmax, Hmin.
      destruct (Z.geb_spec (silence_chunks s + 1) 13).
      * destruct (Z.ltb_spec (speech_chunks_count s) 22); fields;
          cbn [utterances]; tally.
      * fields. cbn [utterances]. rewrite len_snoc. tally.
    + rewrite E. cbn [utterances]. tally.
Qed.

Lemma run_accounted (h : list Input) (s : t) :
  accounted s ->
  accounted (after s h) /\
  35 * len (utterances (snd (run s h))) + backlog (after s h)
  <= backlog s + len h.
Proof.
  revert s. induction h as [|i h IH]; intros s Hs.
  - unfold after, len. simpl. split; [exact Hs | lia].
  - destruct (process_chunk_accounted s (fst i) (snd i) Hs) as [Hs' Hstep].
    specialize (IH _ Hs'). destruct IH as [Hfin Hrest].
    unfold after in *. cbn [run].
    destruct (process_chunk s (fst i) (snd i)) as [s' r].
    cbn [fst snd] in *. destruct (run s' h) as [final rs].
    cbn [fst snd] in *. split; [exact Hfin|].
    change (r :: rs) with ([r] ++ rs).
    rewrite utterances_app. unfold len in *. rewrite length_app.
    simpl length in *. lia.
Qed.

(** X6.  Utterances cannot come faster than one per 35 frames: over any
    stream of frames from the initial state, 35 times the number of
    utterances emitted is at most the number of frames fed. *)
Theorem X6_at_most_one_utterance_per_35_frames :
  forall (th : Q) (sr cs : Z) (ml : bool) (h : list Input),
    35 * len (utterances (snd (run (init th sr cs ml) h))) <= len h.
Proof.
  intros th sr cs ml h.
  assert (H0 : accounted (init th sr cs ml)).
  { unfold accounted. simpl. repeat split; intros; try discriminate. }
  destruct (run_accounted h _ H0) as [Hacc Hbound].
  assert (Hb : 0 <= backlog (after (init th sr cs ml) h)).
  { unfold backlog. destruct (is_speaking _); [apply len_nonneg | lia]. }
  change (backlog (init th sr cs ml)) with 0 in Hbound. lia.
Qed.

(** X24.  While the segmenter is in Speaking, its buffer and counters
    describe the input since onset: the buffer holds exactly the frames
    since the Idle-to-Speaking transition, in order; the speech counter
    is the number of those classified as speech; and the silence counter
    is the length of the silence run they end in. *)
Theorem X24_speaking_state_describes_the_stretch :
  forall (th : Q) (sr cs : Z) (ml : bool) (h : list Input),
    let s0 := init th sr cs ml in
    is_speaking (after s0 h) = true ->
    exists pre seg,
      since_onset s0 h pre seg /\
      speech_buffer (after s0 h) = frames_of seg /\
      speech_chunks_count (after s0 h)
      = Z.of_nat (speech_count (vad s0) seg) /\
      silence_chunks (after s0 h)
      = Z.of_nat (trailing_silence (vad s0) seg) /\
      1 <= speech_chunks_count (after s0 h).
Proof.
  intros th sr cs ml h s0 E.
  destruct (speaking_stretch th sr cs ml h E)
    as (pre & seg & Hso & Hb & Hc & Hs).
  fold s0 in Hso, Hb, Hc, Hs.
  exists pre, seg. repeat split; try assumption; try apply Hso.
  rewrite Hc. destruct Hso as (_ & _ & (i & rest & -> & V) & _).
  unfold speech_count. cbn [filter]. rewrite V. simpl length. lia.
Qed.

(** X24 after 3 frames of speech and 2 of silence. *)
Lemma X24_witness :
  let h := repeat loud_pair 3 ++ repeat quiet_pair 2 in
  is_speaking (after session h) = true /\
  exists pre seg,
    since_onset session h pre seg /\
    speech_buffer (after session h) = frames_of seg /\
    speech_chunks_count (after session h)
    = Z.of_nat (speech_count (vad session) seg) /\
    silence_chunks (after session h)
    = Z.of_nat (trailing_silence (vad session) seg) /\
    1 <= speech_chunks_count (after session h).
Proof.
  intros h. split; [reflexivity|].
  exact (X24_speaking_state_describes_the_stretch
           (6 # 10) 16000 512 true h eq_refl).
Defined.

End SegmenterMore.

(* ================================================================== *)
(** * Rounding                                                         *)
(* ================================================================== *)

Section FloatFacts.

Import Float.

Lemma pow2_pos (z : Z) : (0 < pow2 z)%Q.
Proof. apply Qpower_0_lt. reflexivity. Qed.

Lemma pow2_add (x y : Z) : (pow2 (x + y) == pow2 x * pow2 y)%Q.
Proof. apply Qpower_plus. discriminate. Qed.

Lemma pow2_le (x y : Z) : x <= y -> (pow2 x <= pow2 y)%Q.
Proof. intros H. apply Qpower_le_compat_l; [exact H | discriminate]. Qed.

Lemma pow2_lt_inv (x y : Z) : (pow2 x < pow2 y)%Q -> x < y.
Proof. intros H. apply (Qpower_lt_compat_l_inv 2); [exact H | reflexivity]. Qed.

Lemma pow2_le_inv (x y : Z) : (pow2 x <= pow2 y)%Q -> x <= y.
Proof. intros H. apply (Qpower_le_compat_l_inv 2); [exact H | reflexivity]. Qed.

Lemma pow2_Z (d : Z) : 0 <= d -> (pow2 d == inject_Z (2 ^ d))%Q.
Proof. intros H. rewrite Zpower_Qpower by exact H. reflexivity. Qed.

Lemma pow2_split (j x : Z) :
  x <= j -> (pow2 j == inject_Z (2 ^ (j - x)) * pow2 x)%Q.
Proof.
  intros H. rewrite <- pow2_Z by lia. rewrite <- pow2_add.
  replace (j - x + x) with j by lia. reflexivity.
Qed.

Lemma Qabs_pos_eq (a : Q) : (0 <= a)%Q -> Qabs a = a.
Proof.
  destruct a as [n d]. unfold Qle, Qabs. simpl. intros H.
  f_equal. apply Z.abs_eq. lia.
Qed.

Lemma ilog2_le (a : Q) : (0 < a)%Q -> (pow2 (ilog2 a) <= a)%Q.
Proof.
  intros Ha. unfold ilog2.
  set (e0 := Z.log2 (Qnum a) - Z.log2 (Z.pos (Qden a))).
  destruct (Qle_bool (pow2 e0) a) eqn:T.
  - apply Qle_bool_iff. exact T.
  - destruct a as [n d]. cbn [Qnum Qden] in e0.
    assert (Hn : 0 < n) by (unfold Qlt in Ha; simpl in Ha; lia).
    pose proof (Z.log2_spec n Hn) as [Ln _].
    pose proof (Z.log2_spec (Z.pos d) eq_refl) as [_ Ld].
    pose proof (Z.log2_nonneg n) as N1.
    pose proof (Z.log2_nonneg (Z.pos d)) as N2.
    replace (e0 - 1) with (Z.log2 n - Z.succ (Z.log2 (Z.pos d)))
      by (unfold e0; lia).
    unfold pow2. rewrite Qpower_minus by discriminate.
    fold (pow2 (Z.log2 n)). fold (pow2 (Z.succ (Z.log2 (Z.pos d)))).
    rewrite !pow2_Z by lia.
    set (A := 2 ^ Z.log2 n) in *. set (B := 2 ^ Z.succ (Z.log2 (Z.pos d))) in *.
    apply Qle_shift_div_r.
    + change 0%Q with (inject_Z 0). rewrite <- Zlt_Qlt. lia.
    + unfold Qle, Qmult, inject_Z. simpl. nia.
Qed.

Lemma nearest_even_le (s : Q) (M : Z) :
  (s <= inject_Z M)%Q -> nearest_even s <= M.
Proof.
  intros H. unfold nearest_even.
  pose proof (Qfloor_le s) as F1.
  assert (F2 : Qfloor s <= M).
  { rewrite Zle_Qle. eapply Qle_trans; eauto. }
  destruct (Z.eq_dec (Qfloor s) M) as [E|N].
  - assert (C : (s - inject_Z (Qfloor s) ?= 1 # 2)%Q = Lt).
    { apply (proj1 (Qlt_alt _ _)). rewrite E.
      generalize dependent (inject_Z M). intros x; intros. lra. }
    rewrite C. lia.
  - destruct (_ ?= _)%Q; [destruct (Z.even _)|..]; lia.
Qed.

Lemma nearest_even_ge (s : Q) (M : Z) :
  (inject_Z M <= s)%Q -> M <= nearest_even s.
Proof.
  intros H. unfold nearest_even.
  apply Qfloor_resp_le in H. rewrite Qfloor_Z in H.
  destruct (_ ?= _)%Q; [destruct (Z.even _)|..]; lia.
Qed.

(** What a positive [a] rounds to: a multiple [ne * u] of the spacing
    [u] at the exponent of [a], or an infinity. *)
Lemma round_positive (fmt : format) (a : Q) :
  (0 < a)%Q ->
  let e := Z.max (ilog2 a) (emin fmt) in
  let u := pow2 (e - (prec fmt - 1)) in
  let r := Qred (inject_Z (nearest_even (a / u)) * u) in
  round fmt a = (if Qle_bool (pow2 (emax fmt + 1)) r then PosInf else Finite r).
Proof.
  intros Ha e u r. unfold round.
  destruct (Qeq_bool a 0) eqn:E; [apply Qeq_bool_iff in E; lra|].
  assert (P : Qle_bool 0 a = true) by (apply Qle_bool_iff; lra).
  rewrite P, (Qabs_pos_eq a) by lra. reflexivity.
Qed.

Lemma round_upper (fmt : format) (a : Q) (K j : Z) :
  1 <= prec fmt ->
  (0 < a)%Q -> (a <= inject_Z K * pow2 j)%Q ->
  K < 2 ^ prec fmt -> emin fmt - (prec fmt - 1) <= j ->
  j + prec fmt <= emax fmt + 1 ->
  exists r, round fmt a = Finite r /\
            (0 <= r)%Q /\ (r <= inject_Z K * pow2 j)%Q.
Proof.
  intros Hp Ha Hle HK Hj Hov. rewrite (round_positive fmt a Ha).
  set (e := Z.max (ilog2 a) (emin fmt)).
  set (u := pow2 (e - (prec fmt - 1))).
  assert (Hu : (0 < u)%Q) by apply pow2_pos.
  pose proof (pow2_pos j) as Hpj.
  assert (HKp : (inject_Z K * pow2 j < pow2 (j + prec fmt))%Q).
  { rewrite pow2_add, (pow2_Z (prec fmt)) by lia.
    rewrite Zlt_Qlt in HK. rewrite (Qmult_comm (pow2 j)).
    apply Qmult_lt_compat_r; assumption. }
  assert (He : e - (prec fmt - 1) <= j).
  { unfold e. destruct (Z.max_spec (ilog2 a) (emin fmt)) as [[_ ->]|[_ ->]];
      [exact Hj|].
    pose proof (ilog2_le a Ha) as Hl.
    assert (Hlt : (pow2 (ilog2 a) < pow2 (j + prec fmt))%Q)
      by (eapply Qle_lt_trans; [exact Hl|]; eapply Qle_lt_trans; eauto).
    apply pow2_lt_inv in Hlt. lia. }
  pose proof (pow2_split j _ He) as Hsplit. fold u in Hsplit.
  set (d := j - (e - (prec fmt - 1))) in *.
  assert (HM : (inject_Z (K * 2 ^ d) * u == inject_Z K * pow2 j)%Q).
  { rewrite inject_Z_mult, Hsplit. ring. }
  assert (Hs : (a / u <= inject_Z (K * 2 ^ d))%Q).
  { apply Qle_shift_div_r; [exact Hu | rewrite HM; exact Hle]. }
  apply nearest_even_le in Hs.
  assert (Hs0 : 0 <= nearest_even (a / u)).
  { apply nearest_even_ge. change (inject_Z 0) with 0%Q.
    apply Qle_shift_div_l; [exact Hu | lra]. }
  set (ne := nearest_even (a / u)) in *.
  set (r := Qred (inject_Z ne * u)).
  assert (Hr : (r == inject_Z ne * u)%Q) by apply Qred_correct.
  assert (Hr1 : (r <= inject_Z K * pow2 j)%Q).
  { rewrite Hr, <- HM. apply Qmult_le_compat_r; [|lra].
    rewrite <- Zle_Qle. exact Hs. }
  assert (Hr0 : (0 <= r)%Q).
  { rewrite Hr. apply Qmult_le_0_compat; [|lra].
    change 0%Q with (inject_Z 0). rewrite <- Zle_Qle. exact Hs0. }
  destruct (Qle_bool (pow2 (emax fmt + 1)) r) eqn:O.
  - apply Qle_bool_iff in O. exfalso.
    pose proof (pow2_le _ _ Hov) as Hw. lra.
  - exists r. repeat split; assumption.
Qed.

Lemma round_lower (fmt : format) (a : Q) (K j : Z) :
  1 <= prec fmt ->
  0 < K -> (inject_Z K * pow2 j <= a)%Q ->
  K < 2 ^ prec fmt -> emin fmt - (prec fmt - 1) <= j ->
  at_least (inject_Z K * pow2 j) (round fmt a).
Proof.
  intros Hp HK0 Hle HK Hj.
  pose proof (pow2_pos j) as Hpj.
  assert (Ha : (0 < a)%Q).
  { eapply Qlt_le_trans; [|exact Hle].
    apply Qmult_lt_0_compat; [|exact Hpj].
    change 0%Q with (inject_Z 0). rewrite <- Zlt_Qlt. exact HK0. }
  rewrite (round_positive fmt a Ha).
  set (e := Z.max (ilog2 a) (emin fmt)).
  set (u := pow2 (e - (prec fmt - 1))).
  assert (Hu : (0 < u)%Q) by apply pow2_pos.
  assert (HKp : (inject_Z K * pow2 j < pow2 (j + prec fmt))%Q).
  { rewrite pow2_add, (pow2_Z (prec fmt)) by lia.
    rewrite Zlt_Qlt in HK. rewrite (Qmult_comm (pow2 j)).
    apply Qmult_lt_compat_r; assumption. }
  set (ne := nearest_even (a / u)).
  set (r := Qred (inject_Z ne * u)).
  assert (Hr : (r == inject_Z ne * u)%Q) by apply Qred_correct.
  assert (Hr1 : (inject_Z K * pow2 j <= r)%Q).
  { destruct (Z_le_gt_dec (e - (prec fmt - 1)) j) as [He|He].
    - pose proof (pow2_split j _ He) as Hsplit. fold u in Hsplit.
      set (d := j - (e - (prec fmt - 1))) in *.
      assert (HM : (inject_Z (K * 2 ^ d) * u == inject_Z K * pow2 j)%Q).
      { rewrite inject_Z_mult, Hsplit. ring. }
      assert (Hs : (inject_Z (K * 2 ^ d) <= a / u)%Q).
      { apply Qle_shift_div_l; [exact Hu | rewrite HM; exact Hle]. }
      apply nearest_even_ge in Hs. fold ne in Hs.
      rewrite Hr, <- HM. apply Qmult_le_compat_r; [|lra].
      rewrite <- Zle_Qle. exact Hs.
    - assert (Ee : e = ilog2 a) by (unfold e in *; lia).
      pose proof (ilog2_le a Ha) as Hl. rewrite <- Ee in Hl.
      assert (Hsplit : (pow2 e == inject_Z (2 ^ (prec fmt - 1)) * u)%Q).
      { rewrite (pow2_split e (e - (prec fmt - 1))) by lia.
        replace (e - (e - (prec fmt - 1))) with (prec fmt - 1) by lia.
        reflexivity. }
      assert (Hs : (inject_Z (2 ^ (prec fmt - 1)) <= a / u)%Q).
      { apply Qle_shift_div_l; [exact Hu | rewrite <- Hsplit; exact Hl]. }
      apply nearest_even_ge in Hs. fold ne in Hs.
      assert (Hge : (pow2 e <= r)%Q).
      { rewrite Hr, Hsplit. apply Qmult_le_compat_r; [|lra].
        rewrite <- Zle_Qle. exact Hs. }
      assert (Hw : (pow2 (j + prec fmt) <= pow2 e)%Q) by (apply pow2_le; lia).
      lra. }
  destruct (Qle_bool (pow2 (emax fmt + 1)) r); [exact I | exact Hr1].
Qed.

Lemma pow2_double (h : Z) : (pow2 (2 * h) == pow2 h * pow2 h)%Q.
Proof. replace (2 * h) with (h + h) by lia. apply pow2_add. Qed.

Lemma sqrt_upper (fmt : format) (a : Q) (h : Z) :
  1 <= prec fmt -> emin fmt - (prec fmt - 1) <= h ->
  (0 <= a)%Q -> (a <= pow2 (2 * h))%Q ->
  at_most (pow2 h) (sqrt fmt (Finite a)).
Proof.
  intros Hp Hh Ha0 Hle. pose proof (pow2_pos h) as Hph. unfold sqrt.
  destruct (Qeq_bool a 0) eqn:E; [simpl; lra|].
  apply Qeq_bool_neq in E.
  assert (Ha : (0 < a)%Q) by lra.
  destruct (Qle_bool a 0) eqn:E1; [apply Qle_bool_iff in E1; lra|].
  set (e := Z.max (ilog2 a / 2) (emin fmt)).
  set (qe := e - (prec fmt - 1)).
  set (s := (a / pow2 (2 * qe))%Q).
  set (m0 := Z.sqrt (Qfloor s)).
  assert (Hqe : qe <= h).
  { unfold qe, e.
    destruct (Z.max_spec (ilog2 a / 2) (emin fmt)) as [[_ ->]|[_ ->]];
      [exact Hh|].
    pose proof (ilog2_le a Ha) as Hl.
    assert (Hi : ilog2 a <= 2 * h)
      by (apply pow2_le_inv; eapply Qle_trans; eauto).
    assert (ilog2 a / 2 <= h) by (apply Z.div_le_upper_bound; lia).
    lia. }
  pose proof (pow2_split h qe Hqe) as Hsplit.
  set (T := 2 ^ (h - qe)) in *.
  assert (HT : 0 <= T) by (apply Z.pow_nonneg; lia).
  pose proof (pow2_pos qe) as Hpq.
  pose proof (pow2_pos (2 * qe)) as Hpq2.
  assert (Hs : (s <= inject_Z (T * T))%Q).
  { apply Qle_shift_div_r; [exact Hpq2|].
    rewrite inject_Z_mult, pow2_double.
    rewrite pow2_double, Hsplit in Hle. lra. }
  assert (Hs0 : (0 <= s)%Q) by (apply Qle_shift_div_l; [exact Hpq2 | lra]).
  assert (Hf : Qfloor s <= T * T).
  { apply Qfloor_resp_le in Hs. rewrite Qfloor_Z in Hs. exact Hs. }
  assert (Hf0 : 0 <= Qfloor s).
  { apply Qfloor_resp_le in Hs0. exact Hs0. }
  assert (Hm0 : m0 <= T).
  { unfold m0. rewrite <- (Z.sqrt_square T HT). apply Z.sqrt_le_mono.
    exact Hf. }
  pose proof (Z.sqrt_nonneg (Qfloor s)) as Hm00. fold m0 in Hm00.
  assert (Hhalf : ((inject_Z m0 + (1 # 2)) * (inject_Z m0 + (1 # 2)) <= s)%Q
                  -> m0 + 1 <= T).
  { intros Hge. destruct (Z.eq_dec m0 T) as [Em|]; [|lia]. exfalso.
    rewrite Em, inject_Z_mult in *.
    assert (0 <= inject_Z T)%Q
      by (change 0%Q with (inject_Z 0); rewrite <- Zle_Qle; exact HT).
    generalize dependent (inject_Z T). intros x; intros. nra. }
  set (m := match (s ?= (inject_Z m0 + (1 # 2)) * (inject_Z m0 + (1 # 2)))%Q with
            | Lt => m0
            | Gt => m0 + 1
            | Eq => if Z.even m0 then m0 else m0 + 1
            end).
  assert (Hm : 0 <= m <= T).
  { unfold m.
    destruct (s ?= (inject_Z m0 + (1 # 2)) * (inject_Z m0 + (1 # 2)))%Q eqn:C.
    - apply Qeq_alt in C. destruct (Z.even m0); [lia|].
      assert (m0 + 1 <= T) by (apply Hhalf; rewrite C; apply Qle_refl). lia.
    - lia.
    - apply Qgt_alt in C.
      assert (m0 + 1 <= T) by (apply Hhalf; apply Qlt_le_weak; exact C). lia. }
  cbn [at_most]. rewrite Qred_correct.
  assert (Hi : (0 <= inject_Z m <= inject_Z T)%Q).
  { change 0%Q with (inject_Z 0). rewrite <- !Zle_Qle. exact Hm. }
  rewrite Hsplit. split.
  - apply Qmult_le_0_compat; lra.
  - apply Qmult_le_compat_r; lra.
Qed.

Lemma sqrt_lower (fmt : format) (a : Q) (h : Z) :
  1 <= prec fmt -> emin fmt - (prec fmt - 1) <= h ->
  (pow2 (2 * h) <= a)%Q ->
  at_least (pow2 h) (sqrt fmt (Finite a)).
Proof.
  intros Hp Hh Hle. pose proof (pow2_pos h) as Hph.
  pose proof (pow2_pos (2 * h)) as Hph2. unfold sqrt.
  assert (Ha : (0 < a)%Q) by lra.
  destruct (Qeq_bool a 0) eqn:E; [apply Qeq_bool_iff in E; lra|].
  destruct (Qle_bool a 0) eqn:E1; [apply Qle_bool_iff in E1; lra|].
  set (e := Z.max (ilog2 a / 2) (emin fmt)).
  set (qe := e - (prec fmt - 1)).
  set (s := (a / pow2 (2 * qe))%Q).
  set (m0 := Z.sqrt (Qfloor s)).
  pose proof (pow2_pos qe) as Hpq.
  pose proof (pow2_pos (2 * qe)) as Hpq2.
  set (m := match (s ?= (inject_Z m0 + (1 # 2)) * (inject_Z m0 + (1 # 2)))%Q with
            | Lt => m0
            | Gt => m0 + 1
            | Eq => if Z.even m0 then m0 else m0 + 1
            end).
  assert (Hm : m0 <= m).
  { unfold m. destruct (_ ?= _)%Q; [destruct (Z.even m0)|..]; lia. }
  cbn [at_least]. rewrite Qred_correct.
  destruct (Z_le_gt_dec qe h) as [Hqe|Hqe].
  - pose proof (pow2_split h qe Hqe) as Hsplit.
    set (T := 2 ^ (h - qe)) in *.
    assert (HT : 0 <= T) by (apply Z.pow_nonneg; lia).
    assert (Hs : (inject_Z (T * T) <= s)%Q).
    { apply Qle_shift_div_l; [exact Hpq2|].
      rewrite inject_Z_mult, pow2_double.
      rewrite pow2_double, Hsplit in Hle. lra. }
    assert (Hf : T * T <= Qfloor s).
    { apply Qfloor_resp_le in Hs. rewrite Qfloor_Z in Hs. exact Hs. }
    assert (Hm0 : T <= m0).
    { unfold m0. rewrite <- (Z.sqrt_square T HT) at 1.
      apply Z.sqrt_le_mono. exact Hf. }
    assert (Hi : (inject_Z T <= inject_Z m)%Q) by (rewrite <- Zle_Qle; lia).
    rewrite Hsplit. apply Qmult_le_compat_r; lra.
  - assert (Ee : e = ilog2 a / 2) by (unfold qe, e in *; lia).
    pose proof (ilog2_le a Ha) as Hl.
    assert (H2e : 2 * e <= ilog2 a)
      by (rewrite Ee; apply Z.mul_div_le; lia).
    assert (Hq2 : 2 * qe <= 2 * e) by (unfold qe; lia).
    pose proof (pow2_le _ _ H2e) as Hl2.
    pose proof (pow2_split (2 * e) (2 * qe) Hq2) as Hsplit.
    set (F := 2 ^ (2 * e - 2 * qe)) in *.
    assert (HF : 1 <= F).
    { unfold F. change 1 with (2 ^ 0). apply Z.pow_le_mono_r; lia. }
    assert (Hs : (inject_Z 1 <= s)%Q).
    { apply Qle_shift_div_l; [exact Hpq2|].
      assert (inject_Z 1 <= inject_Z F)%Q by (rewrite <- Zle_Qle; exact HF).
      assert (inject_Z 1 * pow2 (2 * qe) <= inject_Z F * pow2 (2 * qe))%Q
        by (apply Qmult_le_compat_r; lra).
      lra. }
    assert (Hf : 1 <= Qfloor s).
    { apply Qfloor_resp_le in Hs. rewrite Qfloor_Z in Hs. exact Hs. }
    assert (Hm0 : 1 <= m0).
    { unfold m0. change 1 with (Z.sqrt 1) at 1. apply Z.sqrt_le_mono.
      exact Hf. }
    assert (Hi : (inject_Z 1 <= inject_Z m)%Q) by (rewrite <- Zle_Qle; lia).
    assert (Hw : (pow2 h <= pow2 qe)%Q) by (apply pow2_le; lia).
    assert (inject_Z 1 * pow2 qe <= inject_Z m * pow2 qe)%Q
      by (apply Qmult_le_compat_r; lra).
    change (inject_Z 1) with 1%Q in *. lra.
Qed.

End FloatFacts.

(** ** The pairwise sum

    What holds of every element, and is kept by one 32-bit addition with
    the counts of the elements added up, holds of the sum of an array in
    whatever order numpy splits it. *)
Section PairwiseSum.

Variable P : nat -> Float.t -> Prop.
Variable N : nat.
Hypothesis P_zero : P 0%nat (Float.Finite 0).
Hypothesis P_add :
  forall k1 k2 x y,
    P k1 x -> P k2 y -> (0 < k1 + k2 <= N)%nat ->
    P (k1 + k2)%nat (np.add32 x y).

Lemma sum_from_counts (l : list Float.t) :
  forall k acc,
    P k acc -> Forall (P 1%nat) l -> (k + length l <= N)%nat ->
    P (k + length l)%nat (np.sum_from acc l).
Proof.
  induction l as [|x l IH]; intros k acc Hacc Hl Hn.
  - cbn. rewrite Nat.add_0_r. exact Hacc.
  - cbn [np.sum_from length] in *.
    replace (k + S (length l))%nat with ((k + 1) + length l)%nat by lia.
    apply IH.
    + apply P_add; [exact Hacc | exact (Forall_inv Hl) | lia].
    + exact (Forall_inv_tail Hl).
    + lia.
Qed.

Lemma add_lanes_counts (c : nat) :
  forall r l,
    Forall (P c) r -> Forall (P 1%nat) l -> length l = length r ->
    (c + 1 <= N)%nat ->
    Forall (P (c + 1)%nat) (np.add_lanes r l) /\
    length (np.add_lanes r l) = length r.
Proof.
  induction r as [|x r IH]; intros [|y l] Hr Hl Hlen Hc;
    cbn [np.add_lanes length] in *; try discriminate.
  - split; [constructor | reflexivity].
  - destruct (IH l (Forall_inv_tail Hr) (Forall_inv_tail Hl)
                ltac:(lia) Hc) as [A B].
    split; [|lia]. constructor; [|exact A].
    apply P_add; [exact (Forall_inv Hr) | exact (Forall_inv Hl) | lia].
Qed.

Lemma lanes_counts (g : nat) :
  forall c r l,
    Forall (P c) r -> length r = 8%nat -> Forall (P 1%nat) l ->
    (8 * g <= length l)%nat -> (c + g <= N)%nat ->
    Forall (P (c + g)%nat) (fst (np.lanes g r l)) /\
    length (fst (np.lanes g r l)) = 8%nat /\
    Forall (P 1%nat) (snd (np.lanes g r l)) /\
    length (snd (np.lanes g r l)) = (length l - 8 * g)%nat.
Proof.
  induction g as [|g IH]; intros c r l Hr Hr8 Hl Hlen HN.
  - cbn [np.lanes fst snd]. rewrite Nat.add_0_r, Nat.mul_0_r, Nat.sub_0_r.
    auto.
  - cbn [np.lanes].
    assert (F8 : Forall (P 1%nat) (firstn 8 l) /\ Forall (P 1%nat) (skipn 8 l))
      by (apply Forall_app; rewrite firstn_skipn; exact Hl).
    assert (L8 : length (firstn 8 l) = 8%nat) by (rewrite length_firstn; lia).
    assert (S8 : length (skipn 8 l) = (length l - 8)%nat)
      by apply length_skipn.
    destruct (add_lanes_counts c r (firstn 8 l) Hr (proj1 F8)
                ltac:(lia) ltac:(lia)) as [A B].
    destruct (IH (c + 1)%nat (np.add_lanes r (firstn 8 l)) (skipn 8 l)
                A ltac:(lia) (proj2 F8) ltac:(lia) ltac:(lia))
      as (I1 & I2 & I3 & I4).
    replace (c + S g)%nat with (c + 1 + g)%nat by lia.
    repeat split; auto. rewrite I4. lia.
Qed.

Lemma block_sum_counts (l : list Float.t) :
  Forall (P 1%nat) l -> (8 <= length l <= N)%nat ->
  P (length l) (np.block_sum l).
Proof.
  intros Hl Hn. unfold np.block_sum.
  pose proof (Nat.div_mod_eq (length l) 8) as Hd.
  pose proof (Nat.mod_upper_bound (length l) 8 ltac:(discriminate)) as Hm.
  set (q := (length l / 8)%nat) in *.
  assert (F8 : Forall (P 1%nat) (firstn 8 l) /\ Forall (P 1%nat) (skipn 8 l))
    by (apply Forall_app; rewrite firstn_skipn; exact Hl).
  assert (L8 : length (firstn 8 l) = 8%nat) by (rewrite length_firstn; lia).
  assert (S8 : length (skipn 8 l) = (length l - 8)%nat)
    by apply length_skipn.
  destruct (lanes_counts (q - 1) 1%nat (firstn 8 l) (skipn 8 l)
              (proj1 F8) L8 (proj2 F8) ltac:(lia) ltac:(lia))
    as (L1 & L2 & L3 & L4).
  destruct (np.lanes (q - 1) (firstn 8 l) (skipn 8 l)) as [r rest].
  cbn [fst snd] in *.
  replace (1 + (q - 1))%nat with q in L1 by lia.
  destruct r as [|r0 [|r1 [|r2 [|r3 [|r4 [|r5 [|r6 [|r7 [|r8 r]]]]]]]]];
    try discriminate L2.
  repeat match goal with
         | H : Forall _ (_ :: _) |- _ =>
             let H1 := fresh "Q" in
             pose proof (Forall_inv H) as H1; apply Forall_inv_tail in H
         end.
  replace (length l)
    with ((((q + q) + (q + q)) + ((q + q) + (q + q))) + length rest)%nat
    by lia.
  apply sum_from_counts; [|exact L3|lia].
  repeat (apply P_add; [..|lia]); assumption.
Qed.

Lemma pairwise_sum_unfold (fuel : nat) (l : list Float.t) :
  np.pairwise_sum fuel l =
  if (length l <? 8)%nat then np.sum_from (Float.Finite 0) l
  else if (length l <=? 128)%nat then np.block_sum l
  else
    match fuel with
    | O => Float.NaN
    | S k =>
        let n2 := (length l / 2 - (length l / 2) mod 8)%nat in
        np.add32 (np.pairwise_sum k (firstn n2 l))
                 (np.pairwise_sum k (skipn n2 l))
    end.
Proof. destruct fuel; reflexivity. Qed.

Lemma pairwise_sum_counts (fuel : nat) :
  forall l,
    (length l <= fuel)%nat -> Forall (P 1%nat) l -> (length l <= N)%nat ->
    P (length l) (np.pairwise_sum fuel l).
Proof.
  induction fuel as [|k IH]; intros l Hf Hl HN;
    rewrite pairwise_sum_unfold;
    (destruct (Nat.ltb_spec (length l) 8);
     [exact (sum_from_counts l 0%nat _ P_zero Hl HN)|]);
    (destruct (Nat.leb_spec (length l) 128);
     [apply block_sum_counts; [exact Hl | lia]|]); [lia|].
  cbv zeta.
  pose proof (Nat.div_mod_eq (length l) 2) as Hd.
  pose proof (Nat.mod_upper_bound (length l) 2 ltac:(discriminate)) as Hm.
  pose proof (Nat.mod_upper_bound (length l / 2) 8 ltac:(discriminate)) as Hm8.
  set (n2 := (length l / 2 - (length l / 2) mod 8)%nat) in *.
  assert (Hn2 : (0 < n2 < length l)%nat) by lia.
  assert (F : Forall (P 1%nat) (firstn n2 l) /\ Forall (P 1%nat) (skipn n2 l))
    by (apply Forall_app; rewrite firstn_skipn; exact Hl).
  assert (L1 : length (firstn n2 l) = n2) by (rewrite length_firstn; lia).
  assert (L2 : length (skipn n2 l) = (length l - n2)%nat)
    by apply length_skipn.
  pose proof (IH (firstn n2 l) ltac:(lia) (proj1 F) ltac:(lia)) as I1.
  pose proof (IH (skipn n2 l) ltac:(lia) (proj2 F) ltac:(lia)) as I2.
  rewrite L1 in I1. rewrite L2 in I2.
  replace (length l) with (n2 + (length l - n2))%nat at 1 by lia.
  apply P_add; [exact I1 | exact I2 | lia].
Qed.

Lemma sum_counts (l : list Float.t) :
  Forall (P 1%nat) l -> (length l <= N)%nat -> P (length l) (np.sum l).
Proof.
  intros Hl HN. apply pairwise_sum_counts; [apply Nat.le_refl | exact Hl | exact HN].
Qed.

End PairwiseSum.

(** The splitting of the pairwise sum ends before the fuel does: with at
    least [length l], any amount of fuel gives the same sum. *)
Lemma pairwise_sum_fuel (k1 : nat) :
  forall k2 l, (length l <= k1)%nat -> (length l <= k2)%nat ->
               np.pairwise_sum k1 l = np.pairwise_sum k2 l.
Proof.
  induction k1 as [|k1 IH]; intros k2 l H1 H2;
    rewrite (pairwise_sum_unfold _ l), (pairwise_sum_unfold k2 l);
    (destruct (Nat.ltb_spec (length l) 8); [reflexivity|]);
    (destruct (Nat.leb_spec (length l) 128); [reflexivity|]); [lia|].
  destruct k2 as [|k2]; [lia|]. cbv zeta.
  pose proof (Nat.div_mod_eq (length l) 2) as Hd.
  pose proof (Nat.mod_upper_bound (length l) 2 ltac:(discriminate)) as Hm.
  pose proof (Nat.mod_upper_bound (length l / 2) 8 ltac:(discriminate)) as Hm8.
  set (n2 := (length l / 2 - (length l / 2) mod 8)%nat) in *.
  assert (L1 : length (firstn n2 l) = n2) by (rewrite length_firstn; lia).
  assert (L2 : length (skipn n2 l) = (length l - n2)%nat)
    by apply length_skipn.
  f_equal; apply IH; lia.
Qed.

(** ** Bounds through the operations of the amplitude tests *)

Section RoundingBounds.

Import Float.

Lemma round_negative (fmt : format) (x : Q) :
  (x < 0)%Q ->
  round fmt x = match round fmt (Qabs x) with
                | Finite r => Finite (Qred (- r))
                | PosInf => NegInf
                | o => o
                end.
Proof.
  intros Hx.
  assert (Ha : (0 < Qabs x)%Q) by (rewrite Qabs_neg by lra; lra).
  rewrite (round_positive fmt (Qabs x) Ha). unfold round.
  assert (E : Qeq_bool x 0 = false).
  { destruct (Qeq_bool x 0) eqn:E; [apply Qeq_bool_iff in E; lra|].
    reflexivity. }
  assert (E1 : Qle_bool 0 x = false).
  { destruct (Qle_bool 0 x) eqn:E1; [apply Qle_bool_iff in E1; lra|].
    reflexivity. }
  rewrite E, E1. cbv zeta.
  destruct (Qle_bool (pow2 (emax fmt + 1)) _); reflexivity.
Qed.

Lemma round_at_most (fmt : format) (a : Q) (K j : Z) :
  1 <= prec fmt ->
  (0 <= a)%Q -> (a <= inject_Z K * pow2 j)%Q ->
  K < 2 ^ prec fmt -> emin fmt - (prec fmt - 1) <= j ->
  j + prec fmt <= emax fmt + 1 ->
  at_most (inject_Z K * pow2 j) (round fmt a).
Proof.
  intros Hp Ha Hle HK Hj Hov.
  destruct (Qeq_bool a 0) eqn:E.
  - unfold round. rewrite E. cbn [at_most]. apply Qeq_bool_iff in E. lra.
  - apply Qeq_bool_neq in E.
    destruct (round_upper fmt a K j Hp ltac:(lra) Hle HK Hj Hov)
      as (r & -> & H0 & H1).
    split; assumption.
Qed.

Lemma at_most_weaken (hi hi' : Q) (x : t) :
  (hi <= hi')%Q -> at_most hi x -> at_most hi' x.
Proof.
  intros H. destruct x; cbn [at_most]; try tauto. intros [A B]. split; lra.
Qed.

Lemma at_least_weaken (lo lo' : Q) (x : t) :
  (lo' <= lo)%Q -> at_least lo x -> at_least lo' x.
Proof.
  intros H. destruct x; cbn [at_least]; try tauto. intros A. lra.
Qed.

Lemma one_below_pow2 (p : Z) : 1 <= p -> 1 < 2 ^ p.
Proof.
  intros H. change 1 with (2 ^ 0) at 1. apply Z.pow_lt_mono_r; lia.
Qed.

Lemma round_at_most1 (fmt : format) (a : Q) (j : Z) :
  1 <= prec fmt ->
  (0 <= a)%Q -> (a <= pow2 j)%Q ->
  emin fmt - (prec fmt - 1) <= j -> j + prec fmt <= emax fmt + 1 ->
  at_most (pow2 j) (round fmt a).
Proof.
  intros Hp A0 A1 Hj Hov.
  apply (at_most_weaken (inject_Z 1 * pow2 j)).
  - change (inject_Z 1) with 1%Q. rewrite Qmult_1_l. apply Qle_refl.
  - apply round_at_most; try assumption.
    + change (inject_Z 1) with 1%Q. rewrite Qmult_1_l. exact A1.
    + apply one_below_pow2. exact Hp.
Qed.

Lemma round_at_least1 (fmt : format) (a : Q) (j : Z) :
  1 <= prec fmt -> (pow2 j <= a)%Q ->
  emin fmt - (prec fmt - 1) <= j ->
  at_least (pow2 j) (round fmt a).
Proof.
  intros Hp A Hj.
  apply (at_least_weaken (inject_Z 1 * pow2 j)).
  - change (inject_Z 1) with 1%Q. rewrite Qmult_1_l. apply Qle_refl.
  - apply round_lower; try assumption; try lia.
    + change (inject_Z 1) with 1%Q. rewrite Qmult_1_l. exact A.
    + apply one_below_pow2. exact Hp.
Qed.

Lemma load_upper (fmt : format) (x : Q) (h : Z) :
  1 <= prec fmt -> emin fmt - (prec fmt - 1) <= h ->
  h + prec fmt <= emax fmt + 1 ->
  (Qabs x <= pow2 h)%Q ->
  exists r, round fmt x = Finite r /\ (Qabs r <= pow2 h)%Q.
Proof.
  intros Hp Hh Hov Hx.
  destruct (Qlt_le_dec x 0) as [Neg|Pos].
  - rewrite (round_negative fmt x Neg).
    pose proof (round_at_most1 fmt (Qabs x) h Hp (Qabs_nonneg x) Hx Hh Hov)
      as Hu.
    destruct (round fmt (Qabs x)) as [r| | |]; try contradiction.
    destruct Hu as [R0 R1]. exists (Qred (- r)). split; [reflexivity|].
    rewrite Qred_correct, Qabs_opp, Qabs_pos; assumption.
  - rewrite Qabs_pos in Hx by exact Pos.
    pose proof (round_at_most1 fmt x h Hp Pos Hx Hh Hov) as Hu.
    destruct (round fmt x) as [r| | |]; try contradiction.
    destruct Hu as [R0 R1]. exists r. split; [reflexivity|].
    rewrite Qabs_pos; assumption.
Qed.

Lemma load_lower (fmt : format) (x : Q) (h : Z) :
  1 <= prec fmt -> emin fmt - (prec fmt - 1) <= h ->
  (pow2 h <= Qabs x)%Q ->
  magnitude_at_least (pow2 h) (round fmt x).
Proof.
  intros Hp Hh Hx.
  destruct (Qlt_le_dec x 0) as [Neg|Pos].
  - rewrite (round_negative fmt x Neg).
    pose proof (round_at_least1 fmt (Qabs x) h Hp Hx Hh) as Hl.
    destruct (round fmt (Qabs x)) as [r| | |]; try contradiction;
      cbn [magnitude_at_least]; [|exact I].
    cbn [at_least] in Hl. rewrite Qred_correct, Qabs_opp.
    eapply Qle_trans; [exact Hl | apply Qle_Qabs].
  - rewrite Qabs_pos in Hx by exact Pos.
    pose proof (round_at_least1 fmt x h Hp Hx Hh) as Hl.
    destruct (round fmt x) as [r| | |]; try contradiction;
      cbn [magnitude_at_least]; [|exact I].
    cbn [at_least] in Hl. eapply Qle_trans; [exact Hl | apply Qle_Qabs].
Qed.

Lemma square_upper (fmt : format) (x : Q) (h : Z) :
  1 <= prec fmt <= emax fmt + 1 ->
  emin fmt - (prec fmt - 1) <= 2 * h -> h <= 0 ->
  (Qabs x <= pow2 h)%Q ->
  at_most (pow2 (2 * h)) (square fmt (round fmt x)).
Proof.
  intros Hp Hh Hneg Hx.
  destruct (load_upper fmt x h ltac:(lia) ltac:(lia) ltac:(lia) Hx)
    as (r & -> & Hr).
  cbn [square]. apply Qabs_Qle_condition in Hr.
  pose proof (pow2_pos h) as Hph.
  apply round_at_most1; try lia.
  - nra.
  - rewrite pow2_double. nra.
Qed.

Lemma square_lower (fmt : format) (x : Q) (h : Z) :
  1 <= prec fmt -> emin fmt - (prec fmt - 1) <= 2 * h -> h <= 0 ->
  (pow2 h <= Qabs x)%Q ->
  at_least (pow2 (2 * h)) (square fmt (round fmt x)).
Proof.
  intros Hp Hh Hneg Hx.
  pose proof (load_lower fmt x h Hp ltac:(lia) Hx) as L.
  destruct (round fmt x) as [r| | |]; try contradiction;
    cbn [square at_least]; try exact I.
  cbn [magnitude_at_least] in L.
  pose proof (pow2_pos h) as Hph.
  apply round_at_least1; try assumption. rewrite pow2_double.
  destruct (Qlt_le_dec r 0) as [Neg|Pos].
  - rewrite Qabs_neg in L by lra. nra.
  - rewrite Qabs_pos in L by lra. nra.
Qed.

(** Sums of [k] values, each between 0 and [2^j], stay between 0 and
    [k * 2^j] in 32-bit arithmetic, for up to [2^24 - 1] values. *)
Lemma add_at_most (j : Z) (k1 k2 : nat) (x y : t) :
  -149 <= j <= 104 ->
  at_most (inject_Z (Z.of_nat k1) * pow2 j) x ->
  at_most (inject_Z (Z.of_nat k2) * pow2 j) y ->
  (0 < k1 + k2 <= Z.to_nat 16777215)%nat ->
  at_most (inject_Z (Z.of_nat (k1 + k2)) * pow2 j) (np.add32 x y).
Proof.
  intros Hj Hx Hy Hk.
  destruct x as [a| | |]; try contradiction.
  destruct y as [b| | |]; try contradiction.
  cbn [at_most] in Hx, Hy. cbn [np.add32 add].
  assert (E : (inject_Z (Z.of_nat (k1 + k2)) * pow2 j
               == inject_Z (Z.of_nat k1) * pow2 j
                  + inject_Z (Z.of_nat k2) * pow2 j)%Q).
  { rewrite Nat2Z.inj_add, inject_Z_plus. ring. }
  apply round_at_most; cbn [prec emin emax binary32]; try lia.
  - lra.
  - rewrite E. lra.
Qed.

(** Sums of [k] values, each at least [2^j], are at least [k * 2^j]. *)
Lemma add_at_least (j : Z) (k1 k2 : nat) (x y : t) :
  -149 <= j ->
  at_least (inject_Z (Z.of_nat k1) * pow2 j) x ->
  at_least (inject_Z (Z.of_nat k2) * pow2 j) y ->
  (0 < k1 + k2 <= Z.to_nat 16777215)%nat ->
  at_least (inject_Z (Z.of_nat (k1 + k2)) * pow2 j) (np.add32 x y).
Proof.
  intros Hj Hx Hy Hk.
  destruct x as [a| | |]; try contradiction;
    destruct y as [b| | |]; try contradiction;
    cbn [np.add32 add at_least]; try exact I.
  cbn [at_least] in Hx, Hy.
  assert (E : (inject_Z (Z.of_nat (k1 + k2)) * pow2 j
               == inject_Z (Z.of_nat k1) * pow2 j
                  + inject_Z (Z.of_nat k2) * pow2 j)%Q).
  { rewrite Nat2Z.inj_add, inject_Z_plus. ring. }
  apply round_lower; cbn [prec emin emax binary32]; try lia.
  rewrite E. lra.
Qed.

Lemma count_pos (n : nat) : (0 < n)%nat -> (0 < inject_Z (Z.of_nat n))%Q.
Proof.
  intros H. change 0%Q with (inject_Z 0). rewrite <- Zlt_Qlt. lia.
Qed.

Lemma mean_at_most (j : Z) (l : list t) :
  -149 <= j <= 104 -> l <> [] ->
  at_most (inject_Z (Z.of_nat (length l)) * pow2 j) (np.sum l) ->
  at_most (pow2 j) (np.mean l).
Proof.
  intros Hj Hne Hs. unfold np.mean.
  assert (Hn : (0 < length l)%nat) by (destruct l; [congruence | cbn; lia]).
  destruct (np.sum l) as [a| | |]; try contradiction.
  cbn [at_most] in Hs. cbn [div_count].
  destruct (Z.eqb_spec (Z.of_nat (length l)) 0) as [Z0|_]; [lia|].
  pose proof (count_pos _ Hn) as Hc. pose proof (pow2_pos j) as Hpj.
  assert (D0 : (0 <= a / inject_Z (Z.of_nat (length l)))%Q)
    by (apply Qle_shift_div_l; lra).
  assert (D1 : (a / inject_Z (Z.of_nat (length l)) <= pow2 j)%Q).
  { apply Qle_shift_div_r; [exact Hc|]. rewrite Qmult_comm. tauto. }
  pose proof (round_at_most1 binary64 _ j ltac:(discriminate) D0 D1
                ltac:(cbn; lia) ltac:(cbn; lia)) as R.
  destruct (round binary64 _) as [m| | |]; try contradiction.
  cbn [cast]. destruct R as [R0 R1].
  apply round_at_most1; cbn [prec emin emax binary32]; try assumption; lia.
Qed.

Lemma mean_at_least (j : Z) (l : list t) :
  -149 <= j -> l <> [] ->
  at_least (inject_Z (Z.of_nat (length l)) * pow2 j) (np.sum l) ->
  at_least (pow2 j) (np.mean l).
Proof.
  intros Hj Hne Hs. unfold np.mean.
  assert (Hn : (0 < length l)%nat) by (destruct l; [congruence | cbn; lia]).
  destruct (np.sum l) as [a| | |]; try contradiction; [|exact I].
  cbn [at_least] in Hs. cbn [div_count].
  destruct (Z.eqb_spec (Z.of_nat (length l)) 0) as [Z0|_]; [lia|].
  pose proof (count_pos _ Hn) as Hc. pose proof (pow2_pos j) as Hpj.
  assert (D1 : (pow2 j <= a / inject_Z (Z.of_nat (length l)))%Q).
  { apply Qle_shift_div_l; [exact Hc|]. rewrite Qmult_comm. exact Hs. }
  pose proof (round_at_least1 binary64 _ j ltac:(discriminate) D1
                ltac:(cbn; lia)) as R.
  destruct (round binary64 _) as [m| | |]; try contradiction; [|exact I].
  cbn [cast]. cbn [at_least] in R.
  apply round_at_least1; cbn [prec emin emax binary32]; try assumption; lia.
Qed.

Lemma squares_length (audio_chunk : Audio) :
  length (np.square (np.array audio_chunk)) = length audio_chunk.
Proof. unfold np.square, np.array. rewrite !length_map. reflexivity. Qed.

Lemma energy_at_most (audio_chunk : Audio) (h : Z) :
  -74 <= h <= 0 -> audio_chunk <> [] -> len audio_chunk < 16777216 ->
  Forall (fun x => Qabs x <= pow2 h)%Q audio_chunk ->
  at_most (pow2 h) (SileroVAD.energy audio_chunk).
Proof.
  intros Hh Hne Hlen Hall. unfold SileroVAD.energy.
  set (l := np.square (np.array audio_chunk)).
  set (P := fun (k : nat) (x : Float.t) =>
              at_most (inject_Z (Z.of_nat k) * pow2 (2 * h)) x).
  assert (Hl : Forall (P 1%nat) l).
  { unfold l, np.square, np.array. rewrite map_map. apply Forall_map.
    revert Hall. apply Forall_impl. intros x Hx. unfold P.
    apply (at_most_weaken (pow2 (2 * h))).
    - change (inject_Z (Z.of_nat 1)) with 1%Q. rewrite Qmult_1_l.
      apply Qle_refl.
    - apply square_upper; cbn [prec emin emax binary32]; try lia.
      exact Hx. }
  assert (Hlen' : length l = length audio_chunk) by apply squares_length.
  assert (Hs : P (length l) (np.sum l)).
  { apply (sum_counts P (Z.to_nat 16777215)).
    - unfold P. cbn [at_most]. change (inject_Z (Z.of_nat 0)) with 0%Q.
      rewrite Qmult_0_l. split; apply Qle_refl.
    - intros k1 k2 x y. unfold P. apply add_at_most. lia.
    - exact Hl.
    - unfold len in Hlen. lia. }
  assert (Hm : at_most (pow2 (2 * h)) (np.mean l)).
  { apply mean_at_most; [lia | | exact Hs].
    intros E. rewrite E in Hlen'. destruct audio_chunk; [congruence|].
    discriminate. }
  destruct (np.mean l) as [a| | |]; try contradiction.
  destruct Hm as [A0 A1]. unfold np.sqrt.
  apply sqrt_upper; cbn [prec emin emax binary32]; try assumption; lia.
Qed.

Lemma energy_at_least (audio_chunk : Audio) (h : Z) :
  -74 <= h <= 0 -> audio_chunk <> [] -> len audio_chunk < 16777216 ->
  Forall (fun x => pow2 h <= Qabs x)%Q audio_chunk ->
  at_least (pow2 h) (SileroVAD.energy audio_chunk).
Proof.
  intros Hh Hne Hlen Hall. unfold SileroVAD.energy.
  set (l := np.square (np.array audio_chunk)).
  set (P := fun (k : nat) (x : Float.t) =>
              at_least (inject_Z (Z.of_nat k) * pow2 (2 * h)) x).
  assert (Hl : Forall (P 1%nat) l).
  { unfold l, np.square, np.array. rewrite map_map. apply Forall_map.
    revert Hall. apply Forall_impl. intros x Hx. unfold P.
    apply (at_least_weaken (pow2 (2 * h))).
    - change (inject_Z (Z.of_nat 1)) with 1%Q. rewrite Qmult_1_l.
      apply Qle_refl.
    - apply square_lower; cbn [prec emin emax binary32]; try lia.
      exact Hx. }
  assert (Hlen' : length l = length audio_chunk) by apply squares_length.
  assert (Hs : P (length l) (np.sum l)).
  { apply (sum_counts P (Z.to_nat 16777215)).
    - unfold P. cbn [at_least]. change (inject_Z (Z.of_nat 0)) with 0%Q.
      rewrite Qmult_0_l. apply Qle_refl.
    - intros k1 k2 x y. unfold P. apply add_at_least. lia.
    - exact Hl.
    - unfold len in Hlen. lia. }
  assert (Hm : at_least (pow2 (2 * h)) (np.mean l)).
  { apply mean_at_least; [lia | | exact Hs].
    intros E. rewrite E in Hlen'. destruct audio_chunk; [congruence|].
    discriminate. }
  destruct (np.mean l) as [a| | |]; try contradiction; [|exact I].
  cbn [at_least] in Hm. unfold np.sqrt.
  apply sqrt_lower; cbn [prec emin emax binary32]; try assumption; lia.
Qed.

Lemma magnitudes_length (w : Audio) :
  length (np.abs (np.array w)) = length w.
Proof. unfold np.abs, np.array. rewrite !length_map. reflexivity. Qed.

Lemma level_at_most (w : Audio) (h : Z) :
  -149 <= h <= 0 -> w <> [] -> len w < 16777216 ->
  Forall (fun x => Qabs x <= pow2 h)%Q w ->
  at_most (pow2 h) (StreamingASR.audio_level w).
Proof.
  intros Hh Hne Hlen Hall. unfold StreamingASR.audio_level.
  set (l := np.abs (np.array w)).
  set (P := fun (k : nat) (x : Float.t) =>
              at_most (inject_Z (Z.of_nat k) * pow2 h) x).
  assert (Hl : Forall (P 1%nat) l).
  { unfold l, np.abs, np.array. rewrite map_map. apply Forall_map.
    revert Hall. apply Forall_impl. intros x Hx. unfold P, np.float32.
    destruct (load_upper binary32 x h ltac:(discriminate)
                ltac:(cbn; lia) ltac:(cbn; lia) Hx) as (r & -> & Hr).
    cbn [abs at_most]. change (inject_Z (Z.of_nat 1)) with 1%Q.
    rewrite Qmult_1_l. split; [apply Qabs_nonneg | exact Hr]. }
  assert (Hlen' : length l = length w) by apply magnitudes_length.
  assert (Hs : P (length l) (np.sum l)).
  { apply (sum_counts P (Z.to_nat 16777215)).
    - unfold P. cbn [at_most]. change (inject_Z (Z.of_nat 0)) with 0%Q.
      rewrite Qmult_0_l. split; apply Qle_refl.
    - intros k1 k2 x y. unfold P. apply add_at_most. lia.
    - exact Hl.
    - unfold len in Hlen. lia. }
  apply mean_at_most; [lia | | exact Hs].
  intros E. rewrite E in Hlen'. destruct w; [congruence | discriminate].
Qed.

Lemma level_at_least (w : Audio) (h : Z) :
  -149 <= h <= 0 -> w <> [] -> len w < 16777216 ->
  Forall (fun x => pow2 h <= Qabs x)%Q w ->
  at_least (pow2 h) (StreamingASR.audio_level w).
Proof.
  intros Hh Hne Hlen Hall. unfold StreamingASR.audio_level.
  set (l := np.abs (np.array w)).
  set (P := fun (k : nat) (x : Float.t) =>
              at_least (inject_Z (Z.of_nat k) * pow2 h) x).
  assert (Hl : Forall (P 1%nat) l).
  { unfold l, np.abs, np.array. rewrite map_map. apply Forall_map.
    revert Hall. apply Forall_impl. intros x Hx. unfold P, np.float32.
    pose proof (load_lower binary32 x h ltac:(discriminate)
                  ltac:(cbn; lia) Hx) as L.
    destruct (round binary32 x) as [r| | |]; try contradiction;
      cbn [abs at_least]; try exact I.
    cbn [magnitude_at_least] in L. change (inject_Z (Z.of_nat 1)) with 1%Q.
    rewrite Qmult_1_l. exact L. }
  assert (Hlen' : length l = length w) by apply magnitudes_length.
  assert (Hs : P (length l) (np.sum l)).
  { apply (sum_counts P (Z.to_nat 16777215)).
    - unfold P. cbn [at_least]. change (inject_Z (Z.of_nat 0)) with 0%Q.
      rewrite Qmult_0_l. apply Qle_refl.
    - intros k1 k2 x y. unfold P. apply add_at_least. lia.
    - exact Hl.
    - unfold len in Hlen. lia. }
  apply mean_at_least; [lia | | exact Hs].
  intros E. rewrite E in Hlen'. destruct w; [congruence | discriminate].
Qed.

End RoundingBounds.

(* ================================================================== *)
(** * Further properties of the classifier adapter                     *)
(* ================================================================== *)

Section ClassifierMore.

Import SileroVAD.

(** X7.  Segment detection fails open.  Without a model, on an empty
    recording, or when the timestamp call raises, the whole recording is
    reported as one segment and [has_speech] answers [True]; with a model
    that answers, the segments are the timestamps and [has_speech] tells
    whether there is one. *)
Theorem X7_segment_detection_fails_open :
  forall (self : t) (call : timestamps_call) (audio_data : Audio),
    (model self = false \/ audio_data = [] \/ call = StampsRaise ->
     detect_speech_segments self call audio_data = [(0, len audio_data)] /\
     has_speech self call audio_data = true) /\
    (forall ts,
       model self = true -> audio_data <> [] -> call = Stamps ts ->
       detect_speech_segments self call audio_data
       = map (fun t => (ts_start t, ts_end t)) ts /\
       (has_speech self call audio_data = true <-> ts <> [])).
Proof.
  intros self call audio_data. unfold has_speech, detect_speech_segments.
  split.
  - intros [-> | [-> | ->]]; cbn [negb].
    + split; reflexivity.
    + destruct (model self); split; reflexivity.
    + destruct (model self), audio_data; split; reflexivity.
  - intros ts -> Hne ->. cbn [negb].
    destruct audio_data as [|x rest]; [congruence|].
    split; [reflexivity|]. unfold len. rewrite length_map.
    destruct ts as [|t0 ts]; simpl length.
    + split; [discriminate | congruence].
    + split; [discriminate | reflexivity].
Qed.

(** X7 on a recording for which the timestamp call raises, and on one
    for which it finds nothing. *)
Lemma X7_witness :
  let self := mk (1 # 2) 16000 true in
  (StampsRaise = StampsRaise /\ model self = true /\ [1 # 2]%Q <> []) /\
  has_speech self StampsRaise [1 # 2]%Q = true /\
  (has_speech self (Stamps []) [1 # 2]%Q = true <-> @nil timestamp <> []).
Proof.
  intros self.
  assert (Hne : [1 # 2]%Q <> []) by discriminate.
  split; [repeat split; auto|]. split.
  - exact (proj2 (proj1 (X7_segment_detection_fails_open
                           self StampsRaise [1 # 2]%Q)
                        (or_intror (or_intror eq_refl)))).
  - exact (proj2 (proj2 (X7_segment_detection_fails_open
                           self (Stamps []) [1 # 2]%Q)
                        [] eq_refl Hne eq_refl)).
Defined.

(** ** The energy heuristic *)

(** X8.  What the energy heuristic decides, in terms of the samples.  An
    empty frame is never speech, whatever the model does.  Without a
    model, a frame (of fewer than 2^24 samples) whose samples all stay
    within 1/128 of zero is silence, and a frame whose samples all lie at
    least 1/64 from zero is speech: the rounding of the 32-bit
    arithmetic never carries the energy across the threshold 0.01 that
    lies between. *)
Theorem X8_energy_heuristic_bounds :
  forall (self : t) (call : model_call) (audio_chunk : Audio),
    is_speech self call [] = false /\
    (model self = false -> len audio_chunk < 16777216 ->
     Forall (fun x => Qabs x <= 1 # 128)%Q audio_chunk ->
     is_speech self call audio_chunk = false) /\
    (model self = false -> audio_chunk <> [] ->
     len audio_chunk < 16777216 ->
     Forall (fun x => 1 # 64 <= Qabs x)%Q audio_chunk ->
     is_speech self call audio_chunk = true).
Proof.
  intros self call audio_chunk. unfold is_speech. split; [|split].
  - destruct (model self); reflexivity.
  - intros -> Hlen Hall. cbn [negb].
    destruct audio_chunk as [|x l]; [reflexivity|].
    pose proof (energy_at_most (x :: l) (-7) ltac:(lia) ltac:(discriminate)
                  Hlen Hall) as E.
    unfold energy_above. destruct (energy (x :: l)) as [r| | |];
      try contradiction.
    destruct E as [_ E].
    change (py_float (1 # 100))
      with (Float.Finite (5764607523034235 # 576460752303423488)).
    cbn [Float.gtb]. rewrite negb_false_iff, Qle_bool_iff.
    change (Float.pow2 (-7)) with (1 # 128)%Q in E. lra.
  - intros -> Hne Hlen Hall. cbn [negb].
    pose proof (energy_at_least audio_chunk (-6) ltac:(lia) Hne Hlen Hall)
      as E.
    unfold energy_above. destruct (energy audio_chunk) as [r| | |];
      try contradiction; [|reflexivity].
    cbn [Float.at_least] in E.
    change (py_float (1 # 100))
      with (Float.Finite (5764607523034235 # 576460752303423488)).
    cbn [Float.gtb]. rewrite negb_true_iff, <- not_true_iff_false, Qle_bool_iff.
    change (Float.pow2 (-6)) with (1 # 64)%Q in E. lra.
Qed.

(** X8 on a frame at amplitude 1/256 and on one at amplitude 1/2. *)
Lemma X8_witness :
  let self := mk (1 # 2) 16000 false in
  (model self = false /\
   Forall (fun x => Qabs x <= 1 # 128)%Q [1 # 256; -1 # 256]%Q /\
   Forall (fun x => 1 # 64 <= Qabs x)%Q [1 # 2; -1 # 2]%Q) /\
  is_speech self Raises [1 # 256; -1 # 256]%Q = false /\
  is_speech self Raises [1 # 2; -1 # 2]%Q = true.
Proof.
  intros self.
  assert (Hq : Forall (fun x => Qabs x <= 1 # 128)%Q [1 # 256; -1 # 256]%Q)
    by (repeat constructor; discriminate).
  assert (Hl : Forall (fun x => 1 # 64 <= Qabs x)%Q [1 # 2; -1 # 2]%Q)
    by (repeat constructor; discriminate).
  split; [repeat split; assumption|]. split.
  - exact (proj1 (proj2 (X8_energy_heuristic_bounds
                           self Raises [1 # 256; -1 # 256]%Q))
                 eq_refl eq_refl Hq).
  - exact (proj2 (proj2 (X8_energy_heuristic_bounds
                           self Raises [1 # 2; -1 # 2]%Q))
                 eq_refl ltac:(discriminate) eq_refl Hl).
Defined.

(** X26.  At the threshold the rounding decides, and not as the samples
    compare with 0.01.  [float32(0.01)] lies below 0.01 and the next
    32-bit float lies above.  Without a model, a frame of 42 samples at
    the float above is silence: the sum of the squares rounds down, and
    the energy comes out as [float32(0.01)].  A frame of 30 samples at
    [float32(0.01)] is speech: the sum rounds up. *)
Theorem X26_energy_rounding_at_the_threshold :
  forall (th : Q) (sr : Z) (call : model_call),
    let below := (5368709 # 536870912)%Q in
    let above := (10737419 # 1073741824)%Q in
    np.float32 (1 # 100) = Float.Finite below /\
    (below < 1 # 100)%Q /\ (1 # 100 < above)%Q /\
    energy (repeat above 42) = Float.Finite below /\
    is_speech (mk th sr false) call (repeat above 42) = false /\
    energy (repeat below 30) = Float.Finite above /\
    is_speech (mk th sr false) call (repeat below 30) = true.
Proof.
  intros th sr call below above. unfold is_speech. cbn [model negb].
  repeat split; vm_compute; reflexivity.
Qed.

(** ** Rescaling *)

Lemma exceeds_unit_false (l : Audio) :
  exceeds_unit l = false <-> Forall (fun x => Qabs x <= 1)%Q l.
Proof.
  unfold exceeds_unit, Qgtb. induction l as [|x l IH]; cbn [existsb].
  - split; [constructor | reflexivity].
  - rewrite orb_false_iff, negb_false_iff, Qle_bool_iff, IH.
    split.
    + intros [Hx Hl]. constructor; assumption.
    + intros H. split; [exact (Forall_inv H) | exact (Forall_inv_tail H)].
Qed.

Lemma scaled_sample (x : Q) :
  (Qabs x <= 32768 -> Qabs (x / 32768) <= 1)%Q.
Proof.
  intros H. unfold Qdiv. rewrite Qabs_Qmult.
  rewrite (Qabs_pos (/ 32768)) by discriminate.
  apply Qle_shift_div_r; [reflexivity | lra].
Qed.

(** X9.  Rescaling keeps a frame that is already within [-1, 1] as it
    is, brings every frame of 16-bit range into [-1, 1], and never
    changes the number of samples. *)
Theorem X9_rescale_brings_samples_into_unit_range :
  forall (audio_chunk : Audio),
    (Forall (fun x => Qabs x <= 1)%Q audio_chunk ->
     rescale audio_chunk = audio_chunk) /\
    (Forall (fun x => Qabs x <= 32768)%Q audio_chunk ->
     Forall (fun x => Qabs x <= 1)%Q (rescale audio_chunk)) /\
    length (rescale audio_chunk) = length audio_chunk.
Proof.
  intros audio_chunk. unfold rescale. split; [|split].
  - intros H. apply exceeds_unit_false in H. rewrite H. reflexivity.
  - intros H. destruct (exceeds_unit audio_chunk) eqn:E.
    + apply Forall_map. eapply Forall_impl; [|exact H].
      intros x Hx. apply scaled_sample. exact Hx.
    + apply exceeds_unit_false. exact E.
  - destruct (exceeds_unit audio_chunk); [apply length_map | reflexivity].
Qed.

(** X9 on a frame of 16-bit samples and on a frame within range. *)
Lemma X9_witness :
  (Forall (fun x => Qabs x <= 1)%Q [1 # 2; -1]%Q /\
   Forall (fun x => Qabs x <= 32768)%Q [16384; -32768]%Q) /\
  rescale [1 # 2; -1]%Q = [1 # 2; -1]%Q /\
  Forall (fun x => Qabs x <= 1)%Q (rescale [16384; -32768]%Q).
Proof.
  assert (H1 : Forall (fun x => Qabs x <= 1)%Q [1 # 2; -1]%Q)
    by (repeat constructor; discriminate).
  assert (H2 : Forall (fun x => Qabs x <= 32768)%Q [16384; -32768]%Q)
    by (repeat constructor; discriminate).
  split; [split; assumption|]. split.
  - exact (proj1 (X9_rescale_brings_samples_into_unit_range
                    [1 # 2; -1]%Q) H1).
  - exact (proj1 (proj2 (X9_rescale_brings_samples_into_unit_range
                           [16384; -32768]%Q)) H2).
Defined.

End ClassifierMore.

(* ================================================================== *)
(** * Further properties of the engine: the capture side               *)
(* ================================================================== *)

Section CaptureMore.

Import StreamingASR.

Lemma event_names_app (l1 l2 : list effect) :
  event_names (l1 ++ l2) = event_names l1 ++ event_names l2.
Proof.
  induction l1 as [|x l1 IH]; [reflexivity|].
  destruct x; simpl; rewrite ?IH; reflexivity.
Qed.

Lemma set_vad_same (self : t) (v : StreamingVAD.t) :
  vad self = Some v -> set_vad self (Some v) = self.
Proof. destruct self; simpl; intros ->; reflexivity. Qed.

Lemma set_audio_buffer_same (self : t) :
  set_audio_buffer self (audio_buffer self) = self.
Proof. destruct self; reflexivity. Qed.

(** The engine in classifier mode is the segmenter fed with the frames
    that were not dropped. *)
Lemma capture_with_classifier (events : list capture_event) :
  forall (self : t) (v : StreamingVAD.t),
    vad self = Some v ->
    fst (capture self events)
    = set_vad self (Some (StreamingVAD.after v (delivered events))) /\
    dispatched (snd (capture self events))
    = StreamingVAD.utterances
        (snd (StreamingVAD.run v (delivered events))) /\
    event_names (snd (capture self events)) = [].
Proof.
  induction events as [|e events IH]; intros self v Hv.
  - unfold delivered, StreamingVAD.after. simpl.
    rewrite (set_vad_same self v Hv). repeat split.
  - cbn [capture]. unfold delivered, overflowed. cbn [filter].
    unfold _audio_callback.
    destruct (flags e) as [|[|]] eqn:Ef; cbn [negb map].
    + (* no flag *)
      rewrite Hv. unfold StreamingVAD.after. cbn [StreamingVAD.run fst snd].
      destruct (StreamingVAD.process_chunk v (model_does e) (indata e))
        as [v' [state complete_audio]].
      specialize (IH (set_vad self (Some v')) v' eq_refl).
      unfold delivered, overflowed, StreamingVAD.after in IH.
      destruct (capture (set_vad self (Some v')) events) as [final es'].
      destruct (StreamingVAD.run v' _) as [vfinal rs].
      cbn [fst snd] in *. destruct IH as (-> & Hd & Hn).
      rewrite !dispatched_app, !event_names_app, Hd, Hn.
      destruct state, complete_audio; repeat split.
    + (* overflow: the frame is dropped *)
      specialize (IH self v Hv).
      unfold delivered, overflowed in IH.
      destruct (capture self events) as [final es'].
      cbn [fst snd] in *. destruct IH as (-> & Hd & Hn).
      cbn [app dispatched event_names]. repeat split; assumption.
    + (* another flag: a warning, and the frame is processed *)
      rewrite Hv. unfold StreamingVAD.after. cbn [StreamingVAD.run fst snd].
      destruct (StreamingVAD.process_chunk v (model_does e) (indata e))
        as [v' [state complete_audio]].
      specialize (IH (set_vad self (Some v')) v' eq_refl).
      unfold delivered, overflowed, StreamingVAD.after in IH.
      destruct (capture (set_vad self (Some v')) events) as [final es'].
      destruct (StreamingVAD.run v' _) as [vfinal rs].
      cbn [fst snd] in *. destruct IH as (-> & Hd & Hn).
      rewrite !dispatched_app, !event_names_app, Hd, Hn.
      destruct state, complete_audio; repeat split.
Qed.

Lemma delivered_length (events : list capture_event) :
  len (delivered events) <= len events.
Proof.
  unfold len, delivered. rewrite length_map.
  pose proof (filter_length_le (fun e => negb (overflowed e)) events).
  lia.
Qed.

Lemma rate_bound_on_delivered (sample_rate : Z) (model_loaded : bool)
      (events : list capture_event) :
  35 * len (StreamingVAD.utterances
              (snd (StreamingVAD.run
                      (StreamingVAD.init
                         (6 # 10) sample_rate
                         (if sample_rate =? 16000 then 512 else 256)
                         model_loaded)
                      (delivered events))))
  <= len events.
Proof.
  pose proof (delivered_length events).
  pose proof (run_accounted (delivered events)
                (StreamingVAD.init
                   (6 # 10) sample_rate
                   (if sample_rate =? 16000 then 512 else 256)
                   model_loaded)) as H0.
  destruct H0 as [_ Hb].
  { unfold StreamingVAD.accounted. simpl.
    repeat split; intros; discriminate. }
  change (StreamingVAD.backlog (StreamingVAD.init _ _ _ _)) with 0 in Hb.
  assert (0 <= StreamingVAD.backlog
                 (StreamingVAD.after
                    (StreamingVAD.init
                       (6 # 10) sample_rate
                       (if sample_rate =? 16000 then 512 else 256)
                       model_loaded)
                    (delivered events))).
  { unfold StreamingVAD.backlog.
    destruct (StreamingVAD.is_speaking _); [apply len_nonneg | lia]. }
  lia.
Qed.

(** X10.  In classifier mode the engine dispatches exactly the
    segmenter's utterances, in order: over any stream of callbacks, the
    buffers handed to transcription workers are the utterances the
    segmenter emits on the frames that were not dropped for overflow, the
    engine's segmenter ends in the state those frames lead to, and
    nothing else in the engine changes. *)
Theorem X10_engine_dispatches_the_segmenters_utterances :
  forall (self : t) (v : StreamingVAD.t) (events : list capture_event),
    vad self = Some v ->
    fst (capture self events)
    = set_vad self (Some (StreamingVAD.after v (delivered events))) /\
    dispatched (snd (capture self events))
    = StreamingVAD.utterances
        (snd (StreamingVAD.run v (delivered events))).
Proof.
  intros self v events Hv.
  destruct (capture_with_classifier events self v Hv) as (H1 & H2 & _).
  split; assumption.
Qed.

(** X10 on a stream with a dropped frame in it. *)
Lemma X10_witness :
  let loud := mk_capture_event [1 # 2; 1 # 2]%Q Clear (SileroVAD.Prob 1) in
  let lost := mk_capture_event [1 # 2; 1 # 2]%Q (Flags true)
                               (SileroVAD.Prob 1) in
  let events := [loud; lost; loud] in
  vad listening = Some StreamingVAD.session /\
  fst (capture listening events)
  = set_vad listening
            (Some (StreamingVAD.after StreamingVAD.session
                                      (delivered events))) /\
  length (delivered events) = 2%nat.
Proof.
  intros loud lost events. split; [reflexivity|]. split.
  - exact (proj1 (X10_engine_dispatches_the_segmenters_utterances
                    listening StreamingVAD.session events eq_refl)).
  - reflexivity.
Defined.

(** X11.  In classifier mode no event reaches the callback from the
    capture side: the 'chunk' pass-through exists in fallback mode
    only. *)
Theorem X11_classifier_mode_raises_no_event :
  forall (self : t) (v : StreamingVAD.t) (events : list capture_event),
    vad self = Some v ->
    event_names (snd (capture self events)) = [] /\
    forall e, raised e (snd (capture self events)) = 0%nat.
Proof.
  intros self v events Hv.
  destruct (capture_with_classifier events self v Hv) as (_ & _ & Hn).
  split; [exact Hn|]. intros e.
  induction (snd (capture self events)) as [|x es IH]; [reflexivity|].
  destruct x; simpl in *; try discriminate; auto.
Qed.

(** X11 on three loud frames. *)
Lemma X11_witness :
  let loud := mk_capture_event [1 # 2; 1 # 2]%Q Clear (SileroVAD.Prob 1) in
  vad listening = Some StreamingVAD.session /\
  raised "chunk" (snd (capture listening [loud; loud; loud])) = 0%nat.
Proof.
  intros loud. split; [reflexivity|].
  exact (proj2 (X11_classifier_mode_raises_no_event
                  listening StreamingVAD.session [loud; loud; loud]
                  eq_refl) "chunk"%string).
Defined.

(** X12.  The engine built by [__init__] with a classifier starts at
    most one transcription worker per 35 callbacks. *)
Theorem X12_at_most_one_worker_per_35_callbacks :
  forall (sample_rate : Z) (callback has_whisper model_loaded : bool)
         (events : list capture_event),
    let self := init sample_rate true callback true has_whisper
                     model_loaded in
    35 * len (dispatched (snd (capture self events))) <= len events.
Proof.
  intros sample_rate callback has_whisper model_loaded events self.
  destruct (capture_with_classifier events self _ eq_refl) as (_ & Hd & _).
  rewrite Hd.
  pose proof (rate_bound_on_delivered sample_rate model_loaded events) as H.
  exact H.
Qed.

(** ** Fallback mode *)

(** X13.  In fallback mode with a usable sample rate, the callback is
    told of every frame that was not dropped: one 'chunk' event per such
    frame when a callback is registered, and no other event. *)
Theorem X13_fallback_raises_chunk_per_frame :
  forall (events : list capture_event) (self : t),
    vad self = None -> sample_rate self <> 0 ->
    event_names (snd (capture self events))
    = if callback self
      then map (fun _ => "chunk"%string) (delivered events)
      else [].
Proof.
  induction events as [|e events IH]; intros self Hv Hsr.
  - destruct (callback self); reflexivity.
  - cbn [capture]. unfold delivered, overflowed. cbn [filter].
    unfold _audio_callback. rewrite Hv.
    destruct (Z.eqb_spec (sample_rate self) 0) as [|_]; [contradiction|].
    destruct (flags e) as [|[|]]; cbn [negb map].
    + destruct (Qle_bool _ _).
      * specialize (IH (set_audio_buffer self []) Hv Hsr).
        unfold delivered, overflowed in IH.
        destruct (capture (set_audio_buffer self []) events) as [fin es'].
        cbn [fst snd callback set_audio_buffer] in *.
        rewrite !event_names_app, IH. unfold notify.
        destruct (level_above _), (callback self); reflexivity.
      * specialize (IH (set_audio_buffer self
                          (audio_buffer self ++ [indata e])) Hv Hsr).
        unfold delivered, overflowed in IH.
        destruct (capture _ events) as [fin es'].
        cbn [fst snd callback set_audio_buffer] in *.
        rewrite !event_names_app, IH. unfold notify.
        destruct (callback self); reflexivity.
    + specialize (IH self Hv Hsr). unfold delivered, overflowed in IH.
      destruct (capture self events) as [fin es'].
      cbn [fst snd] in *. cbn [app event_names]. exact IH.
    + destruct (Qle_bool _ _).
      * specialize (IH (set_audio_buffer self []) Hv Hsr).
        unfold delivered, overflowed in IH.
        destruct (capture (set_audio_buffer self []) events) as [fin es'].
        cbn [fst snd callback set_audio_buffer] in *.
        rewrite !event_names_app, IH. unfold notify.
        destruct (level_above _), (callback self); reflexivity.
      * specialize (IH (set_audio_buffer self
                          (audio_buffer self ++ [indata e])) Hv Hsr).
        unfold delivered, overflowed in IH.
        destruct (capture _ events) as [fin es'].
        cbn [fst snd callback set_audio_buffer] in *.
        rewrite !event_names_app, IH. unfold notify.
        destruct (callback self); reflexivity.
Qed.

(** X13 on the fallback engine at 8 samples per second. *)
Lemma X13_witness :
  let frame := mk_capture_event (repeat (1 # 20)%Q 8) Clear
                                SileroVAD.Raises in
  let lost := mk_capture_event (repeat (1 # 20)%Q 8) (Flags true)
                               SileroVAD.Raises in
  (vad fallback8 = None /\ sample_rate fallback8 <> 0) /\
  event_names (snd (capture fallback8 [frame; lost; frame]))
  = ["chunk"%string; "chunk"%string].
Proof.
  intros frame lost.
  assert (Hsr : sample_rate fallback8 <> 0) by discriminate.
  split; [split; [reflexivity | exact Hsr]|].
  exact (X13_fallback_raises_chunk_per_frame
           [frame; lost; frame] fallback8 eq_refl Hsr).
Defined.

(** The test of line 100, on integers. *)
Lemma window_test (n sr : Z) :
  0 < sr ->
  Qle_bool 3 (inject_Z n / inject_Z sr) = (3 * sr <=? n).
Proof.
  intros Hsr.
  assert (Hq : (0 < inject_Z sr)%Q)
    by (change 0%Q with (inject_Z 0); rewrite <- Zlt_Qlt; exact Hsr).
  destruct (Z.leb_spec (3 * sr) n) as [H|H].
  - apply Qle_bool_iff. apply Qle_shift_div_l; [exact Hq|].
    change 3%Q with (inject_Z 3). rewrite <- inject_Z_mult, <- Zle_Qle.
    exact H.
  - apply not_true_iff_false. rewrite Qle_bool_iff. apply Qlt_not_le.
    apply Qlt_shift_div_r; [exact Hq|].
    change 3%Q with (inject_Z 3). rewrite <- inject_Z_mult, <- Zlt_Qlt.
    exact H.
Qed.

(** X14.  In fallback mode the buffer never holds a full window.  With
    frames of [L] samples, a positive sample rate and the window of
    [__init__] (3 s), after any stream of callbacks the buffered audio is
    shorter than 3 s, and every window handed to a transcription worker
    holds at least 3 s of audio and less than 3 s plus one frame. *)
Theorem X14_fallback_buffer_stays_below_a_window :
  forall (events : list capture_event) (self : t) (L : Z),
    vad self = None -> 0 < sample_rate self -> buffer_duration self = 3%Q ->
    Forall (fun e => len (indata e) = L) events ->
    Forall (fun f => len f = L) (audio_buffer self) ->
    len (audio_buffer self) * L < 3 * sample_rate self ->
    let r := capture self events in
    len (audio_buffer (fst r)) * L < 3 * sample_rate self /\
    Forall (fun f => len f = L) (audio_buffer (fst r)) /\
    Forall (fun a => 3 * sample_rate self <= len a
                     < 3 * sample_rate self + L)
           (dispatched (snd r)).
Proof.
  induction events as [|e events IH];
    intros self L Hv Hsr Hdur Hev Hbuf Hshort r; subst r.
  - cbn [capture fst snd dispatched]. repeat split; auto.
  - pose proof (Forall_inv Hev) as He. cbv beta in He.
    pose proof (Forall_inv_tail Hev) as Hev'.
    assert (Hwin : len (StreamingVAD.concatenate
                          (audio_buffer self ++ [indata e]))
                   = (len (audio_buffer self) + 1) * L).
    { assert (HL : 0 <= L) by (rewrite <- He; apply len_nonneg).
      rewrite (len_concatenate_uniform (Z.to_nat L)).
      - rewrite length_app, Z2Nat.id by exact HL. simpl length.
        unfold len. rewrite Nat2Z.inj_add. reflexivity.
      - apply Forall_app. split; [|constructor; [|constructor]].
        + eapply Forall_impl; [|exact Hbuf]. intros f Hf. cbv beta in Hf.
          unfold len in *. lia.
        + unfold len in *. lia. }
    cbn [capture]. unfold _audio_callback. rewrite Hv.
    destruct (Z.eqb_spec (sample_rate self) 0) as [|_]; [lia|].
    rewrite Hdur, window_test by exact Hsr. rewrite len_snoc, He.
    assert (Step :
      forall warned,
        let r :=
          (let '(self', es) :=
             if 3 * sample_rate self <=? (len (audio_buffer self) + 1) * L
             then
               (set_audio_buffer self [],
                warned ++
                (if level_above (StreamingVAD.concatenate
                                   (audio_buffer self ++ [indata e]))
                 then [Log "info" "Audio detected, processing";
                       Spawn (StreamingVAD.concatenate
                                (audio_buffer self ++ [indata e]))]
                 else [Log "debug" "Silence detected, skipping"])
                ++ notify self "chunk" (Chunk (indata e)))
             else
               (set_audio_buffer self (audio_buffer self ++ [indata e]),
                warned ++ notify self "chunk" (Chunk (indata e))) in
           let '(final, es') := capture self' events in
           (final, es ++ es')) in
        dispatched warned = [] ->
        len (audio_buffer (fst r)) * L < 3 * sample_rate self /\
        Forall (fun f => len f = L) (audio_buffer (fst r)) /\
        Forall (fun a => 3 * sample_rate self <= len a
                         < 3 * sample_rate self + L)
               (dispatched (snd r))).
    { intros warned r Hw. subst r.
      destruct (Z.leb_spec (3 * sample_rate self)
                           ((len (audio_buffer self) + 1) * L)) as [Hfull|Hnot].
      - specialize (IH (set_audio_buffer self []) L Hv Hsr Hdur Hev'
                       (Forall_nil _)).
        cbn [set_audio_buffer audio_buffer sample_rate] in IH.
        specialize (IH ltac:(change (len (@nil Audio)) with 0; lia)).
        destruct (capture (set_audio_buffer self []) events) as [fin es'].
        cbn [fst snd] in *. destruct IH as (I1 & I2 & I3).
        split; [exact I1|]. split; [exact I2|].
        rewrite !dispatched_app, Hw, dispatched_notify.
        destruct (level_above _); cbn [dispatched app]; [|exact I3].
        constructor; [|exact I3]. rewrite Hwin. lia.
      - assert (Hbuf' : Forall (fun f => len f = L)
                               (audio_buffer self ++ [indata e])).
        { apply Forall_app. split; [exact Hbuf|]. constructor; auto. }
        specialize (IH (set_audio_buffer self
                          (audio_buffer self ++ [indata e]))
                       L Hv Hsr Hdur Hev' Hbuf').
        cbn [set_audio_buffer audio_buffer sample_rate] in IH.
        rewrite len_snoc in IH. specialize (IH Hnot).
        destruct (capture _ events) as [fin es'].
        cbn [fst snd] in *. destruct IH as (I1 & I2 & I3).
        split; [exact I1|]. split; [exact I2|].
        rewrite !dispatched_app, Hw, dispatched_notify. exact I3. }
    destruct (flags e) as [|[|]].
    + exact (Step [] eq_refl).
    + specialize (IH self L Hv Hsr Hdur Hev' Hbuf Hshort).
      destruct (capture self events) as [fin es'].
      cbn [fst snd] in *. cbn [app dispatched]. exact IH.
    + exact (Step [Log "warning" "Audio status"] eq_refl).
Qed.

(** X14 on the fallback engine at 8 samples per second and four frames
    of 8 samples. *)
Lemma X14_witness :
  let frame := mk_capture_event (repeat (1 # 20)%Q 8) Clear
                                SileroVAD.Raises in
  let events := [frame; frame; frame; frame] in
  (vad fallback8 = None /\ 0 < sample_rate fallback8 /\
   buffer_duration fallback8 = 3%Q /\
   Forall (fun e => len (indata e) = 8) events) /\
  len (audio_buffer (fst (capture fallback8 events))) * 8 < 3 * 8 /\
  Forall (fun a => 3 * 8 <= len a < 3 * 8 + 8)
         (dispatched (snd (capture fallback8 events))).
Proof.
  intros frame events.
  assert (Hsr : 0 < sample_rate fallback8) by reflexivity.
  assert (Hev : Forall (fun e => len (indata e) = 8) events)
    by (repeat constructor).
  split; [repeat split; auto|].
  pose proof (X14_fallback_buffer_stays_below_a_window
                events fallback8 8 eq_refl Hsr eq_refl Hev
                (Forall_nil _) eq_refl) as H.
  split; [exact (proj1 H) | exact (proj2 (proj2 H))].
Defined.

(** X15.  With a sample rate of zero the fallback buffer only grows.
    Every frame that is not dropped is appended, the division of line 97
    raises and is caught, and so no window is ever dispatched and no
    'chunk' event is raised. *)
Theorem X15_fallback_with_zero_rate_only_buffers :
  forall (events : list capture_event) (self : t),
    vad self = None -> sample_rate self = 0 ->
    audio_buffer (fst (capture self events))
    = audio_buffer self ++ StreamingVAD.frames_of (delivered events) /\
    dispatched (snd (capture self events)) = [] /\
    event_names (snd (capture self events)) = [].
Proof.
  induction events as [|e events IH]; intros self Hv Hsr.
  - cbn. rewrite app_nil_r. repeat split.
  - cbn [capture]. unfold delivered, overflowed. cbn [filter].
    unfold _audio_callback. rewrite Hv, Hsr. cbn [Z.eqb].
    destruct (flags e) as [|[|]]; cbn [negb map StreamingVAD.frames_of].
    + specialize (IH (set_audio_buffer self
                        (audio_buffer self ++ [indata e])) Hv Hsr).
      unfold delivered, overflowed in IH.
      destruct (capture _ events) as [fin es'].
      cbn [fst snd set_audio_buffer audio_buffer] in *.
      destruct IH as (I1 & I2 & I3).
      rewrite I1, <- app_assoc, !dispatched_app, !event_names_app, I2, I3.
      repeat split.
    + specialize (IH self Hv Hsr). unfold delivered, overflowed in IH.
      destruct (capture self events) as [fin es'].
      cbn [fst snd] in *. cbn [app dispatched event_names]. exact IH.
    + specialize (IH (set_audio_buffer self
                        (audio_buffer self ++ [indata e])) Hv Hsr).
      unfold delivered, overflowed in IH.
      destruct (capture _ events) as [fin es'].
      cbn [fst snd set_audio_buffer audio_buffer] in *.
      destruct IH as (I1 & I2 & I3).
      rewrite I1, <- app_assoc, !dispatched_app, !event_names_app, I2, I3.
      repeat split.
Qed.

(** X15 on an engine built with sample rate 0. *)
Lemma X15_witness :
  let broken := init 0 false true true true true in
  let frame := mk_capture_event (repeat (1 # 2)%Q 4) Clear
                                SileroVAD.Raises in
  (vad broken = None /\ sample_rate broken = 0) /\
  dispatched (snd (capture broken [frame; frame; frame])) = [] /\
  len (audio_buffer (fst (capture broken [frame; frame; frame]))) = 3.
Proof.
  intros broken frame. split; [split; reflexivity|].
  pose proof (X15_fallback_with_zero_rate_only_buffers
                [frame; frame; frame] broken eq_refl eq_refl) as H.
  split; [exact (proj1 (proj2 H))|].
  rewrite (proj1 H). reflexivity.
Defined.

(** ** The level test in terms of the samples *)

(** On the frame that completes the window, the window goes to a worker
    or to none as the level test decides. *)
Lemma window_completes (self : t) (audio_chunk : Audio) (st : status)
      (call : SileroVAD.model_call) :
  vad self = None -> st <> Flags true -> sample_rate self <> 0 ->
  Forall (fun f => length f = length audio_chunk) (audio_buffer self) ->
  let window :=
    StreamingVAD.concatenate (audio_buffer self ++ [audio_chunk]) in
  (buffer_duration self
   <= inject_Z (len window) / inject_Z (sample_rate self))%Q ->
  dispatched (snd (_audio_callback self audio_chunk st call))
  = if level_above window then [window] else [].
Proof.
  intros Hvad Hst Hsr Hsize window Hfull.
  unfold _audio_callback. rewrite Hvad.
  destruct (Z.eqb_spec (sample_rate self) 0) as [|_]; [contradiction|].
  rewrite duration_of_uniform_buffer by exact Hsize. fold window.
  apply Qle_bool_iff in Hfull. rewrite Hfull.
  destruct st as [|[|]]; [|congruence|]; cbn [snd];
    rewrite !dispatched_app, dispatched_notify, app_nil_r;
    destruct (level_above window); reflexivity.
Qed.

(** X25.  The decision on a completed fallback window, in terms of its
    samples.  A window (of fewer than 2^24 samples) whose samples all
    stay within 1/128 of zero starts no worker; one whose samples all lie
    at least 1/64 from zero is handed to exactly one worker, whole.  The
    rounding of the 32-bit arithmetic decides only for windows in
    between. *)
Theorem X25_fallback_decision_away_from_the_threshold :
  forall (self : t) (audio_chunk : Audio) (st : status)
         (call : SileroVAD.model_call),
    vad self = None -> st <> Flags true -> sample_rate self <> 0 ->
    Forall (fun f => length f = length audio_chunk) (audio_buffer self) ->
    let window :=
      StreamingVAD.concatenate (audio_buffer self ++ [audio_chunk]) in
    (buffer_duration self
     <= inject_Z (len window) / inject_Z (sample_rate self))%Q ->
    len window < 16777216 ->
    let r := _audio_callback self audio_chunk st call in
    (Forall (fun x => Qabs x <= 1 # 128)%Q window ->
     dispatched (snd r) = []) /\
    (window <> [] -> Forall (fun x => 1 # 64 <= Qabs x)%Q window ->
     dispatched (snd r) = [window]).
Proof.
  intros self audio_chunk st call Hvad Hst Hsr Hsize window Hfull Hlen r.
  subst r. rewrite (window_completes self audio_chunk st call
                      Hvad Hst Hsr Hsize Hfull). fold window.
  unfold level_above.
  change (py_float (1 # 100))
    with (Float.Finite (5764607523034235 # 576460752303423488)).
  split.
  - intros Hall. destruct window as [|x w] eqn:W; [reflexivity|].
    pose proof (level_at_most (x :: w) (-7) ltac:(lia) ltac:(discriminate)
                  Hlen Hall) as E.
    destruct (audio_level (x :: w)) as [m| | |]; try contradiction.
    destruct E as [_ E]. cbn [Float.gtb].
    change (Float.pow2 (-7)) with (1 # 128)%Q in E.
    assert (T : Qle_bool m (5764607523034235 # 576460752303423488) = true)
      by (apply Qle_bool_iff; lra).
    rewrite T. reflexivity.
  - intros Hne Hall.
    pose proof (level_at_least window (-6) ltac:(lia) Hne Hlen Hall) as E.
    destruct (audio_level window) as [m| | |]; try contradiction;
      [|reflexivity].
    cbn [Float.at_least] in E. cbn [Float.gtb].
    change (Float.pow2 (-6)) with (1 # 64)%Q in E.
    assert (T : Qle_bool m (5764607523034235 # 576460752303423488) = false).
    { apply not_true_iff_false. rewrite Qle_bool_iff. lra. }
    rewrite T. reflexivity.
Qed.

(** X25 on two windows of 3 s at 8 samples per second, at the amplitudes
    [float32(0.001)] and [float32(0.05)]. *)
Lemma X25_witness :
  let quiet := repeat (8589935 # 8589934592)%Q 8 in
  let loud := repeat (-13421773 # 268435456)%Q 8 in
  let with_quiet := set_audio_buffer fallback8 [quiet; quiet] in
  let with_loud := set_audio_buffer fallback8 [loud; loud] in
  (vad fallback8 = None /\
   Forall (fun x => Qabs x <= 1 # 128)%Q
          (StreamingVAD.concatenate [quiet; quiet; quiet]) /\
   Forall (fun x => 1 # 64 <= Qabs x)%Q
          (StreamingVAD.concatenate [loud; loud; loud])) /\
  dispatched (snd (_audio_callback with_quiet quiet Clear SileroVAD.Raises))
  = [] /\
  dispatched (snd (_audio_callback with_loud loud Clear SileroVAD.Raises))
  = [StreamingVAD.concatenate [loud; loud; loud]].
Proof.
  intros quiet loud with_quiet with_loud.
  assert (Hq : Forall (fun x => Qabs x <= 1 # 128)%Q
                      (StreamingVAD.concatenate [quiet; quiet; quiet]))
    by (repeat constructor; discriminate).
  assert (Hl : Forall (fun x => 1 # 64 <= Qabs x)%Q
                      (StreamingVAD.concatenate [loud; loud; loud]))
    by (repeat constructor; discriminate).
  assert (Hst : Clear <> Flags true) by discriminate.
  assert (Hsr : 8 <> 0) by discriminate.
  split; [repeat split; assumption|]. split.
  - refine (proj1 (X25_fallback_decision_away_from_the_threshold
                     with_quiet quiet Clear SileroVAD.Raises
                     eq_refl Hst Hsr _ _ eq_refl) Hq).
    + repeat constructor.
    + vm_compute. discriminate.
  - refine (proj2 (X25_fallback_decision_away_from_the_threshold
                     with_loud loud Clear SileroVAD.Raises
                     eq_refl Hst Hsr _ _ eq_refl) _ Hl).
    + repeat constructor.
    + vm_compute. discriminate.
    + discriminate.
Defined.

End CaptureMore.

(* ================================================================== *)
(** * Further properties of the engine: lifecycle and workers          *)
(* ================================================================== *)

Section LifecycleMore.

Import StreamingASR.

Lemma start_in_step (self : t) (n : nat) (dev : device) :
  in_step self n ->
  let '(self', n', es, _) := start self n dev in
  in_step self' n' /\ callback self' = callback self /\
  (callback self = true ->
   (raised "started" es + n = raised "stopped" es + n')%nat).
Proof.
  intros [Hn Hs]. unfold start, in_step, notify.
  destruct (is_running self) eqn:E.
  - rewrite E. repeat split; auto; apply Hs.
  - destruct dev; cbn; rewrite ?E; subst n.
    + repeat split; auto; intros; try discriminate. apply Hs. assumption.
    + repeat split; auto; intros; discriminate.
    + destruct (callback self); repeat split; auto; intros; discriminate.
Qed.

Lemma stop_in_step (self : t) (n : nat) :
  in_step self n ->
  let '(self', n', es, _) := stop self n in
  in_step self' n' /\ callback self' = callback self /\
  (callback self = true ->
   (raised "started" es + n = raised "stopped" es + n')%nat).
Proof.
  intros [Hn Hs]. unfold stop, in_step, notify.
  destruct (is_running self) eqn:E; cbn [negb].
  - assert (Hst : stream self = Some Started) by (apply Hs; reflexivity).
    cbn. rewrite Hst. cbn. subst n.
    destruct (callback self); repeat split; auto; intros; discriminate.
  - rewrite E. repeat split; auto; apply Hs.
Qed.

Lemma lifecycle_in_step (calls : list lifecycle_call) :
  forall (self : t) (n : nat),
    in_step self n ->
    let '(self', n', es) := lifecycle self n calls in
    in_step self' n' /\ callback self' = callback self /\
    (callback self = true ->
     (raised "started" es + n = raised "stopped" es + n')%nat).
Proof.
  induction calls as [|c calls IH]; intros self n H.
  - cbn. repeat split; auto; apply H.
  - cbn [lifecycle].
    assert (Hc : let '(self', n', es, _) :=
                   match c with
                   | CallStart dev => start self n dev
                   | CallStop => stop self n
                   end in
                 in_step self' n' /\ callback self' = callback self /\
                 (callback self = true ->
                  (raised "started" es + n = raised "stopped" es + n')%nat)).
    { destruct c; [apply start_in_step | apply stop_in_step]; exact H. }
    destruct (match c with
              | CallStart dev => start self n dev
              | CallStop => stop self n
              end) as [[[self1 n1] es1] c1].
    destruct Hc as (H1 & Hcb & Hbal).
    specialize (IH self1 n1 H1).
    destruct (lifecycle self1 n1 calls) as [[self2 n2] es2].
    destruct IH as (H2 & Hcb2 & Hbal2).
    split; [exact H2|]. split; [congruence|].
    intros K. rewrite !raised_app.
    specialize (Hbal K). rewrite <- Hcb in K. specialize (Hbal2 K). lia.
Qed.

(** X16.  Whatever sequence of [start] and [stop] calls a caller makes
    on a fresh engine, and whatever the audio device answers, the engine
    holds one capture subscription when it is running and none when it
    is not, it is running exactly when its stream is a started one, and
    with a callback registered the 'started' events outnumber the
    'stopped' events by one while running and by none otherwise. *)
Theorem X16_lifecycle_keeps_one_subscription_while_running :
  forall (calls : list lifecycle_call) (sample_rate : Z)
         (vad_enabled callback has_vad has_whisper model_loaded : bool),
    let '(self, n, es) :=
      lifecycle (init sample_rate vad_enabled callback has_vad has_whisper
                      model_loaded) 0 calls in
    n = (if is_running self then 1%nat else 0%nat) /\
    (is_running self = true <-> stream self = Some Started) /\
    (callback = true ->
     raised "started" es = (raised "stopped" es + n)%nat).
Proof.
  intros calls sample_rate vad_enabled callback has_vad has_whisper
         model_loaded.
  pose proof (lifecycle_in_step calls
                (init sample_rate vad_enabled callback has_vad has_whisper
                      model_loaded) 0) as H.
  destruct (lifecycle _ 0 calls) as [[self n] es].
  destruct H as ([Hn Hs] & _ & Hbal).
  { split; [reflexivity|]. cbn. split; discriminate. }
  repeat split; try apply Hs; auto.
  intros K. specialize (Hbal K). lia.
Qed.

(** X17.  Starting and then stopping brings a stopped engine back to
    where it was: the same attributes, the same number of subscriptions,
    and the events 'started' and 'stopped', in this order, when a
    callback is registered. *)
Theorem X17_start_then_stop_restores_the_engine :
  forall (self : t) (n : nat),
    is_running self = false -> stream self = None ->
    let '(self1, n1, es1, c1) := start self n Opens in
    let '(self2, n2, es2, c2) := stop self1 n1 in
    self2 = self /\ n2 = n /\ c1 = Returned /\ c2 = Returned /\
    is_running self1 = true /\ n1 = S n /\
    event_names (es1 ++ es2)
    = if callback self then ["started"%string; "stopped"%string] else [].
Proof.
  intros self n Hrun Hstream. unfold start. rewrite Hrun.
  unfold stop. cbn. unfold notify. cbn.
  destruct self; cbn in *. subst.
  destruct callback0; repeat split.
Qed.

(** X17 on a fresh engine. *)
Lemma X17_witness :
  let fresh := init 16000 true true true true true in
  (is_running fresh = false /\ stream fresh = None) /\
  let '(self1, n1, es1, c1) := start fresh 0 Opens in
  let '(self2, n2, es2, c2) := stop self1 n1 in
  self2 = fresh /\ n2 = 0%nat /\ c1 = Returned /\ c2 = Returned /\
  is_running self1 = true /\ n1 = 1%nat /\
  event_names (es1 ++ es2)
  = if callback fresh then ["started"%string; "stopped"%string] else [].
Proof.
  intros fresh. split; [split; reflexivity|].
  exact (X17_start_then_stop_restores_the_engine fresh 0 eq_refl eq_refl).
Defined.

(** X18.  A start that fails is cleaned up and can be retried.  When
    the device cannot open or start the stream, [start] raises, leaves
    the engine stopped with no subscription and raises no 'started'
    event; a second [start] on a working device then succeeds. *)
Theorem X18_failed_start_leaves_engine_stopped :
  forall (self : t) (n : nat) (dev : device),
    is_running self = false -> dev <> Opens ->
    let '(self1, n1, es1, c1) := start self n dev in
    c1 = Raised /\ is_running self1 = false /\ n1 = n /\
    event_names es1 = [] /\
    let '(self2, n2, _, c2) := start self1 n1 Opens in
    c2 = Returned /\ is_running self2 = true /\ n2 = S n /\
    stream self2 = Some Started.
Proof.
  intros self n dev Hrun Hdev. unfold start. rewrite Hrun.
  destruct dev; [| |congruence]; cbn; repeat split.
Qed.

(** X18 on a device that cannot be opened. *)
Lemma X18_witness :
  let fresh := init 16000 true true true true true in
  (is_running fresh = false /\ OpenFails <> Opens) /\
  let '(self1, n1, es1, c1) := start fresh 0 OpenFails in
  c1 = Raised /\ is_running self1 = false /\ n1 = 0%nat /\
  event_names es1 = [] /\
  let '(self2, n2, _, c2) := start self1 n1 Opens in
  c2 = Returned /\ is_running self2 = true /\ n2 = 1%nat /\
  stream self2 = Some Started.
Proof.
  intros fresh.
  assert (Hdev : OpenFails <> Opens) by discriminate.
  split; [split; [reflexivity | exact Hdev]|].
  exact (X18_failed_start_leaves_engine_stopped
           fresh 0 OpenFails eq_refl Hdev).
Defined.

End LifecycleMore.

(* ================================================================== *)
(** * Further properties: transcription workers and Whisper            *)
(* ================================================================== *)

Section WorkerMore.

Import StreamingASR.

(** X19.  What a transcription worker does, in full.  It never changes
    the engine and never starts another worker; it raises 'processing'
    first and then at most 'result', each only through a registered
    callback, and nothing else; 'result' is raised only for a
    transcriber that is present and returns a successful text of at
    least two code points after stripping; and the worker ends in an
    exception exactly when the sample rate is zero or the transcriber
    throws. *)
Theorem X19_worker_events_in_full :
  forall (self : t) (audio_data : Audio) (answer : transcription),
    let '(self', es, c) := _process_audio self audio_data answer in
    self' = self /\
    dispatched es = [] /\
    event_names es
    = (if callback self then ["processing"%string] else [])
      ++ (if callback self && negb (sample_rate self =? 0) && asr self
             && match answer with
                | Returns r => success r && (2 <=? len (strip (text r)))
                | Throws => false
                end
          then ["result"%string] else []) /\
    (c = Raised <->
     sample_rate self = 0 \/ (asr self = true /\ answer = Throws)).
Proof.
  intros self audio_data answer. unfold _process_audio, notify.
  destruct (Z.eqb_spec (sample_rate self) 0) as [E|E].
  - rewrite !andb_false_r. cbn [andb negb].
    destruct (callback self); repeat split; auto.
  - cbn [negb]. rewrite andb_true_r.
    destruct (asr self).
    + destruct answer as [|r].
      * rewrite !andb_false_r.
        destruct (callback self); repeat split; auto.
      * pose proof (strip_len (text r)) as Hle.
        destruct (success r); cbn [andb].
        -- destruct (Z.eqb_spec (len (text r)) 0) as [E0|E0]; cbn [negb].
           ++ destruct (Z.leb_spec 2 (len (strip (text r)))); [lia|].
              rewrite andb_false_r.
              destruct (callback self); repeat split; auto;
                intros; try discriminate; intuition discriminate.
           ++ destruct (Z.ltb_spec (len (strip (text r))) 2),
                       (Z.leb_spec 2 (len (strip (text r))));
                try lia; rewrite ?andb_false_r, ?andb_true_r;
                destruct (callback self); repeat split; auto;
                intros; try discriminate; intuition discriminate.
        -- rewrite andb_false_r.
           destruct (callback self); repeat split; auto;
             intros; try discriminate; intuition discriminate.
    + rewrite andb_false_r.
      destruct (callback self); repeat split; auto;
        intros; try discriminate; intuition discriminate.
Qed.

(** ** Stripping *)

Lemma lstrip_suffix (s : pystr) : exists ws, s = ws ++ lstrip s.
Proof.
  induction s as [|c s [ws IH]]; [exists []; reflexivity|].
  cbn [lstrip]. destruct (isspace c).
  - exists (c :: ws). cbn [app]. f_equal. exact IH.
  - exists []. reflexivity.
Qed.

Lemma rstrip_prefix (s : pystr) : exists ws, s = rstrip s ++ ws.
Proof.
  destruct (lstrip_suffix (rev s)) as [ws H]. exists (rev ws).
  unfold rstrip. rewrite <- rev_app_distr, <- H, rev_involutive.
  reflexivity.
Qed.

Lemma lstrip_fixed (s : pystr) :
  lstrip s = s <->
  match s with
  | [] => True
  | c :: _ => isspace c = false
  end.
Proof.
  destruct s as [|c s]; [split; auto|]. cbn [lstrip].
  destruct (isspace c) eqn:E.
  - split; [|discriminate]. intros H.
    pose proof (lstrip_length s) as Hl. rewrite H in Hl. simpl in Hl. lia.
  - split; auto.
Qed.

Lemma lstrip_lstrip (s : pystr) : lstrip (lstrip s) = lstrip s.
Proof.
  induction s as [|c s IH]; [reflexivity|]. cbn [lstrip].
  destruct (isspace c) eqn:E; [exact IH|]. cbn [lstrip]. rewrite E.
  reflexivity.
Qed.

Lemma rstrip_rstrip (s : pystr) : rstrip (rstrip s) = rstrip s.
Proof.
  unfold rstrip. rewrite rev_involutive, lstrip_lstrip. reflexivity.
Qed.

Lemma rstrip_keeps_clean_head (s : pystr) :
  lstrip s = s -> lstrip (rstrip s) = rstrip s.
Proof.
  intros H. apply lstrip_fixed in H. apply lstrip_fixed.
  destruct (rstrip_prefix s) as [ws Hp].
  destruct (rstrip s) as [|c p]; [exact I|].
  rewrite Hp in H. exact H.
Qed.

Lemma rstrip_fixed_last (s : pystr) (c : N) :
  rstrip (s ++ [c]) = s ++ [c] -> isspace c = false.
Proof.
  unfold rstrip. intros H.
  apply (f_equal (@rev N)) in H. rewrite rev_involutive, rev_unit in H.
  apply lstrip_fixed in H. exact H.
Qed.

Lemma strip_clean_head (s : pystr) :
  lstrip (rstrip (lstrip s)) = rstrip (lstrip s).
Proof. apply rstrip_keeps_clean_head, lstrip_lstrip. Qed.

Lemma strip_strip (s : pystr) : strip (strip s) = strip s.
Proof. unfold strip. rewrite strip_clean_head. apply rstrip_rstrip. Qed.

(** X20.  Stripping is idempotent, and what it returns neither starts
    nor ends with a whitespace code point. *)
Theorem X20_strip_is_idempotent :
  forall (s : pystr),
    strip (strip s) = strip s /\
    (forall c rest, strip s = c :: rest -> isspace c = false) /\
    (forall front c, strip s = front ++ [c] -> isspace c = false).
Proof.
  intros s. split; [apply strip_strip|]. unfold strip.
  pose proof (strip_clean_head s) as Hhead.
  split.
  - intros c rest E. apply lstrip_fixed in Hhead. rewrite E in Hhead.
    exact Hhead.
  - intros front c E. apply (rstrip_fixed_last front).
    rewrite <- E. apply rstrip_rstrip.
Qed.

(** ** Whisper *)

(** X21.  [transcribe_audio] on a loaded model never throws: whatever
    happens inside, it returns a result.  A failure comes back as an
    unsuccessful result with empty text and zero latency; a success
    needs a non-zero sample rate and a text from Whisper, and carries
    that text stripped.  Without a loaded model the call throws. *)
Theorem X21_transcribe_audio_returns_or_reports_failure :
  forall (w : WhisperASR.t) (audio_data : Audio) (sample_rate : Z)
         (call : WhisperASR.whisper_call) (elapsed : Q),
    (WhisperASR.model w = false ->
     WhisperASR.transcribe_audio w audio_data sample_rate call elapsed
     = Throws) /\
    (WhisperASR.model w = true ->
     exists r,
       WhisperASR.transcribe_audio w audio_data sample_rate call elapsed
       = Returns r /\
       strip (text r) = text r /\
       (success r = false -> text r = [] /\ latency r = 0%Q) /\
       (success r = true <->
        sample_rate <> 0 /\
        exists raw, call = WhisperASR.Transcribes raw
                    /\ text r = strip raw)).
Proof.
  intros w audio_data sample_rate call elapsed.
  unfold WhisperASR.transcribe_audio. split; intros ->; cbn [negb].
  - reflexivity.
  - destruct (Z.eqb_spec sample_rate 0) as [E|E].
    + exists WhisperASR.failure. cbn. repeat split; auto;
        intros; try discriminate. destruct H as [K _]. contradiction.
    + destruct call as [|raw].
      * exists WhisperASR.failure. cbn. repeat split; auto;
          intros; try discriminate.
        destruct H as (_ & raw & K & _). discriminate.
      * eexists. split; [reflexivity|]. cbn. repeat split; auto;
          intros; try discriminate.
        -- apply strip_strip.
        -- exists raw. split; reflexivity.
Qed.

(** X21 on a loaded model that fails and on one that answers. *)
Lemma X21_witness :
  let w := WhisperASR.mk true in
  WhisperASR.model w = true /\
  (exists r,
     WhisperASR.transcribe_audio w [1 # 2]%Q 16000 WhisperASR.Fails 1
     = Returns r /\ success r = false /\ text r = []) /\
  (exists r,
     WhisperASR.transcribe_audio
       w [1 # 2]%Q 16000 (WhisperASR.Transcribes (pystr_of " ok ")) 1
     = Returns r /\ text r = pystr_of "ok").
Proof.
  intros w. split; [reflexivity|]. split.
  - destruct (proj2 (X21_transcribe_audio_returns_or_reports_failure
                       w [1 # 2]%Q 16000 WhisperASR.Fails 1) eq_refl)
      as (r & Hr & _ & Hfail & _).
    exists r. injection Hr as <-. repeat split.
  - destruct (proj2 (X21_transcribe_audio_returns_or_reports_failure
                       w [1 # 2]%Q 16000
                       (WhisperASR.Transcribes (pystr_of " ok ")) 1)
                    eq_refl)
      as (r & Hr & _).
    exists r. injection Hr as <-. split; reflexivity.
Defined.

(** X22.  A worker of an engine that transcribes with Whisper.  With a
    callback, a loaded model and a non-zero sample rate the worker always
    returns, whatever Whisper does, and leaves the engine as it was; it
    raises 'result' at most once, exactly when Whisper yields a text
    that has two code points or more after stripping; and the text of
    that event is the stripped text. *)
Theorem X22_whisper_worker_always_returns :
  forall (self : t) (w : WhisperASR.t) (audio_data : Audio)
         (call : WhisperASR.whisper_call) (elapsed : Q),
    callback self = true -> asr self = true ->
    WhisperASR.model w = true -> sample_rate self <> 0 ->
    let '(self', es, c) :=
      WhisperASR.worker self w audio_data call elapsed in
    c = Returned /\ self' = self /\
    (raised "result" es = 1%nat <->
     exists raw, call = WhisperASR.Transcribes raw
                 /\ 2 <= len (strip raw)) /\
    (raised "result" es <= 1)%nat /\
    (forall r, In (Callback "result" (Result r)) es ->
               exists raw, call = WhisperASR.Transcribes raw /\
                           text r = strip raw /\ success r = true).
Proof.
  intros self w audio_data call elapsed Hcb Hasr Hw Hsr.
  unfold WhisperASR.worker, WhisperASR.transcribe_audio, _process_audio,
    notify.
  rewrite Hw, Hcb, Hasr. cbn [negb].
  destruct (Z.eqb_spec (sample_rate self) 0) as [|_]; [contradiction|].
  destruct call as [|raw]; cbn -[strip len].
  - split; [reflexivity|]. split; [reflexivity|]. split; [|split; [lia|]].
    + split; [discriminate|]. intros (raw & K & _). discriminate.
    + intros r H. exfalso. scan H.
  - rewrite strip_strip.
    pose proof (strip_len raw) as Hle.
    destruct (Z.eqb_spec (len (strip raw)) 0) as [E0|E0]; cbn -[strip len].
    + split; [reflexivity|]. split; [reflexivity|].
      split; [|split; [lia|]].
      * split; [discriminate|].
        intros (raw' & K & Hlen). injection K as <-. lia.
      * intros r H. exfalso. scan H.
    + destruct (Z.ltb_spec (len (strip raw)) 2) as [Hlt|Hge]; cbn -[strip len].
      * split; [reflexivity|]. split; [reflexivity|].
        split; [|split; [lia|]].
        -- split; [discriminate|].
           intros (raw' & K & Hlen). injection K as <-. lia.
        -- intros r H. exfalso. scan H.
      * split; [reflexivity|]. split; [reflexivity|].
        split; [|split; [lia|]].
        -- split; [|reflexivity]. intros _. exists raw. split; auto.
        -- intros r [K|[K|[K|[K|[]]]]]; try discriminate.
           injection K as <-. exists raw. repeat split.
Qed.

(** X22 on Whisper answering " ok " and on Whisper failing. *)
Lemma X22_witness :
  let w := WhisperASR.mk true in
  (callback listening = true /\ asr listening = true /\
   WhisperASR.model w = true /\ sample_rate listening <> 0) /\
  snd (WhisperASR.worker listening w [1 # 2]%Q WhisperASR.Fails 1)
  = Returned /\
  snd (WhisperASR.worker listening w [1 # 2]%Q
                         (WhisperASR.Transcribes (pystr_of " ok ")) 1)
  = Returned.
Proof.
  intros w.
  assert (Hsr : sample_rate listening <> 0) by discriminate.
  split; [repeat split; auto|]. split.
  - pose proof (X22_whisper_worker_always_returns
                  listening w [1 # 2]%Q WhisperASR.Fails 1
                  eq_refl eq_refl eq_refl Hsr) as H.
    destruct (WhisperASR.worker listening w [1 # 2]%Q WhisperASR.Fails 1)
      as [[s' es] c].
    exact (proj1 H).
  - pose proof (X22_whisper_worker_always_returns
                  listening w [1 # 2]%Q
                  (WhisperASR.Transcribes (pystr_of " ok ")) 1
                  eq_refl eq_refl eq_refl Hsr) as H.
    destruct (WhisperASR.worker listening w [1 # 2]%Q
                (WhisperASR.Transcribes (pystr_of " ok ")) 1)
      as [[s' es] c].
    exact (proj1 H).
Defined.

(** X23.  [transcribe_with_whisper] never raises: it answers [None]
    exactly when Whisper could not be loaded or the transcription
    failed, and otherwise the stripped text, which may be empty. *)
Theorem X23_transcribe_with_whisper_answers_text_or_none :
  forall (loads : bool) (call : WhisperASR.whisper_call) (elapsed : Q),
    (WhisperASR.transcribe_with_whisper loads call elapsed = None <->
     loads = false \/ call = WhisperASR.Fails) /\
    (forall t,
       WhisperASR.transcribe_with_whisper loads call elapsed = Some t ->
       exists raw,
         call = WhisperASR.Transcribes raw /\ t = strip raw /\
         strip t = t).
Proof.
  intros loads call elapsed.
  unfold WhisperASR.transcribe_with_whisper, WhisperASR.transcribe_file.
  destruct loads; cbn [negb WhisperASR.model].
  - destruct call as [|raw]; cbn.
    + split; [split; auto|]. intros t H. discriminate.
    + split.
      * split; [discriminate|]. intros [K|K]; discriminate.
      * intros t H. injection H as <-. exists raw.
        repeat split. apply strip_strip.
  - split; [split; auto|]. intros t H. discriminate.
Qed.

End WorkerMore.
